(** * Undo/redo history manager (history_manager.py)

    A shallow embedding of the [HistoryManager] class: the image buffers
    live in an object heap and are named by references, so that every
    [.copy()] of the source is an allocation and the sharing (or absence of
    sharing) between the manager and its callers can be stated. *)

From stdpp Require Import base numbers option list strings.

Local Open Scope Z_scope.

(** ** NumPy arrays *)

Module NumPy.

(** An image: height, width and channel count, the size of one element
    in bytes, and the elements themselves. *)
Record ndarray : Type := mk_ndarray {
  shape : nat * nat * nat;
  itemsize : nat;
  data : list N
}.

Definition nbytes (a : ndarray) : nat :=
  let '(h, w, c) := shape a in (h * w * c * itemsize a)%nat.

End NumPy.
Import NumPy.

(** ** Python objects: references, heap, exceptions *)

(** A reference to an array object. *)
Abbreviation ref := nat (only parsing).

(** The arrays allocated so far; an object's reference is its position.
    Objects are never freed (collection is not observable). *)
Abbreviation heap := (list ndarray) (only parsing).

Inductive exn : Type :=
  | ValueError      (* deque(maxlen=...) with a negative bound *)
  | OverflowError   (* deque(maxlen=...) outside the machine index range *)
  | IndexError      (* pop from an empty deque *)
  | BadReference.   (* a reference that names no object: never raised by
                       Python, it marks an ill-formed model state *)

Inductive result (A : Type) : Type :=
  | Ok (a : A)
  | Raise (e : exn).
Arguments Ok {A} a.
Arguments Raise {A} e.

(** ** collections.deque with a maxlen *)

Module Deque.

(** The entries, oldest first (appends go to the tail), and the bound. *)
Record deque : Type := mk_deque {
  items : list ref;
  maxlen : Z
}.

(** Largest value of the index type the bound is converted to (64-bit
    CPython). *)
Definition PY_SSIZE_T_MAX : Z := 2 ^ 63 - 1.

(** [deque(maxlen=n)]: the bound is converted to a machine index
    (OverflowError when it does not fit) and must be non-negative
    (ValueError otherwise); zero is accepted. *)
Definition new (n : Z) : result deque :=
  if (n <? - PY_SSIZE_T_MAX - 1) || (PY_SSIZE_T_MAX <? n) then Raise OverflowError
  else if n <? 0 then Raise ValueError
  else Ok (mk_deque [] n).

Definition len (d : deque) : Z := Z.of_nat (length (items d)).

(** [d.append(x)]: add at the tail, then drop the head when the bound is
    exceeded. *)
Definition append (x : ref) (d : deque) : deque :=
  let l := items d ++ [x] in
  if maxlen d <? Z.of_nat (length l)
  then mk_deque (drop 1 l) (maxlen d)
  else mk_deque l (maxlen d).

(** [d.pop()]: remove and return the tail. *)
Definition pop (d : deque) : result (ref * deque) :=
  match last (items d) with
  | Some x => Ok (x, mk_deque (removelast (items d)) (maxlen d))
  | None => Raise IndexError
  end.

(** [d.clear()] keeps the bound. *)
Definition clear (d : deque) : deque := mk_deque [] (maxlen d).

End Deque.
Import Deque.

(** ** The class and the world it runs in *)

Record HistoryManager : Type := mk_HistoryManager {
  _history_stack : deque;
  _redo_stack : deque;
  _max_history : Z;
  _current_state : option ref
}.

Record World : Type := mk_World {
  objects : heap;
  self : HistoryManager
}.

(** Methods are state transformers that may raise. *)
Definition M (A : Type) : Type := World -> result (A * World).

Definition ret {A} (a : A) : M A := fun w => Ok (a, w).

Definition bind {A B} (c : M A) (k : A -> M B) : M B :=
  fun w => match c w with
           | Ok (a, w') => k a w'
           | Raise e => Raise e
           end.

Notation "x <~ c ;; k" := (bind c (fun x => k))
  (at level 100, c at next level, right associativity).
Notation "c ;;; k" := (bind c (fun _ => k))
  (at level 100, right associativity).

Definition get_self : M HistoryManager := fun w => Ok (self w, w).

Definition set_self (hm : HistoryManager) : M unit :=
  fun w => Ok (tt, mk_World (objects w) hm).

Definition lift {A} (r : result A) : M A :=
  fun w => match r with Ok a => Ok (a, w) | Raise e => Raise e end.

(** [a.copy()]: allocate a new array with the contents of [a]. *)
Definition ndarray_copy (r : ref) : M ref :=
  fun w => match objects w !! r with
           | Some a => Ok (length (objects w), mk_World (objects w ++ [a]) (self w))
           | None => Raise BadReference
           end.

(** Attribute assignments. *)
Definition set_history_stack (d : deque) : M unit :=
  hm <~ get_self ;;
  set_self (mk_HistoryManager d (_redo_stack hm) (_max_history hm) (_current_state hm)).

Definition set_redo_stack (d : deque) : M unit :=
  hm <~ get_self ;;
  set_self (mk_HistoryManager (_history_stack hm) d (_max_history hm) (_current_state hm)).

Definition set_current_state (c : option ref) : M unit :=
  hm <~ get_self ;;
  set_self (mk_HistoryManager (_history_stack hm) (_redo_stack hm) (_max_history hm) c).

Module HM.

Definition default_max_history : Z := 20.

(** [__init__]: both deques get the bound [max_history]; the first
    deque construction that raises aborts the constructor. *)
Definition __init__ (max_history : Z) : result HistoryManager :=
  match Deque.new max_history with
  | Raise e => Raise e
  | Ok h =>
    match Deque.new max_history with
    | Raise e => Raise e
    | Ok r => Ok (mk_HistoryManager h r max_history None)
    end
  end.

Definition can_undo (hm : HistoryManager) : bool := 0 <? len (_history_stack hm).
Definition can_redo (hm : HistoryManager) : bool := 0 <? len (_redo_stack hm).
Definition history_count (hm : HistoryManager) : Z := len (_history_stack hm).

Definition add_state (image : ref) : M unit :=
  hm <~ get_self ;;
  match _current_state hm with
  | Some c =>
      c' <~ ndarray_copy c ;;
      set_history_stack (append c' (_history_stack hm))
  | None => ret tt
  end ;;;
  i <~ ndarray_copy image ;;
  set_current_state (Some i) ;;;
  hm <~ get_self ;;
  set_redo_stack (clear (_redo_stack hm)).

Definition undo : M (option ref) :=
  hm <~ get_self ;;
  if negb (can_undo hm) then ret None
  else
    match _current_state hm with
    | Some c =>
        c' <~ ndarray_copy c ;;
        set_redo_stack (append c' (_redo_stack hm))
    | None => ret tt
    end ;;;
    hm <~ get_self ;;
    pd <~ lift (pop (_history_stack hm)) ;;
    set_history_stack (snd pd) ;;;
    set_current_state (Some (fst pd)) ;;;
    r <~ ndarray_copy (fst pd) ;;
    ret (Some r).

Definition redo : M (option ref) :=
  hm <~ get_self ;;
  if negb (can_redo hm) then ret None
  else
    match _current_state hm with
    | Some c =>
        c' <~ ndarray_copy c ;;
        set_history_stack (append c' (_history_stack hm))
    | None => ret tt
    end ;;;
    hm <~ get_self ;;
    pd <~ lift (pop (_redo_stack hm)) ;;
    set_redo_stack (snd pd) ;;;
    set_current_state (Some (fst pd)) ;;;
    r <~ ndarray_copy (fst pd) ;;
    ret (Some r).

Definition clear_history : M unit :=
  hm <~ get_self ;;
  set_history_stack (clear (_history_stack hm)) ;;;
  hm <~ get_self ;;
  set_redo_stack (clear (_redo_stack hm)) ;;;
  set_current_state None.

Definition get_current_state : M (option ref) :=
  hm <~ get_self ;;
  match _current_state hm with
  | Some c => r <~ ndarray_copy c ;; ret (Some r)
  | None => ret None
  end.

Definition initialize_state (image : ref) : M unit :=
  clear_history ;;;
  i <~ ndarray_copy image ;;
  set_current_state (Some i).

(** [get_memory_usage]: the counts and the sizes in bytes; the source
    then divides each size by [1024 * 1024] into a float, which is left
    out here. *)
Record memory_usage : Type := mk_memory_usage {
  usage_history_count : nat;
  usage_redo_count : nat;
  usage_history_size : nat;
  usage_redo_size : nat;
  usage_current_size : nat;
  usage_total_size : nat
}.

Fixpoint sum_nbytes (h : heap) (l : list ref) : result nat :=
  match l with
  | [] => Ok 0%nat
  | r :: l' =>
    match h !! r, sum_nbytes h l' with
    | Some a, Ok n => Ok (nbytes a + n)%nat
    | None, _ => Raise BadReference
    | _, Raise e => Raise e
    end
  end.

Definition get_memory_usage : M memory_usage :=
  hm <~ get_self ;;
  fun w =>
    let h := objects w in
    match sum_nbytes h (items (_history_stack hm)),
          sum_nbytes h (items (_redo_stack hm)),
          sum_nbytes h (option_list (_current_state hm)) with
    | Ok hs, Ok rs, Ok cs =>
        Ok (mk_memory_usage (length (items (_history_stack hm)))
                            (length (items (_redo_stack hm)))
                            hs rs cs (hs + rs + cs), w)
    | Raise e, _, _ | _, Raise e, _ | _, _, Raise e => Raise e
    end.

End HM.
Import HM.

(** [initializeState] as the specification words it: [clearHistory()],
    then [current] is set to a deep copy of the image; nothing is pushed. *)
Definition spec_initializeState (image : ref) : M unit :=
  fun w =>
    match clear_history w with
    | Raise e => Raise e
    | Ok (_, w1) =>
      match objects w1 !! image with
      | None => Raise BadReference
      | Some x =>
          Ok (tt, mk_World (objects w1 ++ [x])
                    (mk_HistoryManager (_history_stack (self w1)) (_redo_stack (self w1))
                       (_max_history (self w1)) (Some (length (objects w1)))))
      end
    end.

(** ** Callers *)

(** A method call, without its result. *)
Inductive op : Type :=
  | AddState (image : ref)
  | Undo
  | Redo
  | ClearHistory
  | GetCurrentState
  | InitializeState (image : ref)
  | GetMemoryUsage.

Definition forget {A} (c : M A) : World -> result World :=
  fun w => match c w with Ok (_, w') => Ok w' | Raise e => Raise e end.

Definition exec (o : op) : World -> result World :=
  match o with
  | AddState image => forget (add_state image)
  | Undo => forget undo
  | Redo => forget redo
  | ClearHistory => forget clear_history
  | GetCurrentState => forget get_current_state
  | InitializeState image => forget (initialize_state image)
  | GetMemoryUsage => forget get_memory_usage
  end.

Fixpoint run (os : list op) (w : World) : result World :=
  match os with
  | [] => Ok w
  | o :: os' =>
    match exec o w with
    | Ok w' => run os' w'
    | Raise e => Raise e
    end
  end.

(** What the caller does on its own: create an array, or change one in
    place. *)
Definition client_new (a : ndarray) (w : World) : World :=
  mk_World (objects w ++ [a]) (self w).

Definition client_write (r : ref) (a : ndarray) (w : World) : World :=
  mk_World (<[r := a]> (objects w)) (self w).

(** The references the manager holds. *)
Definition owned (hm : HistoryManager) : list ref :=
  option_list (_current_state hm)
    ++ items (_history_stack hm) ++ items (_redo_stack hm).

(** The worlds a program can be in after constructing a manager with
    bound [m]: any method calls that returned, interleaved with the
    caller creating arrays and writing to arrays the manager does not
    hold. *)
Inductive reachable (m : Z) : World -> Prop :=
  | reach_init h hm :
      __init__ m = Ok hm -> reachable m (mk_World h hm)
  | reach_call o w w' :
      reachable m w -> exec o w = Ok w' -> reachable m w'
  | reach_new a w :
      reachable m w -> reachable m (client_new a w)
  | reach_write r a w :
      reachable m w -> r ∉ owned (self w) -> reachable m (client_write r a w).

(** ** Observations *)

Definition deref (w : World) (r : ref) : option ndarray := objects w !! r.

(** The contents of [current], of the undo stack and of the redo stack
    (oldest first). *)
Definition current_value (w : World) : option ndarray :=
  _current_state (self w) ≫= deref w.

Definition undo_values (w : World) : list (option ndarray) :=
  deref w <$> items (_history_stack (self w)).

Definition redo_values (w : World) : list (option ndarray) :=
  deref w <$> items (_redo_stack (self w)).

(** The last [n] entries of a list. *)
Definition last_n {A} (n : nat) (l : list A) : list A := drop (length l - n) l.

(** What a caller can see of a world. *)
Definition observe (w : World)
  : option ndarray * list (option ndarray) * list (option ndarray) :=
  (current_value w, undo_values w, redo_values w).

(** The contents of [current] as a list of zero or one entries. *)
Definition current_values (w : World) : list (option ndarray) :=
  deref w <$> option_list (_current_state (self w)).

(** The states a run of [add_state] calls leaves behind: the old
    [current], then every image but the last. *)
Definition superseded (w : World) (images : list ref) : list (option ndarray) :=
  removelast (current_values w ++ (deref w <$> images)).

(** ** Well-formed worlds *)

(** [valid h] holds of the references that name an object of [h]. *)
Definition valid (h : heap) (r : ref) : Prop := (r < length h)%nat.

Record inv (m : Z) (w : World) : Prop := mk_inv {
  inv_hmax : maxlen (_history_stack (self w)) = m;
  inv_rmax : maxlen (_redo_stack (self w)) = m;
  inv_max : _max_history (self w) = m;
  inv_pos : 0 <= m;
  inv_total : len (_history_stack (self w)) + len (_redo_stack (self w)) <= m;
  inv_cur : _current_state (self w) = None ->
            items (_history_stack (self w)) = [] /\ items (_redo_stack (self w)) = [];
  inv_refs : Forall (valid (objects w)) (owned (self w))
}.

(** The image handed to a method names an object. *)
Definition args_valid (o : op) (w : World) : Prop :=
  match o with
  | AddState image | InitializeState image => valid (objects w) image
  | _ => True
  end.

(** ** Example worlds *)

Definition imgA : ndarray := mk_ndarray (1, 1, 3)%nat 1 [10; 11; 12]%N.
Definition imgB : ndarray := mk_ndarray (1, 1, 3)%nat 1 [20; 21; 22]%N.
Definition imgC : ndarray := mk_ndarray (1, 1, 3)%nat 1 [30; 31; 32]%N.
Definition imgD : ndarray := mk_ndarray (1, 1, 3)%nat 1 [40; 41; 42]%N.

(** A manager just constructed with bound 2; the caller holds four
    images, at references 0 to 3. *)
Definition fresh2 : World :=
  mk_World [imgA; imgB; imgC; imgD]
    (mk_HistoryManager (mk_deque [] 2) (mk_deque [] 2) 2 None).

(** The same manager after three commits and one undo: [imgA] in the
    undo stack, [imgB] current, [imgC] in the redo stack. *)
Definition edited2 : World :=
  match run [AddState 0%nat; AddState 1%nat; AddState 2%nat; Undo] fresh2 with
  | Ok w => w
  | Raise _ => fresh2
  end.

(** [edited2] once its history is cleared: nothing to undo or redo. *)
Definition cleared2 : World :=
  match clear_history edited2 with
  | Ok (_, w) => w
  | Raise _ => edited2
  end.

(** The snapshots in the order they were committed: the undo stack, then
    [current], then the redo stack from its tail to its head. *)
Definition timeline (w : World) : list (option ndarray) :=
  undo_values w ++ current_values w ++ reverse (redo_values w).

(** [Undo] and [Redo]: the calls that commit nothing. *)
Definition is_move (o : op) : Prop := o = Undo \/ o = Redo.

(** The bytes held by a list of contents. *)
Definition bytes_of (vs : list (option ndarray)) : nat :=
  sum_list (from_option nbytes 0%nat <$> vs).

(** A manager constructed with bound 0, after two commits and an undo. *)
Definition zero0 : World :=
  match run [AddState 0%nat; AddState 1%nat; Undo]
          (mk_World [imgA; imgB]
             (mk_HistoryManager (mk_deque [] 0) (mk_deque [] 0) 0 None)) with
  | Ok w => w
  | Raise _ => fresh2
  end.

(** ** The image processor (image_processor.py) *)

Inductive RotationAngle : Type := ROTATE_90 | ROTATE_180 | ROTATE_270.

Inductive FlipDirection : Type := HORIZONTAL | VERTICAL | BOTH.

Record ImageMetadata : Type := mk_ImageMetadata {
  filename : string;
  width : Z;
  height : Z;
  channels : nat;
  dtype : string
}.

Record ImageProcessor : Type := mk_ImageProcessor {
  _current_image : option ref;
  _original_image : option ref;
  _metadata : option ImageMetadata;
  _blur_intensity : Z
}.

(** The calls into OpenCV that compute a new image from the current one,
    with the arguments the source passes ([F] stands for Python's
    floats).  Grayscale and edge detection convert to one channel and
    back to three; each is one call here. *)
Inductive cv2_call (F : Type) : Type :=
  | COLOR_BGR2RGB
  | GRAY_AND_BACK
  | GaussianBlur (ksize : Z)
  | CANNY_AND_BACK (low_threshold high_threshold : Z)
  | cv2_add (value : Z)
  | cv2_subtract (value : Z)
  | cv2_convertScaleAbs (alpha : F)
  | cv2_rotate (angle : RotationAngle)
  | cv2_flip (direction : FlipDirection)
  | cv2_resize (width height : Z).
Arguments COLOR_BGR2RGB {F}.
Arguments GRAY_AND_BACK {F}.
Arguments GaussianBlur {F} ksize.
Arguments CANNY_AND_BACK {F} low_threshold high_threshold.
Arguments cv2_add {F} value.
Arguments cv2_subtract {F} value.
Arguments cv2_convertScaleAbs {F} alpha.
Arguments cv2_rotate {F} angle.
Arguments cv2_flip {F} direction.
Arguments cv2_resize {F} width height.

(** What the source takes from outside, left uninterpreted.  Python's
    floats, as far as the source computes with them: the default
    contrast [1.0], the clamp [max(0.5, min(3.0, value))], and the size
    [resize_image] computes to keep the aspect ratio ([None] when that
    arithmetic raises).  OpenCV and NumPy: reading a file ([None] when it
    cannot be read), computing an image ([None] when the call raises),
    and printing an array's element type. *)
Class OpenCV : Type := {
  float : Type;
  default_contrast : float;
  clamp_contrast : float -> float;
  aspect_size : Z -> Z -> ndarray -> option (Z * Z);
  imread : string -> option ndarray;
  cv2 : cv2_call float -> ndarray -> option ndarray;
  dtype_str : ndarray -> string
}.

(** [apply_blur]: the kernel size is made odd and at least 1. *)
Definition blur_kernel (intensity : Z) : Z :=
  let intensity := if intensity mod 2 =? 0 then intensity + 1 else intensity in
  Z.max 1 intensity.

(** [adjust_brightness]: the value is clamped to [-100, 100]; a
    non-negative value is added, a negative one subtracted by its
    magnitude. *)
Definition clamp_brightness (value : Z) : Z := Z.max (-100) (Z.min 100 value).

Definition brightness_call {F : Type} (value : Z) : cv2_call F :=
  let value := clamp_brightness value in
  if 0 <=? value then cv2_add value else cv2_subtract (Z.abs value).

(** [filepath.split('/')]: the segments between slashes. *)
Definition slash : Ascii.ascii := Ascii.ascii_of_nat 47.

Fixpoint split_slash (s : string) : list string :=
  match s with
  | EmptyString => [EmptyString]
  | String c s' =>
    if bool_decide (c = slash) then EmptyString :: split_slash s'
    else match split_slash s' with
         | seg :: rest => String c seg :: rest
         | [] => [String c EmptyString]
         end
  end.

(** [filepath.split('/')[-1]] *)
Definition basename (filepath : string) : string :=
  default EmptyString (last (split_slash filepath)).

(** ['/'.join(segments)] *)
Fixpoint join_slash (l : list string) : string :=
  match l with
  | [] => EmptyString
  | [seg] => seg
  | seg :: rest => seg +:+ String slash (join_slash rest)
  end.

Fixpoint no_slash (s : string) : Prop :=
  match s with
  | EmptyString => True
  | String c s' => c <> slash /\ no_slash s'
  end.

(** [ControlPanel._apply_blur] (control_panel.py): the slider value is
    made odd before it is sent. *)
Definition _apply_blur_intensity (slider : Z) : Z :=
  if slider mod 2 =? 0 then slider + 1 else slider.

(** ** The window (main_window.py) *)

(** The state the edit actions read and write; widgets, dialogs and the
    canvas only show it. *)
Record App : Type := mk_App {
  app_objects : heap;
  history_manager : HistoryManager;
  image_processor : ImageProcessor;
  current_file_path : option string;
  is_modified : bool
}.

Definition MA (A : Type) : Type := App -> result (A * App).

Definition aret {A} (a : A) : MA A := fun app => Ok (a, app).

Definition abind {A B} (c : MA A) (k : A -> MA B) : MA B :=
  fun app => match c app with
             | Ok (a, app') => k a app'
             | Raise e => Raise e
             end.

Notation "x <~~ c ;; k" := (abind c (fun x => k))
  (at level 100, c at next level, right associativity).
Notation "c ;;;; k" := (abind c (fun _ => k))
  (at level 100, right associativity).

(** The manager's view of the application. *)
Definition history_world (app : App) : World :=
  mk_World (app_objects app) (history_manager app).

(** A call of a [HistoryManager] method from the window. *)
Definition on_history {A} (c : M A) : MA A :=
  fun app =>
    match c (history_world app) with
    | Ok (a, w) =>
        Ok (a, mk_App (objects w) (self w) (image_processor app)
                 (current_file_path app) (is_modified app))
    | Raise e => Raise e
    end.

Definition get_processor : MA ImageProcessor := fun app => Ok (image_processor app, app).

Definition set_processor (ip : ImageProcessor) : MA unit :=
  fun app => Ok (tt, mk_App (app_objects app) (history_manager app) ip
                       (current_file_path app) (is_modified app)).

Definition set_is_modified (b : bool) : MA unit :=
  fun app => Ok (tt, mk_App (app_objects app) (history_manager app) (image_processor app)
                       (current_file_path app) b).

Definition set_current_file_path (f : option string) : MA unit :=
  fun app => Ok (tt, mk_App (app_objects app) (history_manager app) (image_processor app)
                       f (is_modified app)).

(** A new array object. *)
Definition new_array (a : ndarray) : MA ref :=
  fun app => Ok (length (app_objects app),
                 mk_App (app_objects app ++ [a]) (history_manager app) (image_processor app)
                   (current_file_path app) (is_modified app)).

Definition read_array (r : ref) : MA ndarray :=
  fun app => match app_objects app !! r with
             | Some a => Ok (a, app)
             | None => Raise BadReference
             end.

Definition copy_array (r : ref) : MA ref :=
  a <~~ read_array r ;; new_array a.

Definition set_current_image (c : option ref) : MA unit :=
  ip <~~ get_processor ;;
  set_processor (mk_ImageProcessor c (_original_image ip) (_metadata ip) (_blur_intensity ip)).

Definition set_metadata (md : option ImageMetadata) : MA unit :=
  ip <~~ get_processor ;;
  set_processor (mk_ImageProcessor (_current_image ip) (_original_image ip) md
                   (_blur_intensity ip)).

Module IP.

Definition __init__ : ImageProcessor := mk_ImageProcessor None None None 5.

Definition has_image (ip : ImageProcessor) : bool :=
  match _current_image ip with Some _ => true | None => false end.

Definition get_image_copy : MA (option ref) :=
  ip <~~ get_processor ;;
  match _current_image ip with
  | Some c => r <~~ copy_array c ;; aret (Some r)
  | None => aret None
  end.

(** [set_image]: keep a copy, and bring the metadata's dimensions up to
    date when there is metadata. *)
Definition set_image (image : ref) : MA unit :=
  a <~~ read_array image ;;
  c <~~ new_array a ;;
  set_current_image (Some c) ;;;;
  ip <~~ get_processor ;;
  match _metadata ip with
  | Some md =>
      let '(h, w, ch) := shape a in
      set_metadata
        (Some (mk_ImageMetadata (filename md) (Z.of_nat w) (Z.of_nat h) ch (dtype md)))
  | None => aret tt
  end.

Definition reset_image : MA bool :=
  ip <~~ get_processor ;;
  match _original_image ip with
  | Some o => c <~~ copy_array o ;; set_current_image (Some c) ;;;; aret true
  | None => aret false
  end.

(** The body of a filter's [try]: the current image is replaced by what
    OpenCV returns; when OpenCV raises nothing is assigned and the filter
    returns [False]. *)
Definition replace_current `{OpenCV} (call : cv2_call float) : MA bool :=
  ip <~~ get_processor ;;
  match _current_image ip with
  | Some c =>
      a <~~ read_array c ;;
      match cv2 call a with
      | Some a' => c' <~~ new_array a' ;; set_current_image (Some c') ;;;; aret true
      | None => aret false
      end
  | None => aret false
  end.

Definition apply_grayscale `{OpenCV} : MA bool :=
  ip <~~ get_processor ;;
  if negb (has_image ip) then aret false else replace_current GRAY_AND_BACK.

Definition apply_blur `{OpenCV} (intensity : option Z) : MA bool :=
  ip <~~ get_processor ;;
  if negb (has_image ip) then aret false
  else
    i <~~ match intensity with
          | None => aret (_blur_intensity ip)
          | Some i =>
              set_processor (mk_ImageProcessor (_current_image ip) (_original_image ip)
                               (_metadata ip) i) ;;;;
              aret i
          end ;;
    replace_current (GaussianBlur (blur_kernel i)).

Definition apply_edge_detection `{OpenCV} (low_threshold high_threshold : Z) : MA bool :=
  ip <~~ get_processor ;;
  if negb (has_image ip) then aret false
  else replace_current (CANNY_AND_BACK low_threshold high_threshold).

Definition adjust_brightness `{OpenCV} (value : Z) : MA bool :=
  ip <~~ get_processor ;;
  if negb (has_image ip) then aret false
  else replace_current (brightness_call value).

Definition rotate_image `{OpenCV} (angle : RotationAngle) : MA bool :=
  ip <~~ get_processor ;;
  if negb (has_image ip) then aret false
  else
    ok <~~ replace_current (cv2_rotate angle) ;;
    if ok then
      ip <~~ get_processor ;;
      match _metadata ip, _current_image ip with
      | Some md, Some c =>
          a <~~ read_array c ;;
          let '(h, w, _) := shape a in
          set_metadata
            (Some (mk_ImageMetadata (filename md) (Z.of_nat w) (Z.of_nat h) (channels md)
                     (dtype md))) ;;;;
          aret true
      | _, _ => aret true
      end
    else aret false.

Definition flip_image `{OpenCV} (direction : FlipDirection) : MA bool :=
  ip <~~ get_processor ;;
  if negb (has_image ip) then aret false
  else replace_current (cv2_flip direction).

Definition adjust_contrast `{OpenCV} (value : float) : MA bool :=
  ip <~~ get_processor ;;
  if negb (has_image ip) then aret false
  else replace_current (cv2_convertScaleAbs (clamp_contrast value)).

(** The size [resize_image] asks OpenCV for. *)
Definition resize_size `{OpenCV} (width height : Z) (maintain_aspect : bool) (a : ndarray)
  : option (Z * Z) :=
  if maintain_aspect then aspect_size width height a else Some (width, height).

Definition resize_image `{OpenCV} (width height : Z) (maintain_aspect : bool) : MA bool :=
  ip <~~ get_processor ;;
  match _current_image ip with
  | None => aret false
  | Some c =>
      a <~~ read_array c ;;
      match resize_size width height maintain_aspect a with
      | None => aret false
      | Some (w, h) =>
          ok <~~ replace_current (cv2_resize w h) ;;
          if ok then
            ip <~~ get_processor ;;
            match _metadata ip with
            | Some md =>
                set_metadata
                  (Some (mk_ImageMetadata (filename md) w h (channels md) (dtype md))) ;;;;
                aret true
            | None => aret true
            end
          else aret false
      end
  end.

(** [load_image]: the file is read and converted; two copies are kept,
    one to work on and one to reset to. *)
Definition load_image `{OpenCV} (filepath : string) : MA bool :=
  match imread filepath with
  | None => aret false
  | Some raw =>
      _r <~~ new_array raw ;;
      match cv2 COLOR_BGR2RGB raw with
      | None => aret false
      | Some image =>
          i <~~ new_array image ;;
          o <~~ copy_array i ;;
          c <~~ copy_array i ;;
          ip <~~ get_processor ;;
          let '(h, w, ch) := shape image in
          set_processor
            (mk_ImageProcessor (Some c) (Some o)
               (Some (mk_ImageMetadata (basename filepath) (Z.of_nat w) (Z.of_nat h) ch
                        (dtype_str image)))
               (_blur_intensity ip)) ;;;;
          aret true
      end
  end.

End IP.

(** What [apply_filter] can be asked for: the filter names the source
    compares against, with their keyword arguments ([None] when the
    keyword is not given), and any other name. *)
Inductive filter_request (F : Type) : Type :=
  | Grayscale
  | Blur (intensity : option Z)
  | EdgeDetection
  | Brightness (value : option Z)
  | Contrast (value : option F)
  | Rotate90
  | Rotate180
  | Rotate270
  | FlipHorizontal
  | FlipVertical
  | Resize (width height : option Z) (maintain_aspect : option bool)
  | OtherName.
Arguments Grayscale {F}.
Arguments Blur {F} intensity.
Arguments EdgeDetection {F}.
Arguments Brightness {F} value.
Arguments Contrast {F} value.
Arguments Rotate90 {F}.
Arguments Rotate180 {F}.
Arguments Rotate270 {F}.
Arguments FlipHorizontal {F}.
Arguments FlipVertical {F}.
Arguments Resize {F} width height maintain_aspect.
Arguments OtherName {F}.

(** Each method below is the method's state updates, in the order the
    source makes them: its calls to the history manager and the image
    processor and its assignments to [current_file_path] and
    [is_modified].  The calls into Tk and PIL ([_update_image_display],
    [_update_status], the message boxes, the control panel) are left out;
    in every method they come after the last state update.  They stand
    outside any [try] and can raise, so [Ok] here says that the state
    updates complete and what state they leave, not that the method
    returns. *)
Module Window.

Definition __init__ (h : heap) : result App :=
  match HM.__init__ default_max_history with
  | Ok hm => Ok (mk_App h hm IP.__init__ None false)
  | Raise e => Raise e
  end.

Definition _save_state_to_history : MA unit :=
  ip <~~ get_processor ;;
  match _current_image ip with
  | Some c => r <~~ copy_array c ;; on_history (add_state r)
  | None => aret tt
  end.

(** [_undo_action] up to its display refresh: [undo], then [set_image]
    with what it returned. *)
Definition _undo_action : MA unit :=
  fun app =>
    if can_undo (history_manager app) then
      (image <~~ on_history undo ;;
       match image with
       | Some r => IP.set_image r
       | None => aret tt
       end) app
    else Ok (tt, app).

(** [_redo_action] up to its display refresh. *)
Definition _redo_action : MA unit :=
  fun app =>
    if can_redo (history_manager app) then
      (image <~~ on_history redo ;;
       match image with
       | Some r => IP.set_image r
       | None => aret tt
       end) app
    else Ok (tt, app).

(** The processor call [apply_filter] makes for a request. *)
Definition dispatch `{OpenCV} (req : filter_request float) : MA bool :=
  match req with
  | Grayscale => IP.apply_grayscale
  | Blur intensity => IP.apply_blur (Some (default 5 intensity))
  | EdgeDetection => IP.apply_edge_detection 50 150
  | Brightness value => IP.adjust_brightness (default 0 value)
  | Contrast value => IP.adjust_contrast (default default_contrast value)
  | Resize width height maintain_aspect =>
      IP.resize_image (default 800 width) (default 600 height) (default true maintain_aspect)
  | Rotate90 => IP.rotate_image ROTATE_90
  | Rotate180 => IP.rotate_image ROTATE_180
  | Rotate270 => IP.rotate_image ROTATE_270
  | FlipHorizontal => IP.flip_image HORIZONTAL
  | FlipVertical => IP.flip_image VERTICAL
  | OtherName => aret false
  end.

(** [apply_filter] without its message boxes and, on success, up to its
    display refresh. *)
Definition apply_filter `{OpenCV} (req : filter_request float) : MA unit :=
  ip <~~ get_processor ;;
  if negb (IP.has_image ip) then aret tt
  else
    _save_state_to_history ;;;;
    success <~~ dispatch req ;;
    if success then set_is_modified true
    else (_ignored <~~ on_history undo ;; aret tt).

(** [_reset_image], given the answer to its confirmation dialog, up to
    its display refresh. *)
Definition _reset_image (response : bool) : MA unit :=
  ip <~~ get_processor ;;
  if IP.has_image ip then
    if response then
      _save_state_to_history ;;;;
      _shown <~~ IP.reset_image ;; aret tt
    else aret tt
  else aret tt.

(** [_open_image], given the path the file dialog returned (empty when
    the dialog was cancelled), up to its display refresh and without the
    error box. *)
Definition _open_image `{OpenCV} (file_path : string) : MA unit :=
  if bool_decide (file_path = EmptyString) then aret tt
  else
    loaded <~~ IP.load_image file_path ;;
    if loaded then
      set_current_file_path (Some file_path) ;;;;
      set_is_modified false ;;;;
      image <~~ IP.get_image_copy ;;
      match image with
      | Some r => on_history (initialize_state r)
      | None => fun _ => Raise BadReference
      end
    else aret tt.

End Window.

(** The contents of the image the processor works on. *)
Definition shown (app : App) : option ndarray :=
  _current_image (image_processor app) ≫= fun c => app_objects app !! c.

(** The arrays the processor holds. *)
Definition processor_refs (ip : ImageProcessor) : list ref :=
  option_list (_current_image ip) ++ option_list (_original_image ip).

(** What the user can do. *)
Inductive action `{OpenCV} : Type :=
  | OpenImage (file_path : string)
  | UndoAction
  | RedoAction
  | ApplyFilter (req : filter_request float)
  | ResetImage (response : bool).

(** The state updates an action makes. *)
Definition state_updates `{OpenCV} (a : action) : MA unit :=
  match a with
  | OpenImage file_path => Window._open_image file_path
  | UndoAction => Window._undo_action
  | RedoAction => Window._redo_action
  | ApplyFilter req => Window.apply_filter req
  | ResetImage response => Window._reset_image response
  end.

(** The states of a running application: those left by the state
    updates of any sequence of actions.  A display refresh that raises
    comes after them and changes none of this state. *)
Inductive app_reachable `{OpenCV} : App -> Prop :=
  | app_init h app :
      Window.__init__ h = Ok app -> app_reachable app
  | app_step a app app' :
      app_reachable app -> state_updates a app = Ok (tt, app') -> app_reachable app'.

(** The manager is in a reachable state for the default bound; the
    processor's arrays exist and are none of the manager's; and when the
    processor has an image the manager has a current state. *)
Record app_ok (app : App) : Prop := mk_app_ok {
  ok_history : reachable default_max_history (history_world app);
  ok_refs : Forall (valid (app_objects app)) (processor_refs (image_processor app));
  ok_apart : Forall (fun r => r ∉ owned (history_manager app))
               (processor_refs (image_processor app));
  ok_loaded : IP.has_image (image_processor app) = true ->
              is_Some (_current_state (history_manager app))
}.

(** An OpenCV for the examples: one readable file; grayscale clears the
    pixels, blurring raises, resizing gives a black image of the size
    asked for, every other call copies. *)
Definition toy_cv2 : OpenCV := {|
  float := Z;
  default_contrast := 1;
  clamp_contrast := fun v => v;
  aspect_size := fun w h _ => Some (w, h);
  imread := fun path => if bool_decide (path = "a.png") then Some imgA else None;
  cv2 := fun call a =>
    match call with
    | GRAY_AND_BACK => Some (mk_ndarray (shape a) (itemsize a) (fmap (fun _ => 0%N) (data a)))
    | GaussianBlur _ => None
    | cv2_resize w h =>
        Some (mk_ndarray (Z.to_nat h, Z.to_nat w, snd (shape a)) (itemsize a)
                (replicate (Z.to_nat h * Z.to_nat w * snd (shape a)) 0%N))
    | _ => Some a
    end;
  dtype_str := fun _ => "uint8"
|}.

(** The application after opening the readable file. *)
Definition opened : App :=
  match Window.__init__ [] with
  | Ok app0 =>
      match @Window._open_image toy_cv2 "a.png" app0 with
      | Ok (_, app) => app
      | Raise _ => app0
      end
  | Raise _ => mk_App [] (self fresh2) IP.__init__ None false
  end.

(** That application after a grayscale filter. *)
Definition filtered : App :=
  match @Window.apply_filter toy_cv2 Grayscale opened with
  | Ok (_, app) => app
  | Raise _ => opened
  end.

(** The application after opening the file and resizing to 2 by 1. *)
Definition resized : App :=
  match @Window.apply_filter toy_cv2 (Resize (Some 2) (Some 1) (Some false)) opened with
  | Ok (_, app) => app
  | Raise _ => opened
  end.

(** [keeps h h']: every object of [h] is still there, unchanged, in [h']. *)
Definition keeps (h h' : heap) : Prop :=
  forall r, valid h r -> h' !! r = h !! r.

(** The OpenCV call a request leads to when the image shown is [a]
    ([None] for a name [apply_filter] does not know, and for a resize
    whose size cannot be computed). *)
Definition request_call `{OpenCV} (req : filter_request float) (a : ndarray)
  : option (cv2_call float) :=
  match req with
  | Grayscale => Some GRAY_AND_BACK
  | Blur intensity => Some (GaussianBlur (blur_kernel (default 5 intensity)))
  | EdgeDetection => Some (CANNY_AND_BACK 50 150)
  | Brightness value => Some (brightness_call (default 0 value))
  | Contrast value =>
      Some (cv2_convertScaleAbs (clamp_contrast (default default_contrast value)))
  | Resize width height maintain_aspect =>
      match IP.resize_size (default 800 width) (default 600 height)
              (default true maintain_aspect) a with
      | Some (w, h) => Some (cv2_resize w h)
      | None => None
      end
  | Rotate90 => Some (cv2_rotate ROTATE_90)
  | Rotate180 => Some (cv2_rotate ROTATE_180)
  | Rotate270 => Some (cv2_rotate ROTATE_270)
  | FlipHorizontal => Some (cv2_flip HORIZONTAL)
  | FlipVertical => Some (cv2_flip VERTICAL)
  | OtherName => None
  end.

(** The contents of the image [reset_image] goes back to. *)
Definition original (app : App) : option ndarray :=
  _original_image (image_processor app) ≫= fun o => app_objects app !! o.

(** * Proofs *)

(** ** Heap and list facts *)

Section Lists.
Context {A : Type}.
Implicit Types l k : list A.

Lemma last_n_all n l : (length l <= n)%nat -> last_n n l = l.
Proof.
  intros H. unfold last_n.
  replace (length l - n)%nat with 0%nat by lia. reflexivity.
Qed.

Lemma last_n_length n l : length (last_n n l) = Nat.min n (length l).
Proof. unfold last_n. rewrite length_drop. lia. Qed.

Lemma last_n_app_long n l k : (n <= length k)%nat -> last_n n (l ++ k) = last_n n k.
Proof.
  intros H. unfold last_n. rewrite length_app.
  rewrite drop_app.
  replace (length l + length k - n - length l)%nat with (length k - n)%nat by lia.
  rewrite drop_ge by lia. reflexivity.
Qed.

Lemma last_n_last_n_app n l k : last_n n (last_n n l ++ k) = last_n n (l ++ k).
Proof.
  unfold last_n. rewrite !length_app, length_drop, !drop_app, length_drop, drop_drop.
  destruct (decide (length l <= n)%nat).
  - replace (length l - n)%nat with 0%nat by lia. rewrite !Nat.add_0_l, Nat.sub_0_r.
    reflexivity.
  - f_equal; [f_equal; lia | f_equal; lia].
Qed.

Lemma drop_1_snoc_last_n n l x :
  (length l <= n)%nat ->
  (if (Z.of_nat n <? Z.of_nat (length (l ++ [x])))%Z then drop 1 (l ++ [x]) else l ++ [x])
  = last_n n (l ++ [x]).
Proof.
  intros H. rewrite length_app. cbn [length].
  destruct (Z.ltb_spec (Z.of_nat n) (Z.of_nat (length l + 1))).
  - unfold last_n. rewrite length_app. cbn [length]. f_equal. lia.
  - rewrite last_n_all; [reflexivity | rewrite length_app; cbn [length]; lia].
Qed.

Lemma snoc_cases l : l = [] \/ exists k x, l = k ++ [x].
Proof.
  induction l as [|y l IH] using rev_ind; [left | right]; eauto.
Qed.

End Lists.

Lemma lookup_grow (h e : heap) (r : ref) :
  (r < length h)%nat -> (h ++ e) !! r = h !! r.
Proof. intros H. apply lookup_app_l. exact H. Qed.

Lemma lookup_valid (h : heap) (r : ref) :
  (r < length h)%nat -> exists a, h !! r = Some a.
Proof. intros H. apply lookup_lt_is_Some_2 in H. destruct H as [a Ha]. eauto. Qed.

(** ** The deque *)

Lemma new_ok n d : Deque.new n = Ok d -> d = mk_deque [] n /\ 0 <= n <= PY_SSIZE_T_MAX.
Proof.
  unfold Deque.new.
  destruct (Z.ltb_spec n (- PY_SSIZE_T_MAX - 1)); cbn [orb]; [discriminate |].
  destruct (Z.ltb_spec PY_SSIZE_T_MAX n); [discriminate |].
  destruct (Z.ltb_spec n 0); [discriminate |].
  intros [= <-]. split; [reflexivity | lia].
Qed.

Lemma maxlen_append x d : maxlen (append x d) = maxlen d.
Proof. unfold append. destruct (_ <? _); reflexivity. Qed.

Lemma append_fits x d :
  len d < maxlen d -> append x d = mk_deque (items d ++ [x]) (maxlen d).
Proof.
  unfold append, len. intros H. rewrite length_app. cbn [length].
  destruct (Z.ltb_spec (maxlen d) (Z.of_nat (length (items d) + 1))); [lia | reflexivity].
Qed.

Lemma items_append x d :
  0 <= maxlen d -> len d <= maxlen d ->
  items (append x d) = last_n (Z.to_nat (maxlen d)) (items d ++ [x]).
Proof.
  unfold len. intros H0 H.
  rewrite <- drop_1_snoc_last_n by lia.
  unfold append. rewrite Z2Nat.id by lia.
  destruct (_ <? _); reflexivity.
Qed.

Lemma len_append_le x d :
  0 <= maxlen d -> len d <= maxlen d -> len (append x d) <= maxlen d.
Proof.
  intros H0 H. unfold len in *. rewrite items_append by assumption.
  rewrite last_n_length. lia.
Qed.

Lemma items_append_incl x d r :
  r ∈ items (append x d) -> r ∈ items d \/ r = x.
Proof.
  unfold append. intros H.
  assert (r ∈ items d ++ [x]) as H'.
  { destruct (_ <? _); cbn [items] in H; [| exact H].
    exact (subseteq_drop 1 _ _ H). }
  apply elem_of_app in H'. destruct H' as [H' | H']; [left; exact H' |].
  right. apply list_elem_of_singleton in H'. exact H'.
Qed.

Lemma pop_snoc l x m : pop (mk_deque (l ++ [x]) m) = Ok (x, mk_deque l m).
Proof. unfold pop. cbn [items maxlen]. rewrite last_snoc, removelast_last. reflexivity. Qed.

Lemma pop_nil m : pop (mk_deque [] m) = Raise IndexError.
Proof. reflexivity. Qed.

(** ** What each method computes *)

Lemma can_undo_true hm : can_undo hm = true <-> items (_history_stack hm) <> [].
Proof.
  unfold can_undo, len. destruct (items (_history_stack hm)); cbn.
  - split; [discriminate | congruence].
  - split; [discriminate | reflexivity].
Qed.

Lemma can_undo_false hm : can_undo hm = false <-> items (_history_stack hm) = [].
Proof.
  unfold can_undo, len. destruct (items (_history_stack hm)); cbn.
  - split; reflexivity.
  - split; discriminate.
Qed.

Lemma can_redo_true hm : can_redo hm = true <-> items (_redo_stack hm) <> [].
Proof.
  unfold can_redo, len. destruct (items (_redo_stack hm)); cbn.
  - split; [discriminate | congruence].
  - split; [discriminate | reflexivity].
Qed.

Lemma can_redo_false hm : can_redo hm = false <-> items (_redo_stack hm) = [].
Proof.
  unfold can_redo, len. destruct (items (_redo_stack hm)); cbn.
  - split; reflexivity.
  - split; discriminate.
Qed.

Ltac fields :=
  cbn [objects self _history_stack _redo_stack _max_history _current_state
       items maxlen fst snd negb].

Ltac run_method :=
  unfold initialize_state, add_state, undo, redo, clear_history, get_current_state,
    set_history_stack, set_redo_stack, set_current_state, ndarray_copy,
    bind, ret, get_self, set_self, lift;
  fields.

Section Equations.
Variables (h : heap) (hs rs : deque) (mh : Z).

Lemma add_state_first image x :
  h !! image = Some x ->
  add_state image (mk_World h (mk_HistoryManager hs rs mh None))
  = Ok (tt, mk_World (h ++ [x])
              (mk_HistoryManager hs (clear rs) mh (Some (length h)))).
Proof. intros Hx. run_method. rewrite Hx. reflexivity. Qed.

Lemma add_state_next_gen image x c a :
  (h ++ [a]) !! image = Some x -> h !! c = Some a ->
  add_state image (mk_World h (mk_HistoryManager hs rs mh (Some c)))
  = Ok (tt, mk_World (h ++ [a; x])
              (mk_HistoryManager (append (length h) hs) (clear rs) mh
                 (Some (S (length h))))).
Proof.
  intros Hx Ha. run_method. rewrite Ha. fields. rewrite Hx.
  rewrite length_app, <- app_assoc. cbn [length app].
  rewrite Nat.add_1_r. reflexivity.
Qed.

Lemma add_state_next image x c a :
  h !! image = Some x -> h !! c = Some a ->
  add_state image (mk_World h (mk_HistoryManager hs rs mh (Some c)))
  = Ok (tt, mk_World (h ++ [a; x])
              (mk_HistoryManager (append (length h) hs) (clear rs) mh
                 (Some (S (length h))))).
Proof.
  intros Hx Ha. apply add_state_next_gen; [| exact Ha].
  rewrite lookup_grow by (eapply lookup_lt_Some; exact Hx). exact Hx.
Qed.

Lemma undo_empty w : can_undo (self w) = false -> undo w = Ok (None, w).
Proof. intros H. run_method. rewrite H. reflexivity. Qed.

Lemma redo_empty w : can_redo (self w) = false -> redo w = Ok (None, w).
Proof. intros H. run_method. rewrite H. reflexivity. Qed.

Lemma undo_step hl p mx c a b :
  h !! c = Some a -> h !! p = Some b ->
  undo (mk_World h (mk_HistoryManager (mk_deque (hl ++ [p]) mx) rs mh (Some c)))
  = Ok (Some (S (length h)),
        mk_World (h ++ [a; b])
          (mk_HistoryManager (mk_deque hl mx) (append (length h) rs) mh (Some p))).
Proof.
  intros Ha Hb. run_method.
  rewrite (proj2 (can_undo_true _)) by (cbn; intros E; destruct hl; discriminate E).
  fields. rewrite Ha.
  fields.
  rewrite pop_snoc. fields.
  rewrite lookup_grow by (eapply lookup_lt_Some; exact Hb). rewrite Hb.
  rewrite length_app, <- app_assoc. cbn [length app].
  rewrite Nat.add_1_r. reflexivity.
Qed.

Lemma redo_step rl p mx c a b :
  h !! c = Some a -> h !! p = Some b ->
  redo (mk_World h (mk_HistoryManager hs (mk_deque (rl ++ [p]) mx) mh (Some c)))
  = Ok (Some (S (length h)),
        mk_World (h ++ [a; b])
          (mk_HistoryManager (append (length h) hs) (mk_deque rl mx) mh (Some p))).
Proof.
  intros Ha Hb. run_method.
  rewrite (proj2 (can_redo_true _)) by (cbn; intros E; destruct rl; discriminate E).
  fields. rewrite Ha.
  fields.
  rewrite pop_snoc. fields.
  rewrite lookup_grow by (eapply lookup_lt_Some; exact Hb). rewrite Hb.
  rewrite length_app, <- app_assoc. cbn [length app].
  rewrite Nat.add_1_r. reflexivity.
Qed.

Lemma clear_history_eq cur :
  clear_history (mk_World h (mk_HistoryManager hs rs mh cur))
  = Ok (tt, mk_World h (mk_HistoryManager (clear hs) (clear rs) mh None)).
Proof. reflexivity. Qed.

Lemma initialize_state_eq cur image x :
  h !! image = Some x ->
  initialize_state image (mk_World h (mk_HistoryManager hs rs mh cur))
  = Ok (tt, mk_World (h ++ [x])
              (mk_HistoryManager (clear hs) (clear rs) mh (Some (length h)))).
Proof. intros Hx. run_method. rewrite Hx. reflexivity. Qed.

Lemma get_current_state_some c a :
  h !! c = Some a ->
  get_current_state (mk_World h (mk_HistoryManager hs rs mh (Some c)))
  = Ok (Some (length h), mk_World (h ++ [a]) (mk_HistoryManager hs rs mh (Some c))).
Proof. intros Ha. run_method. rewrite Ha. reflexivity. Qed.

Lemma get_current_state_none :
  get_current_state (mk_World h (mk_HistoryManager hs rs mh None))
  = Ok (None, mk_World h (mk_HistoryManager hs rs mh None)).
Proof. reflexivity. Qed.

End Equations.

(** ** The invariant of reachable worlds *)

Lemma valid_grow h e r : valid h r -> valid (h ++ e) r.
Proof. unfold valid. rewrite length_app. lia. Qed.

Lemma Forall_valid_grow h e l : Forall (valid h) l -> Forall (valid (h ++ e)) l.
Proof.
  intros H. eapply Forall_impl; [exact H |]. intros r. apply valid_grow.
Qed.

Lemma valid_fresh h e : e <> [] -> valid (h ++ e) (length h).
Proof. unfold valid. rewrite length_app. destruct e; [congruence | cbn; lia]. Qed.

Lemma Forall_items_append (P : ref -> Prop) x d :
  P x -> Forall P (items d) -> Forall P (items (append x d)).
Proof.
  intros Hx Hd. apply Forall_forall. intros r Hr.
  apply items_append_incl in Hr. destruct Hr as [Hr | ->]; [| exact Hx].
  rewrite Forall_forall in Hd. apply Hd, Hr.
Qed.

Lemma len_nonneg d : 0 <= len d.
Proof. unfold len. lia. Qed.

Lemma len_snoc l x m : len (mk_deque (l ++ [x]) m) = len (mk_deque l m) + 1.
Proof. unfold len. cbn [items]. rewrite length_app. cbn [length]. lia. Qed.

Lemma init_ok m hm :
  __init__ m = Ok hm ->
  hm = mk_HistoryManager (mk_deque [] m) (mk_deque [] m) m None /\ 0 <= m <= PY_SSIZE_T_MAX.
Proof.
  unfold __init__. destruct (Deque.new m) as [d|e] eqn:E; [| discriminate].
  apply new_ok in E. destruct E as [-> Hm]. intros [= <-]. split; [reflexivity | exact Hm].
Qed.

Lemma inv_init m hm h : __init__ m = Ok hm -> inv m (mk_World h hm).
Proof.
  intros H. apply init_ok in H. destruct H as [-> Hm].
  split; cbn; try reflexivity; try lia; auto.
  unfold len. cbn. lia.
Qed.

(** In a world that satisfies the invariant, [current] names an object. *)
Lemma inv_current m w c :
  inv m w -> _current_state (self w) = Some c -> exists a, objects w !! c = Some a.
Proof.
  intros I E. apply lookup_valid.
  pose proof (inv_refs _ _ I) as R. unfold owned in R. rewrite E in R.
  cbn in R. apply Forall_cons in R. apply R.
Qed.

Section Preservation.
Variable m : Z.

Lemma inv_add_state image w u w' :
  inv m w -> add_state image w = Ok (u, w') -> inv m w'.
Proof.
  intros I. destruct w as [h [hs rs mh [c|]]].
  - destruct (inv_current _ _ _ I eq_refl) as [a Ha]. cbn in Ha.
    destruct ((h ++ [a]) !! image) as [x|] eqn:Hx.
    2: { run_method. rewrite Ha. fields. rewrite Hx. discriminate. }
    rewrite (add_state_next_gen _ _ _ _ _ _ _ _ Hx Ha). intros [= <- <-].
    destruct I as [I1 I2 I3 I4 I5 I6 I7]. cbn in *.
    pose proof (len_nonneg rs).
    split; cbn; rewrite ?maxlen_append; try assumption.
    + pose proof (len_append_le (length h) hs). unfold len in *. cbn. lia.
    + discriminate.
    + unfold owned in *. cbn in *. rewrite app_nil_r.
      apply Forall_cons in I7. destruct I7 as [_ I7]. apply Forall_app in I7.
      apply Forall_cons. split.
      * unfold valid. rewrite length_app. cbn. lia.
      * apply Forall_items_append.
        -- apply valid_fresh. discriminate.
        -- apply Forall_valid_grow, I7.
  - destruct (h !! image) as [x|] eqn:Hx.
    2: { run_method. rewrite Hx. discriminate. }
    rewrite (add_state_first _ _ _ _ _ _ Hx). intros [= <- <-].
    destruct I as [I1 I2 I3 I4 I5 I6 I7]. cbn in *.
    destruct (I6 eq_refl) as [E1 E2].
    split; cbn; try assumption.
    + unfold len in *. cbn. rewrite E1. cbn. lia.
    + discriminate.
    + unfold owned. cbn. rewrite E1. cbn.
      apply Forall_cons. split; [| apply Forall_nil_2].
      apply valid_fresh. discriminate.
Qed.

Lemma inv_undo w r w' : inv m w -> undo w = Ok (r, w') -> inv m w'.
Proof.
  intros I. destruct w as [h [[hl mx] rs mh cur]].
  destruct (snoc_cases hl) as [-> | (hl' & p & ->)].
  { rewrite undo_empty by reflexivity. intros [= <- <-]. exact I. }
  destruct cur as [c|].
  2: { destruct (inv_cur _ _ I eq_refl) as [E _]. cbn in E. destruct hl'; discriminate E. }
  destruct (inv_current _ _ _ I eq_refl) as [a Ha]. cbn in Ha.
  destruct I as [I1 I2 I3 I4 I5 I6 I7].
  cbn in I1, I2, I3, I5, I6, I7.
  unfold owned in I7. cbn in I7.
  apply Forall_cons in I7. destruct I7 as [Vc I7].
  apply Forall_app in I7. destruct I7 as [Vh Vr].
  apply Forall_app in Vh. destruct Vh as [Vh Vp].
  rewrite Forall_singleton in Vp.
  destruct (lookup_valid _ _ Vp) as [b Hb].
  rewrite (undo_step _ _ _ _ _ _ _ _ _ Ha Hb). intros [= <- <-].
  rewrite len_snoc in I5. pose proof (len_nonneg (mk_deque hl' mx)).
  rewrite append_fits by lia.
  split; cbn; try assumption.
  - unfold len in *. cbn in *. rewrite length_app. cbn. lia.
  - discriminate.
  - unfold owned. cbn.
    apply Forall_cons. split; [apply valid_grow, Vp |].
    apply Forall_app. split; [apply Forall_valid_grow, Vh |].
    apply Forall_app. split; [apply Forall_valid_grow, Vr |].
    apply Forall_singleton, valid_fresh. discriminate.
Qed.

Lemma inv_redo w r w' : inv m w -> redo w = Ok (r, w') -> inv m w'.
Proof.
  intros I. destruct w as [h [hs [rl mx] mh cur]].
  destruct (snoc_cases rl) as [-> | (rl' & p & ->)].
  { rewrite redo_empty by reflexivity. intros [= <- <-]. exact I. }
  destruct cur as [c|].
  2: { destruct (inv_cur _ _ I eq_refl) as [_ E]. cbn in E. destruct rl'; discriminate E. }
  destruct (inv_current _ _ _ I eq_refl) as [a Ha]. cbn in Ha.
  destruct I as [I1 I2 I3 I4 I5 I6 I7].
  cbn in I1, I2, I3, I5, I6, I7.
  unfold owned in I7. cbn in I7.
  apply Forall_cons in I7. destruct I7 as [Vc I7].
  apply Forall_app in I7. destruct I7 as [Vh Vr].
  apply Forall_app in Vr. destruct Vr as [Vr Vp].
  rewrite Forall_singleton in Vp.
  destruct (lookup_valid _ _ Vp) as [b Hb].
  rewrite (redo_step _ _ _ _ _ _ _ _ _ Ha Hb). intros [= <- <-].
  rewrite len_snoc in I5. pose proof (len_nonneg (mk_deque rl' mx)).
  rewrite append_fits by lia.
  split; cbn; try assumption.
  - unfold len in *. cbn in *. rewrite length_app. cbn. lia.
  - discriminate.
  - unfold owned. cbn.
    apply Forall_cons. split; [apply valid_grow, Vp |].
    apply Forall_app. split.
    + apply Forall_app. split; [apply Forall_valid_grow, Vh |].
      apply Forall_singleton, valid_fresh. discriminate.
    + apply Forall_valid_grow, Vr.
Qed.

Lemma inv_clear_history w u w' : inv m w -> clear_history w = Ok (u, w') -> inv m w'.
Proof.
  intros I. destruct w as [h [hs rs mh cur]].
  rewrite clear_history_eq. intros [= <- <-].
  destruct I as [I1 I2 I3 I4 I5 I6 I7]. cbn in *.
  split; cbn; try assumption; auto.
Qed.

Lemma inv_initialize_state image w u w' :
  inv m w -> initialize_state image w = Ok (u, w') -> inv m w'.
Proof.
  intros I. destruct w as [h [hs rs mh cur]].
  destruct (h !! image) as [x|] eqn:Hx.
  2: { run_method. rewrite Hx. discriminate. }
  rewrite (initialize_state_eq _ _ _ _ _ _ _ Hx). intros [= <- <-].
  destruct I as [I1 I2 I3 I4 I5 I6 I7]. cbn in *.
  split; cbn; try assumption.
  - discriminate.
  - apply Forall_singleton, valid_fresh. discriminate.
Qed.

Lemma inv_get_current_state w r w' :
  inv m w -> get_current_state w = Ok (r, w') -> inv m w'.
Proof.
  intros I. destruct w as [h [hs rs mh [c|]]].
  - destruct (inv_current _ _ _ I eq_refl) as [a Ha]. cbn in Ha.
    rewrite (get_current_state_some _ _ _ _ _ _ Ha). intros [= <- <-].
    destruct I as [I1 I2 I3 I4 I5 I6 I7]. cbn in *.
    split; cbn; try assumption. apply Forall_valid_grow, I7.
  - rewrite get_current_state_none. intros [= <- <-]. exact I.
Qed.

Lemma get_memory_usage_pure w u w' : get_memory_usage w = Ok (u, w') -> w' = w.
Proof.
  unfold get_memory_usage, bind, get_self.
  destruct (sum_nbytes _ (items (_history_stack _))); [| discriminate].
  destruct (sum_nbytes _ (items (_redo_stack _))); [| discriminate].
  destruct (sum_nbytes _ (option_list _)); [| discriminate].
  intros [= _ <-]. reflexivity.
Qed.

Lemma inv_client_new a w : inv m w -> inv m (client_new a w).
Proof.
  intros [I1 I2 I3 I4 I5 I6 I7]. split; cbn; try assumption.
  apply Forall_valid_grow, I7.
Qed.

Lemma inv_client_write r a w : inv m w -> inv m (client_write r a w).
Proof.
  intros [I1 I2 I3 I4 I5 I6 I7]. split; cbn; try assumption.
  unfold valid. rewrite length_insert. exact I7.
Qed.

Lemma inv_exec o w w' : inv m w -> exec o w = Ok w' -> inv m w'.
Proof.
  intros I. destruct o; cbn [exec]; unfold forget;
    match goal with |- context [match ?c w with _ => _ end] =>
      destruct (c w) as [[r w1]|e] eqn:E; [| discriminate] end;
    intros [= <-].
  - eapply inv_add_state; eassumption.
  - eapply inv_undo; eassumption.
  - eapply inv_redo; eassumption.
  - eapply inv_clear_history; eassumption.
  - eapply inv_get_current_state; eassumption.
  - eapply inv_initialize_state; eassumption.
  - apply get_memory_usage_pure in E. subst w1. exact I.
Qed.

Lemma reachable_inv w : reachable m w -> inv m w.
Proof.
  induction 1 as [h hm H | o w w' _ IH E | a w _ IH | r a w _ IH _].
  - apply inv_init, H.
  - eapply inv_exec; eassumption.
  - apply inv_client_new, IH.
  - apply inv_client_write, IH.
Qed.

Lemma inv_run os : forall w w', inv m w -> run os w = Ok w' -> inv m w'.
Proof.
  induction os as [|o os IH]; intros w w' I; cbn [run].
  - intros [= <-]. exact I.
  - destruct (exec o w) as [w1|e] eqn:E; [| discriminate].
    apply IH. eapply inv_exec; eassumption.
Qed.

Lemma reachable_run os : forall w w', reachable m w -> run os w = Ok w' -> reachable m w'.
Proof.
  induction os as [|o os IH]; intros w w' R; cbn [run].
  - intros [= <-]. exact R.
  - destruct (exec o w) as [w1|e] eqn:E; [| discriminate].
    apply IH. eapply reach_call; eassumption.
Qed.

End Preservation.

(** ** Observations across allocation *)

Lemma deref_grow h e hm hm' r :
  valid h r -> deref (mk_World (h ++ e) hm') r = deref (mk_World h hm) r.
Proof. intros V. unfold deref. cbn. apply lookup_grow, V. Qed.

Lemma derefs_grow h e hm hm' (l : list ref) :
  Forall (valid h) l ->
  deref (mk_World (h ++ e) hm') <$> l = deref (mk_World h hm) <$> l.
Proof.
  intros V. apply Forall_fmap_ext_1.
  eapply Forall_impl; [exact V |]. intros r Vr. apply deref_grow, Vr.
Qed.

Lemma fmap_last_n {A B} (f : A -> B) n (l : list A) :
  f <$> last_n n l = last_n n (f <$> l).
Proof. unfold last_n. rewrite fmap_drop, length_fmap. reflexivity. Qed.

(** One [add_state]: the old [current] goes to the tail of the undo
    stack, which keeps its last [m] entries. *)
Lemma add_state_values m w image :
  inv m w -> valid (objects w) image ->
  exists w1,
    add_state image w = Ok (tt, w1) /\ inv m w1 /\
    undo_values w1 = last_n (Z.to_nat m) (undo_values w ++ current_values w) /\
    current_values w1 = [deref w image] /\
    (forall l, Forall (valid (objects w)) l ->
       Forall (valid (objects w1)) l /\ deref w1 <$> l = deref w <$> l).
Proof.
  intros I V. destruct (lookup_valid _ _ V) as [x Hx].
  destruct w as [h [hs rs mh [c|]]]; cbn in Hx, V.
  - destruct (inv_current _ _ _ I eq_refl) as [a Ha]. cbn in Ha.
    eexists. split; [apply (add_state_next _ _ _ _ _ _ _ _ Hx Ha) |].
    split; [eapply inv_add_state; [exact I | apply (add_state_next _ _ _ _ _ _ _ _ Hx Ha)] |].
    pose proof (inv_refs _ _ I) as R. unfold owned in R. cbn in R.
    apply Forall_cons in R. destruct R as [Vc R]. apply Forall_app in R. destruct R as [Vh Vr].
    pose proof (inv_hmax _ _ I) as E. cbn in E.
    pose proof (inv_total _ _ I) as T. cbn in T. pose proof (len_nonneg rs).
    pose proof (inv_pos _ _ I).
    split; [| split; [| intros l Vl; split]].
    + unfold undo_values, current_values. cbn [self _history_stack _current_state option_list].
      rewrite items_append by lia. rewrite E, fmap_last_n, fmap_app. f_equal. f_equal.
      * apply derefs_grow, Vh.
      * cbn. unfold deref. cbn.
        rewrite (lookup_app_r h) by lia. rewrite Nat.sub_diag. cbn.
        rewrite Ha. reflexivity.
    + unfold current_values, deref. cbn.
      rewrite (lookup_app_r h) by lia.
      replace (S (length h) - length h)%nat with 1%nat by lia. cbn.
      rewrite Hx. reflexivity.
    + apply Forall_valid_grow, Vl.
    + apply derefs_grow, Vl.
  - eexists. split; [apply (add_state_first _ _ _ _ _ _ Hx) |].
    split; [eapply inv_add_state; [exact I | apply (add_state_first _ _ _ _ _ _ Hx)] |].
    destruct (inv_cur _ _ I eq_refl) as [E1 E2]. cbn in E1, E2.
    split; [| split; [| intros l Vl; split]].
    + unfold undo_values, current_values. cbn. rewrite E1. reflexivity.
    + unfold current_values, deref. cbn.
      rewrite (lookup_app_r h) by lia. rewrite Nat.sub_diag. cbn.
      rewrite Hx. reflexivity.
    + apply Forall_valid_grow, Vl.
    + apply derefs_grow, Vl.
Qed.

(** A run of [add_state] calls. *)
Lemma add_states_values m images :
  forall w, inv m w -> Forall (valid (objects w)) images -> images <> [] ->
  exists w',
    run (AddState <$> images) w = Ok w' /\ inv m w' /\
    undo_values w' = last_n (Z.to_nat m) (undo_values w ++ superseded w images).
Proof.
  induction images as [|x xs IH]; intros w I V N; [congruence |]. clear N.
  apply Forall_cons in V. destruct V as [Vx Vxs].
  destruct (add_state_values m w x I Vx) as (w1 & E1 & I1 & U1 & C1 & G).
  destruct (G xs Vxs) as [Vxs1 D1].
  cbn [fmap list_fmap run exec]. unfold forget. rewrite E1.
  destruct xs as [|y ys].
  - exists w1. split; [reflexivity |]. split; [exact I1 |].
    rewrite U1. unfold superseded. cbn [fmap list_fmap].
    rewrite removelast_last. reflexivity.
  - destruct (IH w1 I1 Vxs1 ltac:(discriminate)) as (w' & E' & I' & U').
    exists w'. split; [exact E' |]. split; [exact I' |].
    rewrite U', U1. unfold superseded. rewrite C1, D1.
    rewrite last_n_last_n_app.
    rewrite (removelast_app (current_values w)) by discriminate.
    rewrite <- app_assoc. reflexivity.
Qed.

Lemma removelast_length {A} (l : list A) : length (removelast l) = (length l - 1)%nat.
Proof.
  destruct (snoc_cases l) as [-> | (k & x & ->)]; [reflexivity |].
  rewrite removelast_last, length_app. cbn. lia.
Qed.

(** ** Undo and redo in a reachable world *)

(** When there is something to undo, [current] is present, both it and
    the tail of the undo stack name objects, and the redo stack has room. *)
Lemma inv_can_undo m w :
  inv m w -> can_undo (self w) = true ->
  exists h hl p rs c a b,
    w = mk_World h (mk_HistoryManager (mk_deque (hl ++ [p]) m) rs m (Some c)) /\
    h !! c = Some a /\ h !! p = Some b /\
    maxlen rs = m /\ len (mk_deque hl m) + len rs < m /\
    Forall (valid h) (c :: hl ++ [p]) /\ Forall (valid h) (items rs).
Proof.
  intros I U. destruct w as [h [[hl mx] rs mh cur]].
  apply can_undo_true in U. cbn in U.
  destruct (snoc_cases hl) as [-> | (hl' & p & ->)]; [congruence |].
  destruct cur as [c|].
  2: { destruct (inv_cur _ _ I eq_refl) as [E _]. cbn in E. congruence. }
  destruct (inv_current _ _ _ I eq_refl) as [a Ha]. cbn in Ha.
  destruct I as [I1 I2 I3 I4 I5 I6 I7]. cbn in I1, I2, I3, I5, I7.
  unfold owned in I7. cbn in I7.
  apply Forall_cons in I7. destruct I7 as [Vc I7].
  apply Forall_app in I7. destruct I7 as [Vh Vr].
  pose proof Vh as Vh'. apply Forall_app in Vh'. destruct Vh' as [_ Vp].
  rewrite Forall_singleton in Vp. destruct (lookup_valid _ _ Vp) as [b Hb].
  rewrite len_snoc in I5. subst mx mh.
  exists h, hl', p, rs, c, a, b.
  repeat split; try assumption; try lia.
  apply Forall_cons. split; assumption.
Qed.

Lemma inv_can_redo m w :
  inv m w -> can_redo (self w) = true ->
  exists h hs rl p c a b,
    w = mk_World h (mk_HistoryManager hs (mk_deque (rl ++ [p]) m) m (Some c)) /\
    h !! c = Some a /\ h !! p = Some b /\
    maxlen hs = m /\ len hs + len (mk_deque rl m) < m /\
    Forall (valid h) (c :: rl ++ [p]) /\ Forall (valid h) (items hs).
Proof.
  intros I U. destruct w as [h [hs [rl mx] mh cur]].
  apply can_redo_true in U. cbn in U.
  destruct (snoc_cases rl) as [-> | (rl' & p & ->)]; [congruence |].
  destruct cur as [c|].
  2: { destruct (inv_cur _ _ I eq_refl) as [_ E]. cbn in E. congruence. }
  destruct (inv_current _ _ _ I eq_refl) as [a Ha]. cbn in Ha.
  destruct I as [I1 I2 I3 I4 I5 I6 I7]. cbn in I1, I2, I3, I5, I7.
  unfold owned in I7. cbn in I7.
  apply Forall_cons in I7. destruct I7 as [Vc I7].
  apply Forall_app in I7. destruct I7 as [Vh Vr].
  pose proof Vr as Vr'. apply Forall_app in Vr'. destruct Vr' as [_ Vp].
  rewrite Forall_singleton in Vp. destruct (lookup_valid _ _ Vp) as [b Hb].
  rewrite len_snoc in I5. subst mx mh.
  exists h, hs, rl', p, c, a, b.
  repeat split; try assumption; try lia.
  apply Forall_cons. split; assumption.
Qed.

Lemma lookup_fresh (h : heap) (a : ndarray) (e : heap) :
  (h ++ a :: e) !! length h = Some a.
Proof. rewrite lookup_app_r by lia. rewrite Nat.sub_diag. reflexivity. Qed.

Lemma lookup_fresh_next (h : heap) (a b : ndarray) (e : heap) :
  (h ++ a :: b :: e) !! S (length h) = Some b.
Proof.
  rewrite lookup_app_r by lia.
  replace (S (length h) - length h)%nat with 1%nat by lia. reflexivity.
Qed.

Lemma fresh_not_in (h : heap) (l : list ref) (r : ref) :
  Forall (valid h) l -> ~ valid h r -> r ∉ l.
Proof.
  intros V N E. rewrite Forall_forall in V. apply N, V, E.
Qed.

(** ** No method raises in a reachable world *)

Lemma sum_nbytes_valid (h : heap) (l : list ref) :
  Forall (valid h) l -> exists n, sum_nbytes h l = Ok n.
Proof.
  induction 1 as [|r l V _ [n IH]]; cbn [sum_nbytes]; [eauto |].
  destruct (lookup_valid _ _ V) as [a ->]. rewrite IH. eauto.
Qed.

Lemma exec_returns m o w :
  inv m w -> args_valid o w -> exists w', exec o w = Ok w'.
Proof.
  intros I V. destruct o; cbn [exec args_valid] in *; unfold forget.
  - destruct (add_state_values m w image I V) as (w1 & -> & _). eauto.
  - destruct (can_undo (self w)) eqn:U.
    + destruct (inv_can_undo m w I U)
        as (h & hl & p & rs & c & a & b & -> & Ha & Hb & _).
      rewrite (undo_step _ _ _ _ _ _ _ _ _ Ha Hb). eauto.
    + rewrite undo_empty by exact U. eauto.
  - destruct (can_redo (self w)) eqn:U.
    + destruct (inv_can_redo m w I U)
        as (h & hs & rl & p & c & a & b & -> & Ha & Hb & _).
      rewrite (redo_step _ _ _ _ _ _ _ _ _ Ha Hb). eauto.
    + rewrite redo_empty by exact U. eauto.
  - destruct w as [h [hs rs mh cur]]. rewrite clear_history_eq. eauto.
  - destruct w as [h [hs rs mh [c|]]].
    + destruct (inv_current _ _ _ I eq_refl) as [a Ha]. cbn in Ha.
      rewrite (get_current_state_some _ _ _ _ _ _ Ha). eauto.
    + rewrite get_current_state_none. eauto.
  - destruct (lookup_valid _ _ V) as [x Hx]. destruct w as [h [hs rs mh cur]].
    rewrite (initialize_state_eq _ _ _ _ _ _ _ Hx). eauto.
  - pose proof (inv_refs _ _ I) as R. unfold owned in R.
    apply Forall_app in R. destruct R as [Rc R].
    apply Forall_app in R. destruct R as [Rh Rr].
    destruct (sum_nbytes_valid _ _ Rc) as [nc Ec].
    destruct (sum_nbytes_valid _ _ Rh) as [nh Eh].
    destruct (sum_nbytes_valid _ _ Rr) as [nr Er].
    unfold get_memory_usage, bind, get_self. rewrite Eh, Er, Ec. eauto.
Qed.

(** ** The example worlds are reachable *)

Lemma reachable_fresh2 : reachable 2 fresh2.
Proof. apply reach_init. reflexivity. Defined.

Lemma reachable_edited2 : reachable 2 edited2.
Proof.
  apply (reachable_run 2 [AddState 0%nat; AddState 1%nat; AddState 2%nat; Undo] fresh2).
  - exact reachable_fresh2.
  - reflexivity.
Defined.

Ltac valid_refs :=
  repeat (apply Forall_cons; split); try apply Forall_nil_2;
  unfold valid; vm_compute; lia.

(** ** One undo, one redo, at the level of contents *)

Lemma undo_observe m w :
  inv m w -> can_undo (self w) = true ->
  exists r w' a b U,
    undo w = Ok (Some r, w') /\ inv m w' /\
    current_value w = Some a /\ undo_values w = U ++ [Some b] /\
    observe w' = (Some b, U, redo_values w ++ [Some a]) /\
    deref w' r = Some b /\ (r ∉ owned (self w')) /\ ~ valid (objects w) r /\
    forall l, Forall (valid (objects w)) l ->
      Forall (valid (objects w')) l /\ deref w' <$> l = deref w <$> l.
Proof.
  intros I U.
  destruct (inv_can_undo m w I U)
    as (h & hl & p & rs & c & a & b & -> & Ha & Hb & Mr & T & Vh & Vr).
  pose proof (len_nonneg (mk_deque hl m)).
  apply Forall_cons in Vh. destruct Vh as [Vc Vh].
  apply Forall_app in Vh. destruct Vh as [Vl Vp]. rewrite Forall_singleton in Vp.
  set (hm := mk_HistoryManager (mk_deque (hl ++ [p]) m) rs m (Some c)).
  pose proof (undo_step h rs m hl p m c a b Ha Hb) as E.
  rewrite append_fits in E by lia. rewrite Mr in E.
  set (hm' := mk_HistoryManager (mk_deque hl m) (mk_deque (items rs ++ [length h]) m) m (Some p)) in E.
  exists (S (length h)), (mk_World (h ++ [a; b]) hm'), a, b, (deref (mk_World h hm) <$> hl).
  split; [exact E |].
  split; [eapply inv_undo; [exact I | exact E] |].
  split; [unfold current_value, deref; cbn; rewrite Ha; reflexivity |].
  split.
  { unfold undo_values. cbn. rewrite fmap_app. cbn. unfold deref at 2. cbn.
    rewrite Hb. reflexivity. }
  split.
  { unfold observe, current_value, undo_values, redo_values. cbn [self hm' _current_state
      _history_stack _redo_stack items mbind option_bind].
    rewrite fmap_app, (derefs_grow h [a; b] hm hm' _ Vl), (derefs_grow h [a; b] hm hm' _ Vr).
    rewrite (deref_grow h [a; b] hm hm' _ Vp). unfold deref. cbn.
    rewrite Hb, lookup_fresh. reflexivity. }
  split; [unfold deref; cbn; apply lookup_fresh_next |].
  split.
  { unfold owned. cbn. intros E'.
    apply elem_of_cons in E'. destruct E' as [E' | E']; [unfold valid in Vp; lia |].
    apply elem_of_app in E'. destruct E' as [E' | E'].
    { revert E'. apply fresh_not_in with (h := h); [exact Vl | unfold valid; lia]. }
    apply elem_of_app in E'. destruct E' as [E' | E'].
    { revert E'. apply fresh_not_in with (h := h); [exact Vr | unfold valid; lia]. }
    apply list_elem_of_singleton in E'. lia. }
  split; [unfold valid; cbn; lia |].
  intros l Vl'. split; [apply Forall_valid_grow, Vl' | apply derefs_grow, Vl'].
Qed.

Lemma redo_observe m w :
  inv m w -> can_redo (self w) = true ->
  exists r w' a b R,
    redo w = Ok (Some r, w') /\ inv m w' /\
    current_value w = Some a /\ redo_values w = R ++ [Some b] /\
    observe w' = (Some b, undo_values w ++ [Some a], R) /\
    deref w' r = Some b /\ (r ∉ owned (self w')) /\ ~ valid (objects w) r /\
    forall l, Forall (valid (objects w)) l ->
      Forall (valid (objects w')) l /\ deref w' <$> l = deref w <$> l.
Proof.
  intros I U.
  destruct (inv_can_redo m w I U)
    as (h & hs & rl & p & c & a & b & -> & Ha & Hb & Mh & T & Vr & Vh).
  pose proof (len_nonneg (mk_deque rl m)).
  apply Forall_cons in Vr. destruct Vr as [Vc Vr].
  apply Forall_app in Vr. destruct Vr as [Vl Vp]. rewrite Forall_singleton in Vp.
  set (hm := mk_HistoryManager hs (mk_deque (rl ++ [p]) m) m (Some c)).
  pose proof (redo_step h hs m rl p m c a b Ha Hb) as E.
  rewrite append_fits in E by lia. rewrite Mh in E.
  set (hm' := mk_HistoryManager (mk_deque (items hs ++ [length h]) m) (mk_deque rl m) m (Some p)) in E.
  exists (S (length h)), (mk_World (h ++ [a; b]) hm'), a, b, (deref (mk_World h hm) <$> rl).
  split; [exact E |].
  split; [eapply inv_redo; [exact I | exact E] |].
  split; [unfold current_value, deref; cbn; rewrite Ha; reflexivity |].
  split.
  { unfold redo_values. cbn. rewrite fmap_app. cbn. unfold deref at 2. cbn.
    rewrite Hb. reflexivity. }
  split.
  { unfold observe, current_value, undo_values, redo_values. cbn [self hm' _current_state
      _history_stack _redo_stack items mbind option_bind].
    rewrite fmap_app, (derefs_grow h [a; b] hm hm' _ Vl), (derefs_grow h [a; b] hm hm' _ Vh).
    rewrite (deref_grow h [a; b] hm hm' _ Vp). unfold deref. cbn.
    rewrite Hb, lookup_fresh. reflexivity. }
  split; [unfold deref; cbn; apply lookup_fresh_next |].
  split.
  { unfold owned. cbn. intros E'.
    apply elem_of_cons in E'. destruct E' as [E' | E']; [unfold valid in Vp; lia |].
    apply elem_of_app in E'. destruct E' as [E' | E'].
    { apply elem_of_app in E'. destruct E' as [E' | E'].
      - revert E'. apply fresh_not_in with (h := h); [exact Vh | unfold valid; lia].
      - apply list_elem_of_singleton in E'. lia. }
    revert E'. apply fresh_not_in with (h := h); [exact Vl | unfold valid; lia]. }
  split; [unfold valid; cbn; lia |].
  intros l Vl'. split; [apply Forall_valid_grow, Vl' | apply derefs_grow, Vl'].
Qed.

(** ** Small facts about observations *)

(** Writing to an object the manager does not hold changes nothing the
    manager shows. *)
Lemma write_outside r a w :
  r ∉ owned (self w) -> observe (client_write r a w) = observe w.
Proof.
  intros N.
  assert (forall l : list ref, r ∉ l -> deref (client_write r a w) <$> l = deref w <$> l) as D.
  { intros l Nl. apply Forall_fmap_ext_1, Forall_forall. intros q Hq.
    unfold deref, client_write. cbn. apply list_lookup_insert_ne. intros ->. apply Nl, Hq. }
  unfold owned in N. apply not_elem_of_app in N. destruct N as [Nc N].
  apply not_elem_of_app in N. destruct N as [Nh Nr].
  unfold observe, current_value, undo_values, redo_values.
  cbn [client_write self]. rewrite (D _ Nh), (D _ Nr). f_equal. f_equal.
  destruct (_current_state (self w)) as [c|]; [| reflexivity]. cbn.
  unfold deref. cbn. apply list_lookup_insert_ne. intros ->. apply Nc. cbn. left.
Qed.

Lemma current_values_of_value w a :
  current_value w = Some a -> current_values w = [Some a].
Proof.
  unfold current_value, current_values.
  destruct (_current_state (self w)) as [c|]; cbn; [| discriminate].
  intros ->. reflexivity.
Qed.

Lemma can_undo_of_values w U x : undo_values w = U ++ [x] -> can_undo (self w) = true.
Proof.
  intros E. apply can_undo_true. intros N. unfold undo_values in E. rewrite N in E.
  destruct U; discriminate E.
Qed.

Lemma can_redo_of_values w R x : redo_values w = R ++ [x] -> can_redo (self w) = true.
Proof.
  intros E. apply can_redo_true. intros N. unfold redo_values in E. rewrite N in E.
  destruct R; discriminate E.
Qed.

Lemma history_count_values w : history_count (self w) = Z.of_nat (length (undo_values w)).
Proof. unfold history_count, len, undo_values. rewrite length_fmap. reflexivity. Qed.

Lemma redo_count_values w :
  len (_redo_stack (self w)) = Z.of_nat (length (redo_values w)).
Proof. unfold len, redo_values. rewrite length_fmap. reflexivity. Qed.

Lemma last_n_snoc {A} n (l : list A) x :
  (0 < n)%nat -> last_n n (l ++ [x]) = last_n (n - 1) l ++ [x].
Proof.
  intros P. unfold last_n. rewrite length_app. cbn [length].
  rewrite drop_app_le by lia. f_equal. f_equal. lia.
Qed.

Lemma add_state_redo_empty m image w u w' :
  inv m w -> add_state image w = Ok (u, w') -> redo_values w' = [].
Proof.
  intros I. destruct w as [h [hs rs mh [c|]]].
  - destruct (inv_current _ _ _ I eq_refl) as [a Ha]. cbn in Ha.
    destruct ((h ++ [a]) !! image) as [x|] eqn:Hx.
    2: { run_method. rewrite Ha. fields. rewrite Hx. discriminate. }
    rewrite (add_state_next_gen _ _ _ _ _ _ _ _ Hx Ha). intros [= <- <-]. reflexivity.
  - destruct (h !! image) as [x|] eqn:Hx.
    2: { run_method. rewrite Hx. discriminate. }
    rewrite (add_state_first _ _ _ _ _ _ Hx). intros [= <- <-]. reflexivity.
Qed.

Lemma current_value_of_values w v : current_values w = [v] -> current_value w = v.
Proof.
  unfold current_value, current_values.
  destruct (_current_state (self w)) as [c|]; cbn; [| discriminate].
  intros [= <-]. reflexivity.
Qed.

(** * The claims *)

(** C1: in every world reachable from a manager constructed with bound
    [m], the undo stack and the redo stack each hold at most [m]
    snapshots; and a run of more than [m] [add_state] calls leaves in the
    undo stack exactly the [m] most recently superseded states. *)
Theorem C1_stacks_bounded (m : Z) (w : World) :
  reachable m w ->
  (len (_history_stack (self w)) <= m /\ len (_redo_stack (self w)) <= m) /\
  forall images : list ref,
    Forall (valid (objects w)) images ->
    m < Z.of_nat (length images) ->
    exists w',
      run (AddState <$> images) w = Ok w' /\
      undo_values w' = last_n (Z.to_nat m) (superseded w images) /\
      history_count (self w') = m.
Proof.
  intros R. apply reachable_inv in R. split.
  - pose proof (inv_total _ _ R).
    pose proof (len_nonneg (_history_stack (self w))).
    pose proof (len_nonneg (_redo_stack (self w))). lia.
  - intros images V L. pose proof (inv_pos _ _ R) as P.
    assert (images <> []) as N by (intros ->; cbn in L; lia).
    destruct (add_states_values m images w R V N) as (w' & E & I' & U).
    assert (Z.to_nat m <= length (superseded w images))%nat as Long.
    { unfold superseded. rewrite removelast_length, length_app, length_fmap. lia. }
    rewrite last_n_app_long in U by exact Long.
    exists w'. split; [exact E |]. split; [exact U |].
    unfold history_count, len.
    replace (length (items (_history_stack (self w')))) with (length (undo_values w'))
      by (unfold undo_values; apply length_fmap).
    rewrite U, last_n_length. lia.
Qed.

Lemma C1_stacks_bounded_witness :
  (len (_history_stack (self edited2)) <= 2 /\ len (_redo_stack (self edited2)) <= 2) /\
  exists w',
    run (AddState <$> [0; 1; 2]%nat) edited2 = Ok w' /\
    undo_values w' = last_n (Z.to_nat 2) (superseded edited2 [0; 1; 2]%nat) /\
    history_count (self w') = 2.
Proof.
  destruct (C1_stacks_bounded 2 edited2 reachable_edited2) as [B S].
  split; [exact B |]. apply S; [valid_refs | cbn; lia].
Defined.

(** C2: in a reachable world with something to undo, [undo] then [redo]
    both return, [current] afterwards has the contents it had before, and
    [redo] returns an array with those contents. *)
Theorem C2_undo_redo_restores (m : Z) (w : World) :
  reachable m w -> can_undo (self w) = true ->
  exists v r1 w1 r2 w2,
    current_value w = Some v /\
    undo w = Ok (Some r1, w1) /\
    redo w1 = Ok (Some r2, w2) /\
    current_value w2 = Some v /\
    deref w2 r2 = Some v.
Proof.
  intros R U. apply reachable_inv in R.
  destruct (inv_can_undo m w R U)
    as (h & hl & p & rs & c & a & b & -> & Ha & Hb & Mr & T & Vh & Vr).
  pose proof (len_nonneg (mk_deque hl m)).
  exists a. do 4 eexists.
  split; [exact Ha |].
  split; [apply (undo_step _ _ _ _ _ _ _ _ _ Ha Hb) |].
  rewrite append_fits by lia. rewrite Mr.
  split.
  { apply redo_step.
    - rewrite lookup_grow by (eapply lookup_lt_Some; exact Hb). exact Hb.
    - apply lookup_fresh. }
  unfold current_value, deref. cbn.
  split.
  - rewrite <- app_assoc. apply lookup_fresh.
  - rewrite length_app. cbn [length].
    replace (S (length h + 2)) with (S (length (h ++ [a; b]))) by (rewrite length_app; reflexivity).
    apply lookup_fresh_next.
Qed.

Lemma C2_undo_redo_restores_witness :
  exists v r1 w1 r2 w2,
    current_value edited2 = Some v /\
    undo edited2 = Ok (Some r1, w1) /\
    redo w1 = Ok (Some r2, w2) /\
    current_value w2 = Some v /\
    deref w2 r2 = Some v.
Proof.
  apply (C2_undo_redo_restores 2 edited2 reachable_edited2). reflexivity.
Defined.

(** C3: after [add_state], whatever the redo stack held, the redo stack
    is empty and [can_redo] is false. *)
Theorem C3_add_state_clears_redo (m : Z) (w : World) (image : ref) :
  reachable m w -> valid (objects w) image ->
  exists w',
    add_state image w = Ok (tt, w') /\
    items (_redo_stack (self w')) = [] /\
    can_redo (self w') = false.
Proof.
  intros R V. apply reachable_inv in R.
  destruct (lookup_valid _ _ V) as [x Hx].
  destruct w as [h [hs rs mh [c|]]]; cbn in Hx.
  - destruct (inv_current _ _ _ R eq_refl) as [a Ha]. cbn in Ha.
    eexists. split; [apply (add_state_next _ _ _ _ _ _ _ _ Hx Ha) |].
    split; reflexivity.
  - eexists. split; [apply (add_state_first _ _ _ _ _ _ Hx) |].
    split; reflexivity.
Qed.

Lemma C3_add_state_clears_redo_witness :
  items (_redo_stack (self edited2)) <> [] /\
  exists w',
    add_state 3%nat edited2 = Ok (tt, w') /\
    items (_redo_stack (self w')) = [] /\
    can_redo (self w') = false.
Proof.
  split; [vm_compute; discriminate |].
  apply (C3_add_state_clears_redo 2 edited2 3%nat reachable_edited2).
  unfold valid. vm_compute. lia.
Defined.

(** C4: [undo] on an empty undo stack and [redo] on an empty redo stack
    raise nothing, return [None] and leave the world as it was; right
    after construction and right after [clear_history], [can_undo] is
    false and [undo] returns [None]. *)
Theorem C4_empty_history_noop (w : World) (m : Z) (h : heap) (hm : HistoryManager) :
  (items (_history_stack (self w)) = [] -> undo w = Ok (None, w)) /\
  (items (_redo_stack (self w)) = [] -> redo w = Ok (None, w)) /\
  (__init__ m = Ok hm ->
     can_undo hm = false /\ undo (mk_World h hm) = Ok (None, mk_World h hm)) /\
  (exists w',
     clear_history w = Ok (tt, w') /\
     can_undo (self w') = false /\ undo w' = Ok (None, w')).
Proof.
  split; [| split; [| split]].
  - intros E. apply undo_empty, can_undo_false, E.
  - intros E. apply redo_empty, can_redo_false, E.
  - intros E. apply init_ok in E. destruct E as [-> _]. split; reflexivity.
  - destruct w as [h' [hs rs mh cur]]. eexists.
    split; [apply clear_history_eq |]. split; reflexivity.
Qed.

Lemma C4_empty_history_noop_witness :
  undo cleared2 = Ok (None, cleared2) /\
  redo cleared2 = Ok (None, cleared2) /\
  (can_undo (self fresh2) = false /\ undo fresh2 = Ok (None, fresh2)) /\
  (exists w',
     clear_history cleared2 = Ok (tt, w') /\
     can_undo (self w') = false /\ undo w' = Ok (None, w')).
Proof.
  destruct (C4_empty_history_noop cleared2 2 (objects fresh2) (self fresh2))
    as (U & R & I & C).
  split; [apply U; reflexivity |].
  split; [apply R; reflexivity |].
  split; [apply I; reflexivity | exact C].
Defined.

(** C5, as stated, fails on both sides: a bound of zero is accepted (the
    manager it yields can never hold history), and a positive bound
    beyond the machine index range is refused. *)
Lemma C5_zero_bound_accepted :
  __init__ 0 = Ok (mk_HistoryManager (mk_deque [] 0) (mk_deque [] 0) 0 None) /\
  ~ (forall m : Z, m <= 0 -> exists e, __init__ m = Raise e) /\
  __init__ (2 ^ 63) = Raise OverflowError.
Proof.
  split; [reflexivity |]. split; [| reflexivity].
  intros H. destruct (H 0 ltac:(lia)) as [e He]. discriminate He.
Qed.

(** C5, amended: construction raises for a negative bound, and succeeds
    for every bound from zero up to the largest machine index, giving
    empty stacks and no [current]; beyond that index it raises. *)
Theorem C5_construction (m : Z) :
  (m < 0 -> exists e, __init__ m = Raise e) /\
  (0 <= m <= PY_SSIZE_T_MAX ->
     __init__ m = Ok (mk_HistoryManager (mk_deque [] m) (mk_deque [] m) m None)) /\
  (PY_SSIZE_T_MAX < m -> __init__ m = Raise OverflowError).
Proof.
  unfold __init__, Deque.new.
  destruct (Z.ltb_spec m (- PY_SSIZE_T_MAX - 1));
    destruct (Z.ltb_spec PY_SSIZE_T_MAX m);
    destruct (Z.ltb_spec m 0); cbn [orb];
    (split; [intros ? | split; intros ?]);
    solve [reflexivity | lia | eexists; reflexivity
          | unfold PY_SSIZE_T_MAX in *; lia ].
Qed.

Lemma C5_construction_witness :
  (exists e, __init__ (-1) = Raise e) /\
  __init__ 0 = Ok (mk_HistoryManager (mk_deque [] 0) (mk_deque [] 0) 0 None) /\
  __init__ default_max_history
  = Ok (mk_HistoryManager (mk_deque [] default_max_history)
          (mk_deque [] default_max_history) default_max_history None) /\
  __init__ (2 ^ 63) = Raise OverflowError.
Proof.
  split; [apply (C5_construction (-1)); lia |].
  split; [apply (C5_construction 0); vm_compute; split; discriminate |].
  split; [apply (C5_construction default_max_history); vm_compute; split; discriminate |].
  apply (C5_construction (2 ^ 63)). vm_compute. reflexivity.
Defined.

(** C6: in a reachable world with something to undo, [undo] pushes a
    fresh array with the contents of [current] onto the redo stack, makes
    the tail of the undo stack [current], and returns a fresh array with
    the contents of the new [current]; the undo stack is one shorter and
    the redo stack one longer. *)
Theorem C6_undo_moves_one (m : Z) (w : World) :
  reachable m w -> can_undo (self w) = true ->
  exists c p hl c' r w',
    _current_state (self w) = Some c /\
    items (_history_stack (self w)) = hl ++ [p] /\
    undo w = Ok (Some r, w') /\
    (items (_redo_stack (self w')) = items (_redo_stack (self w)) ++ [c'] /\
     ~ valid (objects w) c' /\ is_Some (deref w c) /\ deref w' c' = deref w c) /\
    (items (_history_stack (self w')) = hl /\
     _current_state (self w') = Some p /\ deref w' p = deref w p) /\
    (~ valid (objects w) r /\ (r ∉ owned (self w')) /\
     is_Some (current_value w') /\ deref w' r = current_value w') /\
    len (_history_stack (self w')) = len (_history_stack (self w)) - 1 /\
    len (_redo_stack (self w')) = len (_redo_stack (self w)) + 1.
Proof.
  intros R U. apply reachable_inv in R.
  destruct (inv_can_undo m w R U)
    as (h & hl & p & rs & c & a & b & -> & Ha & Hb & Mr & T & Vh & Vr).
  pose proof (len_nonneg (mk_deque hl m)).
  apply Forall_cons in Vh. destruct Vh as [Vc Vh].
  apply Forall_app in Vh. destruct Vh as [Vl Vp]. rewrite Forall_singleton in Vp.
  exists c, p, hl, (length h), (S (length h)). eexists.
  split; [reflexivity |]. split; [reflexivity |].
  split; [apply (undo_step _ _ _ _ _ _ _ _ _ Ha Hb) |].
  rewrite append_fits by lia. unfold current_value, deref. fields. cbn [mbind option_bind].
  split; [| split; [| split; [| split]]].
  - split; [reflexivity |]. split; [unfold valid; lia |].
    split; [rewrite Ha; eexists; reflexivity |].
    rewrite lookup_fresh, Ha. reflexivity.
  - split; [reflexivity |]. split; [reflexivity |]. apply lookup_grow, Vp.
  - split; [unfold valid; lia |].
    rewrite lookup_fresh_next, (lookup_grow h) by exact Vp. rewrite Hb.
    split; [| split; [eexists; reflexivity | reflexivity]].
    unfold owned. cbn. intros E.
    apply elem_of_cons in E. destruct E as [E | E].
    { unfold valid in Vp. lia. }
    apply elem_of_app in E. destruct E as [E | E].
    { revert E. apply fresh_not_in with (h := h); [exact Vl | unfold valid; lia]. }
    apply elem_of_app in E. destruct E as [E | E].
    { revert E. apply fresh_not_in with (h := h); [exact Vr | unfold valid; lia]. }
    apply list_elem_of_singleton in E. lia.
  - rewrite len_snoc. lia.
  - unfold len. cbn. rewrite length_app. cbn. lia.
Qed.

Lemma C6_undo_moves_one_witness :
  exists c p hl c' r w',
    _current_state (self edited2) = Some c /\
    items (_history_stack (self edited2)) = hl ++ [p] /\
    undo edited2 = Ok (Some r, w') /\
    (items (_redo_stack (self w')) = items (_redo_stack (self edited2)) ++ [c'] /\
     ~ valid (objects edited2) c' /\ is_Some (deref edited2 c) /\
     deref w' c' = deref edited2 c) /\
    (items (_history_stack (self w')) = hl /\
     _current_state (self w') = Some p /\ deref w' p = deref edited2 p) /\
    (~ valid (objects edited2) r /\ (r ∉ owned (self w')) /\
     is_Some (current_value w') /\ deref w' r = current_value w') /\
    len (_history_stack (self w')) = len (_history_stack (self edited2)) - 1 /\
    len (_redo_stack (self w')) = len (_redo_stack (self edited2)) + 1.
Proof.
  apply (C6_undo_moves_one 2 edited2 reachable_edited2). reflexivity.
Defined.

(** C7: the scenario with bound 2.  For any four images [A], [B], [C],
    [D] the caller holds, on a manager constructed with bound 2: four
    commits leave [D] current and [B; C] to undo ([A] evicted); two undos
    return [C] then [B]; a third returns [None] and changes nothing; a
    redo returns [C].  [a], [b], [c], [d] are the images' contents. *)
Theorem C7_scenario (h : heap) (A B C D : ref) (a b c d : ndarray) :
  h !! A = Some a -> h !! B = Some b -> h !! C = Some c -> h !! D = Some d ->
  exists hm w1 w2 w3 w4 r5 w5 r6 w6 r8 w8,
    __init__ 2 = Ok hm /\ observe (mk_World h hm) = (None, [], []) /\
    add_state A (mk_World h hm) = Ok (tt, w1) /\ observe w1 = (Some a, [], []) /\
    add_state B w1 = Ok (tt, w2) /\ observe w2 = (Some b, [Some a], []) /\
    add_state C w2 = Ok (tt, w3) /\ observe w3 = (Some c, [Some a; Some b], []) /\
    add_state D w3 = Ok (tt, w4) /\ observe w4 = (Some d, [Some b; Some c], []) /\
    undo w4 = Ok (Some r5, w5) /\ deref w5 r5 = Some c /\
      observe w5 = (Some c, [Some b], [Some d]) /\
    undo w5 = Ok (Some r6, w6) /\ deref w6 r6 = Some b /\
      observe w6 = (Some b, [], [Some d; Some c]) /\
    can_undo (self w6) = false /\ undo w6 = Ok (None, w6) /\
    redo w6 = Ok (Some r8, w8) /\ deref w8 r8 = Some c /\
      observe w8 = (Some c, [Some b], [Some d]).
Proof.
  intros HA HB HC HD.
  set (hm := mk_HistoryManager (mk_deque [] 2) (mk_deque [] 2) 2 None).
  assert (__init__ 2 = Ok hm) as E0 by reflexivity.
  pose proof (reachable_inv _ _ (reach_init 2 h hm E0)) as I0.
  assert (Forall (valid h) [A; B; C; D]) as V0.
  { repeat apply Forall_cons_2; [..| apply Forall_nil_2];
      eapply lookup_lt_Some; eassumption. }
  assert (deref (mk_World h hm) <$> [A; B; C; D] = [Some a; Some b; Some c; Some d]) as D0.
  { unfold deref. cbn. rewrite HA, HB, HC, HD. reflexivity. }
  (* addState(A) *)
  destruct (add_state_values 2 _ A I0 (Forall_inv V0)) as (w1 & E1 & I1 & U1 & C1 & G1).
  pose proof (add_state_redo_empty _ _ _ _ _ I0 E1) as R1.
  destruct (G1 _ V0) as [V1 D1]. rewrite D0 in D1.
  injection D0 as DA _. rewrite DA in C1. cbn in U1.
  injection D1 as _ DB1 _ _.
  (* addState(B) *)
  destruct (add_state_values 2 _ B I1 (Forall_inv (Forall_inv_tail V1)))
    as (w2 & E2 & I2 & U2 & C2 & G2).
  pose proof (add_state_redo_empty _ _ _ _ _ I1 E2) as R2.
  destruct (G2 _ V1) as [V2 D2]. rewrite (proj2 (G1 _ V0)) in D2.
  rewrite DB1 in C2. rewrite U1, C1 in U2. cbn in U2.
  assert (deref w2 C = Some c) as DC2.
  { apply (f_equal (fun l => l !! 2%nat)) in D2. cbn in D2. injection D2 as ->.
    unfold deref. cbn. exact HC. }
  (* addState(C) *)
  destruct (add_state_values 2 _ C I2 (Forall_inv (Forall_inv_tail (Forall_inv_tail V2))))
    as (w3 & E3 & I3 & U3 & C3 & G3).
  pose proof (add_state_redo_empty _ _ _ _ _ I2 E3) as R3.
  destruct (G3 _ V2) as [V3 D3]. rewrite D2 in D3.
  rewrite DC2 in C3. rewrite U2, C2 in U3. cbn in U3.
  assert (deref w3 D = Some d) as DD3.
  { apply (f_equal (fun l => l !! 3%nat)) in D3. cbn in D3. injection D3 as ->.
    unfold deref. cbn. exact HD. }
  (* addState(D) *)
  destruct (add_state_values 2 _ D I3
              (Forall_inv (Forall_inv_tail (Forall_inv_tail (Forall_inv_tail V3)))))
    as (w4 & E4 & I4 & U4 & C4 & _).
  pose proof (add_state_redo_empty _ _ _ _ _ I3 E4) as R4.
  rewrite DD3 in C4. rewrite U3, C3 in U4. cbn in U4.
  (* undo() *)
  destruct (undo_observe 2 w4 I4 (can_undo_of_values w4 [Some b] (Some c) U4))
    as (r5 & w5 & x5 & y5 & U5 & E5 & I5 & Cx5 & Uv5 & O5 & Dr5 & _).
  rewrite (current_value_of_values _ _ C4) in Cx5. injection Cx5 as <-.
  rewrite U4 in Uv5. apply (app_inj_tail [Some b]) in Uv5. destruct Uv5 as [<- [= <-]].
  rewrite R4 in O5. cbn in O5.
  (* undo() *)
  assert (undo_values w5 = [] ++ [Some b]) as Uw5 by (injection O5 as _ -> _; reflexivity).
  destruct (undo_observe 2 w5 I5 (can_undo_of_values w5 [] (Some b) Uw5))
    as (r6 & w6 & x6 & y6 & U6 & E6 & I6 & Cx6 & Uv6 & O6 & Dr6 & _).
  assert (current_value w5 = Some c) as Cw5 by (injection O5 as -> _ _; reflexivity).
  rewrite Cw5 in Cx6. injection Cx6 as <-.
  rewrite Uw5 in Uv6. apply app_inj_tail in Uv6. destruct Uv6 as [<- [= <-]].
  assert (redo_values w5 = [Some d]) as Rw5 by (injection O5 as _ _ ->; reflexivity).
  rewrite Rw5 in O6. cbn in O6.
  (* undo() with nothing to undo *)
  assert (can_undo (self w6) = false) as N6.
  { assert (undo_values w6 = []) as Uw6 by (injection O6 as _ -> _; reflexivity).
    unfold undo_values in Uw6. apply fmap_nil_inv in Uw6.
    unfold can_undo, len. rewrite Uw6. reflexivity. }
  (* redo() *)
  assert (redo_values w6 = [Some d] ++ [Some c]) as Rw6
    by (injection O6 as _ _ ->; reflexivity).
  destruct (redo_observe 2 w6 I6 (can_redo_of_values w6 [Some d] (Some c) Rw6))
    as (r8 & w8 & x8 & y8 & R8 & E8 & I8 & Cx8 & Rv8 & O8 & Dr8 & _).
  assert (current_value w6 = Some b) as Cw6 by (injection O6 as -> _ _; reflexivity).
  rewrite Cw6 in Cx8. injection Cx8 as <-.
  rewrite Rw6 in Rv8. apply app_inj_tail in Rv8. destruct Rv8 as [<- [= <-]].
  assert (undo_values w6 = []) as Uw6 by (injection O6 as _ -> _; reflexivity).
  rewrite Uw6 in O8. cbn in O8.
  exists hm, w1, w2, w3, w4, r5, w5, r6, w6, r8, w8.
  split; [exact E0 |]. split; [reflexivity |].
  split; [exact E1 |].
  split; [unfold observe; rewrite (current_value_of_values _ _ C1), U1, R1; reflexivity |].
  split; [exact E2 |].
  split; [unfold observe; rewrite (current_value_of_values _ _ C2), U2, R2; reflexivity |].
  split; [exact E3 |].
  split; [unfold observe; rewrite (current_value_of_values _ _ C3), U3, R3; reflexivity |].
  split; [exact E4 |].
  split; [unfold observe; rewrite (current_value_of_values _ _ C4), U4, R4; reflexivity |].
  split; [exact E5 |]. split; [exact Dr5 |]. split; [exact O5 |].
  split; [exact E6 |]. split; [exact Dr6 |]. split; [exact O6 |].
  split; [exact N6 |]. split; [exact (undo_empty w6 N6) |].
  split; [exact E8 |]. split; [exact Dr8 |]. exact O8.
Qed.

Lemma C7_scenario_witness :
  exists hm w1 w2 w3 w4 r5 w5 r6 w6 r8 w8,
    __init__ 2 = Ok hm /\ observe (mk_World [imgA; imgB; imgC; imgD] hm) = (None, [], []) /\
    add_state 0%nat (mk_World [imgA; imgB; imgC; imgD] hm) = Ok (tt, w1) /\
      observe w1 = (Some imgA, [], []) /\
    add_state 1%nat w1 = Ok (tt, w2) /\ observe w2 = (Some imgB, [Some imgA], []) /\
    add_state 2%nat w2 = Ok (tt, w3) /\
      observe w3 = (Some imgC, [Some imgA; Some imgB], []) /\
    add_state 3%nat w3 = Ok (tt, w4) /\
      observe w4 = (Some imgD, [Some imgB; Some imgC], []) /\
    undo w4 = Ok (Some r5, w5) /\ deref w5 r5 = Some imgC /\
      observe w5 = (Some imgC, [Some imgB], [Some imgD]) /\
    undo w5 = Ok (Some r6, w6) /\ deref w6 r6 = Some imgB /\
      observe w6 = (Some imgB, [], [Some imgD; Some imgC]) /\
    can_undo (self w6) = false /\ undo w6 = Ok (None, w6) /\
    redo w6 = Ok (Some r8, w8) /\ deref w8 r8 = Some imgC /\
      observe w8 = (Some imgC, [Some imgB], [Some imgD]).
Proof.
  apply (C7_scenario [imgA; imgB; imgC; imgD] 0%nat 1%nat 2%nat 3%nat); reflexivity.
Defined.

(** C8: on every world, [initialize_state] does what [clear_history]
    followed by setting [current] to a copy of the image does: both
    stacks empty, [current] equal to the image. *)
Theorem C8_initialize_state (w : World) (image : ref) :
  initialize_state image w = spec_initializeState image w /\
  forall x : ndarray,
    deref w image = Some x ->
    exists w',
      initialize_state image w = Ok (tt, w') /\
      items (_history_stack (self w')) = [] /\
      items (_redo_stack (self w')) = [] /\
      history_count (self w') = 0 /\
      can_undo (self w') = false /\ can_redo (self w') = false /\
      current_value w' = Some x.
Proof.
  destruct w as [h [hs rs mh cur]]. split.
  - unfold spec_initializeState. rewrite clear_history_eq. fields.
    destruct (h !! image) as [x|] eqn:Hx.
    + apply (initialize_state_eq _ _ _ _ _ _ _ Hx).
    + run_method. rewrite Hx. reflexivity.
  - intros x Hx. unfold deref in Hx. cbn in Hx.
    eexists. split; [apply (initialize_state_eq _ _ _ _ _ _ _ Hx) |].
    repeat (split; [reflexivity |]).
    unfold current_value, deref. cbn.
    rewrite lookup_app_r by lia. rewrite Nat.sub_diag. reflexivity.
Qed.

Lemma C8_initialize_state_witness :
  (items (_history_stack (self edited2)) <> [] /\
   items (_redo_stack (self edited2)) <> []) /\
  initialize_state 3%nat edited2 = spec_initializeState 3%nat edited2 /\
  exists w',
    initialize_state 3%nat edited2 = Ok (tt, w') /\
    items (_history_stack (self w')) = [] /\
    items (_redo_stack (self w')) = [] /\
    history_count (self w') = 0 /\
    can_undo (self w') = false /\ can_redo (self w') = false /\
    current_value w' = Some imgD.
Proof.
  split; [split; vm_compute; discriminate |].
  destruct (C8_initialize_state edited2 3%nat) as [E P].
  split; [exact E | apply P; reflexivity].
Defined.

(** C9: in a reachable world [get_current_state] returns, changes neither
    the manager nor any existing object, and returns [None] when
    [current] is absent and otherwise a fresh array with the contents of
    [current]; whatever the caller then writes into that array, the next
    [get_current_state] returns the same contents again. *)
Theorem C9_get_current_state_pure (m : Z) (w : World) :
  reachable m w ->
  exists r w',
    get_current_state w = Ok (r, w') /\
    self w' = self w /\ observe w' = observe w /\
    (forall q, valid (objects w) q -> deref w' q = deref w q) /\
    match r with
    | None => _current_state (self w) = None /\ w' = w
    | Some r' =>
        is_Some (current_value w) /\ deref w' r' = current_value w /\
        ~ valid (objects w) r' /\ (r' ∉ owned (self w')) /\
        forall a' : ndarray,
          exists r2 w2,
            get_current_state (client_write r' a' w') = Ok (Some r2, w2) /\
            deref w2 r2 = current_value w
    end.
Proof.
  intros R. apply reachable_inv in R.
  destruct w as [h [hs rs mh [c|]]].
  - destruct (inv_current _ _ _ R eq_refl) as [a Ha]. cbn in Ha.
    pose proof (inv_refs _ _ R) as V. cbn in V.
    pose proof V as V'. unfold owned in V'. cbn in V'.
    apply Forall_cons in V'. destruct V' as [Vc V'].
    apply Forall_app in V'. destruct V' as [Vh Vr].
    exists (Some (length h)). eexists.
    split; [apply (get_current_state_some _ _ _ _ _ _ Ha) |].
    split; [reflexivity |].
    split.
    { unfold observe, current_value, undo_values, redo_values. fields.
      set (hm := mk_HistoryManager hs rs mh (Some c)).
      rewrite (derefs_grow h [a] hm hm _ Vh), (derefs_grow h [a] hm hm _ Vr).
      cbn [mbind option_bind]. rewrite (deref_grow h [a] hm hm _ Vc). reflexivity. }
    split; [intros q Vq; apply deref_grow, Vq |].
    unfold current_value, deref. fields. cbn [mbind option_bind]. rewrite Ha.
    split; [eexists; reflexivity |].
    split; [apply lookup_fresh |].
    split; [unfold valid; lia |].
    split; [apply fresh_not_in with (h := h); [exact V | unfold valid; lia] |].
    intros a'. do 2 eexists. split.
    + unfold client_write. fields. apply get_current_state_some.
      rewrite list_lookup_insert_ne by (unfold valid in Vc; lia).
      rewrite lookup_grow by exact Vc. exact Ha.
    + cbn [objects]. apply lookup_fresh.
  - exists None. eexists.
    split; [apply get_current_state_none |].
    split; [reflexivity |]. split; [reflexivity |].
    split; [reflexivity |]. split; reflexivity.
Qed.

Lemma C9_get_current_state_pure_witness :
  exists r w',
    get_current_state edited2 = Ok (r, w') /\
    self w' = self edited2 /\ observe w' = observe edited2 /\
    (forall q, valid (objects edited2) q -> deref w' q = deref edited2 q) /\
    match r with
    | None => _current_state (self edited2) = None /\ w' = edited2
    | Some r' =>
        is_Some (current_value edited2) /\ deref w' r' = current_value edited2 /\
        ~ valid (objects edited2) r' /\ (r' ∉ owned (self w')) /\
        forall a' : ndarray,
          exists r2 w2,
            get_current_state (client_write r' a' w') = Ok (Some r2, w2) /\
            deref w2 r2 = current_value edited2
    end.
Proof.
  exact (C9_get_current_state_pure 2 edited2 reachable_edited2).
Defined.

(** C10: in every reachable world the two stacks together hold at most
    [m] snapshots, and whenever either stack is non-empty [current] is
    present (and names an object). *)
Theorem C10_combined_bound (m : Z) (w : World) :
  reachable m w ->
  len (_history_stack (self w)) + len (_redo_stack (self w)) <= m /\
  (items (_history_stack (self w)) <> [] \/ items (_redo_stack (self w)) <> [] ->
   exists c a, _current_state (self w) = Some c /\ deref w c = Some a).
Proof.
  intros R. apply reachable_inv in R. split; [apply (inv_total _ _ R) |].
  intros N. destruct (_current_state (self w)) as [c|] eqn:E.
  - destruct (inv_current _ _ _ R E) as [a Ha]. exists c, a. split; [reflexivity | exact Ha].
  - destruct (inv_cur _ _ R E) as [E1 E2]. destruct N as [N | N]; congruence.
Qed.

Lemma C10_combined_bound_witness :
  len (_history_stack (self edited2)) + len (_redo_stack (self edited2)) <= 2 /\
  exists c a, _current_state (self edited2) = Some c /\ deref edited2 c = Some a.
Proof.
  destruct (C10_combined_bound 2 edited2 reachable_edited2) as [B P].
  split; [exact B |]. apply P. left. vm_compute. discriminate.
Defined.

(** * Further properties *)

(** X1: [redo] mirrors [undo].  In a reachable world with something to
    redo, [redo] returns a fresh array holding what was at the tail of
    the redo stack; that becomes [current], the old [current] goes to the
    tail of the undo stack, one stack grows by one and the other shrinks
    by one, and nothing the caller writes into the returned array shows
    in the manager. *)
Theorem X1_redo_moves_one (m : Z) (w : World) :
  reachable m w -> can_redo (self w) = true ->
  exists r w' a b,
    redo w = Ok (Some r, w') /\
    current_value w = Some a /\ last (redo_values w) = Some (Some b) /\
    current_value w' = Some b /\ deref w' r = Some b /\
    undo_values w' = undo_values w ++ [Some a] /\
    redo_values w = redo_values w' ++ [Some b] /\
    history_count (self w') = history_count (self w) + 1 /\
    len (_redo_stack (self w')) = len (_redo_stack (self w)) - 1 /\
    ~ valid (objects w) r /\
    forall a' : ndarray, observe (client_write r a' w') = observe w'.
Proof.
  intros R U. apply reachable_inv in R.
  destruct (redo_observe m w R U) as (r & w' & a & b & R' & E & _ & Ca & Rv & O & Dr & Nr & Fr & _).
  injection O as Oc Ou Or.
  exists r, w', a, b.
  split; [exact E |]. split; [exact Ca |].
  split; [rewrite Rv; apply last_snoc |].
  split; [exact Oc |]. split; [exact Dr |].
  split; [exact Ou |]. split; [rewrite Or; exact Rv |].
  split; [rewrite !history_count_values, Ou, length_app; cbn; lia |].
  split; [rewrite !redo_count_values, Rv, Or, length_app; cbn; lia |].
  split; [exact Fr |].
  intros a'. apply write_outside, Nr.
Qed.

Lemma X1_redo_moves_one_witness :
  exists r w' a b,
    redo edited2 = Ok (Some r, w') /\
    current_value edited2 = Some a /\ last (redo_values edited2) = Some (Some b) /\
    current_value w' = Some b /\ deref w' r = Some b /\
    undo_values w' = undo_values edited2 ++ [Some a] /\
    redo_values edited2 = redo_values w' ++ [Some b] /\
    history_count (self w') = history_count (self edited2) + 1 /\
    len (_redo_stack (self w')) = len (_redo_stack (self edited2)) - 1 /\
    ~ valid (objects edited2) r /\
    forall a' : ndarray, observe (client_write r a' w') = observe w'.
Proof.
  apply (X1_redo_moves_one 2 edited2 reachable_edited2). reflexivity.
Defined.

(** X2: [undo] then [redo], and [redo] then [undo], bring back the whole
    observable state (contents of [current] and of both stacks), not only
    [current]. *)
Theorem X2_round_trips (m : Z) (w : World) :
  reachable m w ->
  (can_undo (self w) = true ->
   exists r1 w1 r2 w2,
     undo w = Ok (Some r1, w1) /\ redo w1 = Ok (Some r2, w2) /\
     observe w2 = observe w /\ deref w2 r2 = current_value w) /\
  (can_redo (self w) = true ->
   exists r1 w1 r2 w2,
     redo w = Ok (Some r1, w1) /\ undo w1 = Ok (Some r2, w2) /\
     observe w2 = observe w /\ deref w2 r2 = current_value w).
Proof.
  intros R. apply reachable_inv in R. split; intros U.
  - destruct (undo_observe m w R U) as (r1 & w1 & a & b & U' & E1 & I1 & Ca & Uv & O1 & _).
    injection O1 as Oc Ou Or.
    destruct (redo_observe m w1 I1 (can_redo_of_values _ _ _ Or))
      as (r2 & w2 & a2 & b2 & R2 & E2 & _ & Ca2 & Rv2 & O2 & D2 & _).
    rewrite Oc in Ca2. injection Ca2 as <-.
    rewrite Or in Rv2. apply app_inj_tail in Rv2. destruct Rv2 as [<- [= <-]].
    exists r1, w1, r2, w2. split; [exact E1 |]. split; [exact E2 |].
    split; [| rewrite Ca; exact D2].
    rewrite O2, Ou. unfold observe. rewrite Ca, Uv. reflexivity.
  - destruct (redo_observe m w R U) as (r1 & w1 & a & b & R' & E1 & I1 & Ca & Rv & O1 & _).
    injection O1 as Oc Ou Or.
    destruct (undo_observe m w1 I1 (can_undo_of_values _ _ _ Ou))
      as (r2 & w2 & a2 & b2 & U2 & E2 & _ & Ca2 & Uv2 & O2 & D2 & _).
    rewrite Oc in Ca2. injection Ca2 as <-.
    rewrite Ou in Uv2. apply app_inj_tail in Uv2. destruct Uv2 as [<- [= <-]].
    exists r1, w1, r2, w2. split; [exact E1 |]. split; [exact E2 |].
    split; [| rewrite Ca; exact D2].
    rewrite O2, Or. unfold observe. rewrite Ca, Rv. reflexivity.
Qed.

Lemma X2_round_trips_witness :
  (exists r1 w1 r2 w2,
     undo edited2 = Ok (Some r1, w1) /\ redo w1 = Ok (Some r2, w2) /\
     observe w2 = observe edited2 /\ deref w2 r2 = current_value edited2) /\
  (exists r1 w1 r2 w2,
     redo edited2 = Ok (Some r1, w1) /\ undo w1 = Ok (Some r2, w2) /\
     observe w2 = observe edited2 /\ deref w2 r2 = current_value edited2).
Proof.
  destruct (X2_round_trips 2 edited2 reachable_edited2) as [U R].
  split; [apply U | apply R]; reflexivity.
Defined.

(** X3: a commit followed by [undo] (what a caller does to roll back a
    failed edit).  With a positive bound and [current] present, [undo]
    returns the old contents of [current] and [current] holds them again;
    the committed image is left in the redo stack, alone; the undo stack
    is as before unless it was full, in which case its oldest entry is
    gone. *)
Theorem X3_add_state_then_undo (m : Z) (w : World) (image : ref) (a : ndarray) :
  reachable m w -> 0 < m -> valid (objects w) image -> current_value w = Some a ->
  exists w1 r w2,
    add_state image w = Ok (tt, w1) /\ undo w1 = Ok (Some r, w2) /\
    deref w2 r = Some a /\
    observe w2 = (Some a, last_n (Z.to_nat m - 1) (undo_values w), [deref w image]) /\
    (history_count (self w) < m -> undo_values w2 = undo_values w).
Proof.
  intros R P V Ca. apply reachable_inv in R.
  destruct (add_state_values m w image R V) as (w1 & E1 & I1 & U1 & C1 & _).
  pose proof (add_state_redo_empty m image w tt w1 R E1) as R1.
  rewrite (current_values_of_value _ _ Ca) in U1.
  rewrite last_n_snoc in U1 by lia.
  destruct (undo_observe m w1 I1 (can_undo_of_values _ _ _ U1))
    as (r & w2 & a1 & b1 & U2 & E2 & _ & Ca1 & Uv1 & O2 & D2 & _).
  rewrite U1 in Uv1. apply app_inj_tail in Uv1. destruct Uv1 as [<- [= <-]].
  rewrite (current_values_of_value _ _ Ca1) in C1. injection C1 as C1.
  exists w1, r, w2. split; [exact E1 |]. split; [exact E2 |]. split; [exact D2 |].
  split; [rewrite O2, R1, C1; reflexivity |].
  intros L. injection O2 as _ Ou _. rewrite Ou.
  apply last_n_all. rewrite history_count_values in L. lia.
Qed.

Lemma X3_add_state_then_undo_witness :
  exists w1 r w2,
    add_state 3%nat edited2 = Ok (tt, w1) /\ undo w1 = Ok (Some r, w2) /\
    deref w2 r = Some imgB /\
    observe w2 = (Some imgB, last_n (Z.to_nat 2 - 1) (undo_values edited2),
                  [deref edited2 3%nat]) /\
    (history_count (self edited2) < 2 -> undo_values w2 = undo_values edited2).
Proof.
  apply (X3_add_state_then_undo 2 edited2 3%nat imgB reachable_edited2).
  - lia.
  - unfold valid. vm_compute. lia.
  - reflexivity.
Defined.

(** X4: a manager constructed with bound 0 never has anything to undo or
    redo: in every reachable world both stacks are empty and [undo] and
    [redo] return [None] without changing anything. *)
Theorem X4_zero_bound_keeps_nothing (w : World) :
  reachable 0 w ->
  undo_values w = [] /\ redo_values w = [] /\
  undo w = Ok (None, w) /\ redo w = Ok (None, w).
Proof.
  intros R. apply reachable_inv in R. pose proof (inv_total _ _ R) as T.
  unfold len in T.
  assert (items (_history_stack (self w)) = []) as Eh
    by (destruct (items (_history_stack (self w))); [reflexivity | cbn in T; lia]).
  assert (items (_redo_stack (self w)) = []) as Er
    by (destruct (items (_redo_stack (self w))); [reflexivity | cbn in T; lia]).
  unfold undo_values, redo_values. rewrite Eh, Er.
  split; [reflexivity |]. split; [reflexivity |].
  split; [apply undo_empty, can_undo_false, Eh | apply redo_empty, can_redo_false, Er].
Qed.

Lemma X4_zero_bound_keeps_nothing_witness :
  current_value zero0 = Some imgB /\
  undo_values zero0 = [] /\ redo_values zero0 = [] /\
  undo zero0 = Ok (None, zero0) /\ redo zero0 = Ok (None, zero0).
Proof.
  split; [reflexivity |].
  apply X4_zero_bound_keeps_nothing.
  apply (reachable_run 0 [AddState 0%nat; AddState 1%nat; Undo]
           (mk_World [imgA; imgB]
              (mk_HistoryManager (mk_deque [] 0) (mk_deque [] 0) 0 None))).
  - apply reach_init. reflexivity.
  - reflexivity.
Defined.

(** ** No object is held twice *)

Lemma NoDup_items_append x d :
  NoDup (items d) -> x ∉ items d -> NoDup (items (append x d)).
Proof.
  intros N F.
  assert (NoDup (items d ++ [x])) as N'.
  { apply NoDup_app. split; [exact N |]. split; [| apply NoDup_singleton].
    intros y Hy Hx. apply list_elem_of_singleton in Hx. subst y. apply F, Hy. }
  unfold append. destruct (_ <? _); cbn [items]; [| exact N'].
  eapply sublist_NoDup; [exact N' | apply sublist_drop].
Qed.

Lemma fresh_not_valid (h : heap) (l : list ref) (n : nat) :
  Forall (valid h) l -> (length h + n)%nat ∉ l.
Proof. intros V. apply fresh_not_in with (h := h); [exact V | unfold valid; lia]. Qed.

Lemma NoDup_move (c p n : ref) (hl rs : list ref) :
  NoDup (c :: (hl ++ [p]) ++ rs) -> n ∉ hl -> n ∉ rs -> n <> p ->
  NoDup (p :: hl ++ rs ++ [n]).
Proof.
  intros N Fh Fr Fp. apply NoDup_cons in N. destruct N as [_ N].
  assert (p :: hl ++ rs ++ [n] ≡ₚ n :: (hl ++ [p]) ++ rs) as -> by solve_Permutation.
  apply NoDup_cons. split; [| exact N].
  intros E. apply elem_of_app in E. destruct E as [E | E]; [| exact (Fr E)].
  apply elem_of_app in E. destruct E as [E | E]; [exact (Fh E) |].
  apply list_elem_of_singleton in E. exact (Fp E).
Qed.

Lemma nodup_exec m o w w' :
  inv m w -> NoDup (owned (self w)) -> exec o w = Ok w' -> NoDup (owned (self w')).
Proof.
  intros I N. destruct o; cbn [exec]; unfold forget.
  - destruct w as [h [hs rs mh [c|]]].
    + destruct (inv_current _ _ _ I eq_refl) as [a Ha]. cbn in Ha.
      destruct ((h ++ [a]) !! image) as [x|] eqn:Hx.
      2: { run_method. rewrite Ha. fields. rewrite Hx. discriminate. }
      rewrite (add_state_next_gen _ _ _ _ _ _ _ _ Hx Ha). intros [= <-].
      pose proof (inv_refs _ _ I) as V. unfold owned in V, N |- *. cbn in V, N |- *.
      apply Forall_cons in V. destruct V as [_ V]. apply Forall_app in V. destruct V as [Vh _].
      apply NoDup_cons in N. destruct N as [_ N]. apply NoDup_app in N. destruct N as [Nh _].
      rewrite app_nil_r. apply NoDup_cons. split.
      * intros E. apply items_append_incl in E. destruct E as [E | E]; [| lia].
        revert E. replace (S (length h)) with (length h + 1)%nat by lia.
        apply fresh_not_valid, Vh.
      * apply NoDup_items_append; [exact Nh |].
        replace (length h) with (length h + 0)%nat by lia. apply fresh_not_valid, Vh.
    + destruct (h !! image) as [x|] eqn:Hx.
      2: { run_method. rewrite Hx. discriminate. }
      rewrite (add_state_first _ _ _ _ _ _ Hx). intros [= <-].
      destruct (inv_cur _ _ I eq_refl) as [E1 _]. cbn in E1.
      unfold owned. cbn. rewrite E1. apply NoDup_singleton.
  - destruct (can_undo (self w)) eqn:U.
    2: { rewrite undo_empty by exact U. intros [= <-]. exact N. }
    destruct (inv_can_undo m w I U)
      as (h & hl & p & rs & c & a & b & -> & Ha & Hb & Mr & T & Vh & Vr).
    rewrite (undo_step _ _ _ _ _ _ _ _ _ Ha Hb). intros [= <-].
    pose proof (len_nonneg (mk_deque hl m)). rewrite append_fits by lia.
    unfold owned in N |- *. cbn in N |- *.
    apply Forall_cons in Vh. destruct Vh as [_ Vh]. apply Forall_app in Vh. destruct Vh as [Vl Vp].
    rewrite Forall_singleton in Vp.
    pose proof (fresh_not_valid h _ 0 Vl) as F1. pose proof (fresh_not_valid h _ 0 Vr) as F2.
    rewrite Nat.add_0_r in F1, F2.
    apply (NoDup_move c); [exact N | exact F1 | exact F2 | unfold valid in Vp; lia].
  - destruct (can_redo (self w)) eqn:U.
    2: { rewrite redo_empty by exact U. intros [= <-]. exact N. }
    destruct (inv_can_redo m w I U)
      as (h & hs & rl & p & c & a & b & -> & Ha & Hb & Mh & T & Vr & Vh).
    rewrite (redo_step _ _ _ _ _ _ _ _ _ Ha Hb). intros [= <-].
    pose proof (len_nonneg (mk_deque rl m)). rewrite append_fits by lia.
    unfold owned in N |- *. cbn in N |- *.
    apply Forall_cons in Vr. destruct Vr as [_ Vr]. apply Forall_app in Vr. destruct Vr as [Vl Vp].
    rewrite Forall_singleton in Vp.
    pose proof (fresh_not_valid h _ 0 Vl) as F1. pose proof (fresh_not_valid h _ 0 Vh) as F2.
    rewrite Nat.add_0_r in F1, F2.
    assert (p :: (items hs ++ [length h]) ++ rl ≡ₚ p :: rl ++ items hs ++ [length h]) as ->
      by solve_Permutation.
    apply (NoDup_move c); [| exact F1 | exact F2 | unfold valid in Vp; lia].
    assert (c :: (rl ++ [p]) ++ items hs ≡ₚ c :: items hs ++ rl ++ [p]) as ->
      by solve_Permutation.
    exact N.
  - destruct w as [h [hs rs mh cur]]. rewrite clear_history_eq. intros [= <-].
    unfold owned. cbn. apply NoDup_nil_2.
  - destruct w as [h [hs rs mh [c|]]].
    + destruct (inv_current _ _ _ I eq_refl) as [a Ha]. cbn in Ha.
      rewrite (get_current_state_some _ _ _ _ _ _ Ha). intros [= <-]. exact N.
    + rewrite get_current_state_none. intros [= <-]. exact N.
  - destruct w as [h [hs rs mh cur]].
    destruct (h !! image) as [x|] eqn:Hx.
    2: { run_method. rewrite Hx. discriminate. }
    rewrite (initialize_state_eq _ _ _ _ _ _ _ Hx). intros [= <-].
    unfold owned. cbn. apply NoDup_singleton.
  - destruct (get_memory_usage w) as [[u w1]|e] eqn:E; [| discriminate].
    apply get_memory_usage_pure in E. subst w1. intros [= <-]. exact N.
Qed.

(** X5: the manager never holds one array object twice: in every
    reachable world the references in [current], the undo stack and the
    redo stack are pairwise distinct. *)
Theorem X5_no_object_held_twice (m : Z) (w : World) :
  reachable m w -> NoDup (owned (self w)).
Proof.
  induction 1 as [h hm H | o w w' R IH E | a w _ IH | r a w _ IH _].
  - apply init_ok in H. destruct H as [-> _]. apply NoDup_nil_2.
  - eapply nodup_exec; [apply reachable_inv, R | exact IH | exact E].
  - exact IH.
  - exact IH.
Qed.

Lemma X5_no_object_held_twice_witness :
  NoDup (owned (self edited2)) /\ length (owned (self edited2)) = 3%nat.
Proof.
  split; [exact (X5_no_object_held_twice 2 edited2 reachable_edited2) | reflexivity].
Defined.

(** X6: [add_state] and [initialize_state] keep a copy, not the caller's
    array: when the image is the caller's own, [current] afterwards has
    the image's contents but the manager does not hold the image, so
    whatever the caller later writes into it shows nowhere in the manager. *)
Theorem X6_commit_copies_the_image (m : Z) (w : World) (image : ref) :
  reachable m w -> valid (objects w) image -> image ∉ owned (self w) ->
  (exists w',
     add_state image w = Ok (tt, w') /\
     current_value w' = deref w image /\ (image ∉ owned (self w')) /\
     forall a' : ndarray, observe (client_write image a' w') = observe w') /\
  (exists w',
     initialize_state image w = Ok (tt, w') /\
     current_value w' = deref w image /\ (image ∉ owned (self w')) /\
     forall a' : ndarray, observe (client_write image a' w') = observe w').
Proof.
  intros R V N. apply reachable_inv in R.
  destruct (lookup_valid _ _ V) as [x Hx].
  assert (forall w', image ∉ owned (self w') ->
            forall a' : ndarray, observe (client_write image a' w') = observe w') as W
    by (intros w' N' a'; apply write_outside, N').
  destruct w as [h [hs rs mh cur]]. cbn in Hx, V. unfold deref. cbn [objects].
  assert (image <> length h /\ image <> S (length h)) as [D0 D1]
    by (unfold valid in V; lia).
  split.
  - destruct cur as [c|].
    + destruct (inv_current _ _ _ R eq_refl) as [a Ha]. cbn in Ha.
      eexists. split; [apply (add_state_next _ _ _ _ _ _ _ _ Hx Ha) |].
      assert (image ∉ owned (mk_HistoryManager (append (length h) hs) (clear rs) mh
                              (Some (S (length h))))) as N'.
      { unfold owned in N |- *. cbn in N |- *. rewrite app_nil_r.
        apply not_elem_of_cons in N. destruct N as [_ N].
        apply not_elem_of_app in N. destruct N as [Nh _].
        apply not_elem_of_cons. split; [exact D1 |].
        intros E. apply items_append_incl in E. destruct E as [E | E]; [exact (Nh E) | exact (D0 E)]. }
      split; [| split; [exact N' | apply W, N']].
      unfold current_value, deref. cbn. rewrite lookup_fresh_next. symmetry. exact Hx.
    + eexists. split; [apply (add_state_first _ _ _ _ _ _ Hx) |].
      destruct (inv_cur _ _ R eq_refl) as [E1 _]. cbn in E1.
      assert (image ∉ owned (mk_HistoryManager hs (clear rs) mh (Some (length h)))) as N'.
      { unfold owned. cbn. rewrite E1. cbn. intros E.
        apply list_elem_of_singleton in E. exact (D0 E). }
      split; [| split; [exact N' | apply W, N']].
      unfold current_value, deref. cbn. rewrite lookup_fresh. symmetry. exact Hx.
  - eexists. split; [apply (initialize_state_eq _ _ _ _ _ _ _ Hx) |].
    assert (image ∉ owned (mk_HistoryManager (clear hs) (clear rs) mh (Some (length h)))) as N'.
    { unfold owned. cbn. intros E. apply list_elem_of_singleton in E. exact (D0 E). }
    split; [| split; [exact N' | apply W, N']].
    unfold current_value, deref. cbn. rewrite lookup_fresh. symmetry. exact Hx.
Qed.

Lemma X6_commit_copies_the_image_witness :
  (exists w',
     add_state 3%nat edited2 = Ok (tt, w') /\
     current_value w' = deref edited2 3%nat /\ (3%nat ∉ owned (self w')) /\
     forall a' : ndarray, observe (client_write 3%nat a' w') = observe w') /\
  (exists w',
     initialize_state 3%nat edited2 = Ok (tt, w') /\
     current_value w' = deref edited2 3%nat /\ (3%nat ∉ owned (self w')) /\
     forall a' : ndarray, observe (client_write 3%nat a' w') = observe w').
Proof.
  apply (X6_commit_copies_the_image 2 edited2 3%nat reachable_edited2).
  - unfold valid. vm_compute. lia.
  - vm_compute. intros E. repeat (apply elem_of_cons in E; destruct E as [E | E]; [lia |]).
    inversion E.
Defined.

(** ** Memory accounting *)

Lemma sum_nbytes_spec (h : heap) (l : list ref) (n : nat) :
  sum_nbytes h l = Ok n -> n = bytes_of ((fun r => h !! r) <$> l).
Proof.
  revert n. induction l as [|r l IH]; intros n; cbn [sum_nbytes].
  - intros [= <-]. reflexivity.
  - destruct (h !! r) as [a|] eqn:Ha; [| discriminate].
    destruct (sum_nbytes h l) as [k|e]; [| discriminate].
    intros [= <-]. unfold bytes_of in *. cbn. rewrite Ha. cbn.
    rewrite (IH k eq_refl). reflexivity.
Qed.

(** X7: [get_memory_usage] in a reachable world raises nothing and
    changes nothing; it reports the two stack lengths (together at most
    the bound), the bytes held by each stack and by [current], and their
    sum. *)
Theorem X7_memory_usage_report (m : Z) (w : World) :
  reachable m w ->
  exists u,
    get_memory_usage w = Ok (u, w) /\
    usage_history_count u = length (undo_values w) /\
    usage_redo_count u = length (redo_values w) /\
    Z.of_nat (usage_history_count u + usage_redo_count u) <= m /\
    usage_history_size u = bytes_of (undo_values w) /\
    usage_redo_size u = bytes_of (redo_values w) /\
    usage_current_size u = bytes_of (current_values w) /\
    usage_total_size u
    = (bytes_of (undo_values w) + bytes_of (redo_values w)
       + bytes_of (current_values w))%nat.
Proof.
  intros R. apply reachable_inv in R.
  pose proof (inv_refs _ _ R) as V. unfold owned in V.
  apply Forall_app in V. destruct V as [Vc V].
  apply Forall_app in V. destruct V as [Vh Vr].
  destruct (sum_nbytes_valid _ _ Vc) as [nc Ec].
  destruct (sum_nbytes_valid _ _ Vh) as [nh Eh].
  destruct (sum_nbytes_valid _ _ Vr) as [nr Er].
  pose proof (inv_total _ _ R) as T. unfold len in T.
  eexists. split.
  { unfold get_memory_usage, bind, get_self. rewrite Eh, Er, Ec.
    destruct w. reflexivity. }
  apply sum_nbytes_spec in Ec, Eh, Er.
  unfold undo_values, redo_values, current_values, deref. cbn.
  rewrite !length_fmap, <- Ec, <- Eh, <- Er.
  repeat split; lia.
Qed.

Lemma X7_memory_usage_report_witness :
  exists u,
    get_memory_usage edited2 = Ok (u, edited2) /\
    usage_history_count u = length (undo_values edited2) /\
    usage_redo_count u = length (redo_values edited2) /\
    Z.of_nat (usage_history_count u + usage_redo_count u) <= 2 /\
    usage_history_size u = bytes_of (undo_values edited2) /\
    usage_redo_size u = bytes_of (redo_values edited2) /\
    usage_current_size u = bytes_of (current_values edited2) /\
    usage_total_size u
    = (bytes_of (undo_values edited2) + bytes_of (redo_values edited2)
       + bytes_of (current_values edited2))%nat.
Proof.
  exact (X7_memory_usage_report 2 edited2 reachable_edited2).
Defined.

(** ** Runs of calls *)

Lemma add_states_current m images :
  forall w, inv m w -> Forall (valid (objects w)) images -> images <> [] ->
  exists w',
    run (AddState <$> images) w = Ok w' /\
    current_value w' = last images ≫= deref w /\ redo_values w' = [].
Proof.
  induction images as [|x xs IH]; intros w I V N; [congruence |]. clear N.
  apply Forall_cons in V. destruct V as [Vx Vxs].
  destruct (add_state_values m w x I Vx) as (w1 & E1 & I1 & _ & C1 & G).
  pose proof (add_state_redo_empty m x w tt w1 I E1) as R1.
  destruct (G xs Vxs) as [Vxs1 _].
  cbn [fmap list_fmap run exec]. unfold forget. rewrite E1.
  destruct xs as [|y ys].
  - exists w1. split; [reflexivity |]. split; [| exact R1].
    apply current_value_of_values in C1. rewrite C1. reflexivity.
  - destruct (IH w1 I1 Vxs1 ltac:(discriminate)) as (w' & E' & C' & R').
    exists w'. split; [exact E' |]. split; [| exact R'].
    rewrite C'. rewrite (last_cons_cons x y ys).
    destruct (last (y :: ys)) as [q|] eqn:L; [| reflexivity]. cbn.
    assert (valid (objects w) q) as Vq.
    { rewrite Forall_forall in Vxs. apply Vxs. apply last_Some_elem_of, L. }
    destruct (G [q]) as [_ D]; [apply Forall_singleton, Vq |].
    injection D as D. exact D.
Qed.

(** X8: after any non-empty run of [add_state] calls, short or long,
    [current] holds the last image, the redo stack is empty, and the undo
    stack holds the last [m] of its former entries followed by the
    superseded states; while the undo stack has room nothing is evicted. *)
Theorem X8_commit_run (m : Z) (w : World) (images : list ref) :
  reachable m w -> Forall (valid (objects w)) images -> images <> [] ->
  exists w',
    run (AddState <$> images) w = Ok w' /\
    observe w'
    = (last images ≫= deref w,
       last_n (Z.to_nat m) (undo_values w ++ superseded w images),
       []) /\
    (history_count (self w) + Z.of_nat (length (superseded w images)) <= m ->
     undo_values w' = undo_values w ++ superseded w images).
Proof.
  intros R V N. apply reachable_inv in R.
  destruct (add_states_values m images w R V N) as (w' & E & _ & U).
  destruct (add_states_current m images w R V N) as (w'' & E' & C & Rd).
  rewrite E in E'. injection E' as <-.
  exists w'. split; [exact E |]. split.
  - unfold observe. rewrite C, U, Rd. reflexivity.
  - intros L. rewrite U. apply last_n_all.
    rewrite history_count_values in L. rewrite length_app. lia.
Qed.

Lemma X8_commit_run_witness :
  exists w',
    run (AddState <$> [1; 0]%nat) fresh2 = Ok w' /\
    observe w'
    = (last [1; 0]%nat ≫= deref fresh2,
       last_n (Z.to_nat 2) (undo_values fresh2 ++ superseded fresh2 [1; 0]%nat),
       []) /\
    (history_count (self fresh2) + Z.of_nat (length (superseded fresh2 [1; 0]%nat)) <= 2 ->
     undo_values w' = undo_values fresh2 ++ superseded fresh2 [1; 0]%nat).
Proof.
  apply (X8_commit_run 2 fresh2 [1; 0]%nat reachable_fresh2);
    [valid_refs | discriminate].
Defined.

Lemma timeline_undo m w :
  inv m w -> exists r w', undo w = Ok (r, w') /\ inv m w' /\ timeline w' = timeline w.
Proof.
  intros I. destruct (can_undo (self w)) eqn:U.
  - destruct (undo_observe m w I U) as (r & w' & a & b & U' & E & I' & Ca & Uv & O & _).
    injection O as Oc Ou Or.
    exists (Some r), w'. split; [exact E |]. split; [exact I' |].
    unfold timeline.
    rewrite (current_values_of_value _ _ Ca), (current_values_of_value _ _ Oc).
    rewrite Ou, Or, Uv, reverse_snoc, <- !app_assoc. reflexivity.
  - exists None, w. split; [apply undo_empty, U |]. split; [exact I | reflexivity].
Qed.

Lemma timeline_redo m w :
  inv m w -> exists r w', redo w = Ok (r, w') /\ inv m w' /\ timeline w' = timeline w.
Proof.
  intros I. destruct (can_redo (self w)) eqn:U.
  - destruct (redo_observe m w I U) as (r & w' & a & b & R' & E & I' & Ca & Rv & O & _).
    injection O as Oc Ou Or.
    exists (Some r), w'. split; [exact E |]. split; [exact I' |].
    unfold timeline.
    rewrite (current_values_of_value _ _ Ca), (current_values_of_value _ _ Oc).
    rewrite Ou, Or, Rv, reverse_snoc, <- !app_assoc. reflexivity.
  - exists None, w. split; [apply redo_empty, U |]. split; [exact I | reflexivity].
Qed.

(** X9: [undo] and [redo] only move along a fixed line of snapshots: any
    sequence of [undo] and [redo] calls, in any order and however long,
    raises nothing and leaves the sequence "undo stack, current, redo
    stack reversed" exactly as it was.  No snapshot is lost, duplicated
    or reordered by moving. *)
Theorem X9_moves_keep_timeline (m : Z) (os : list op) (w : World) :
  reachable m w -> Forall is_move os ->
  exists w', run os w = Ok w' /\ timeline w' = timeline w.
Proof.
  intros R. apply reachable_inv in R. revert w R.
  induction os as [|o os IH]; intros w I F.
  - exists w. split; reflexivity.
  - apply Forall_cons in F. destruct F as [Fo F].
    cbn [run]. destruct Fo as [-> | ->]; cbn [exec]; unfold forget.
    + destruct (timeline_undo m w I) as (r & w1 & E & I1 & T). rewrite E.
      destruct (IH w1 I1 F) as (w' & E' & T'). exists w'.
      split; [exact E' | rewrite T'; exact T].
    + destruct (timeline_redo m w I) as (r & w1 & E & I1 & T). rewrite E.
      destruct (IH w1 I1 F) as (w' & E' & T'). exists w'.
      split; [exact E' | rewrite T'; exact T].
Qed.

Lemma X9_moves_keep_timeline_witness :
  exists w',
    run [Undo; Undo; Redo; Undo; Redo; Redo; Redo] edited2 = Ok w' /\
    timeline w' = timeline edited2.
Proof.
  apply (X9_moves_keep_timeline 2 _ edited2 reachable_edited2).
  repeat (apply Forall_cons; split; [unfold is_move; auto |]). apply Forall_nil_2.
Defined.

(** X10: the bound never changes: in every reachable world
    [_max_history] and the [maxlen] of both deques are the constructor's
    argument, which lies between 0 and the largest machine index. *)
Theorem X10_bound_is_fixed (m : Z) (w : World) :
  reachable m w ->
  _max_history (self w) = m /\
  maxlen (_history_stack (self w)) = m /\ maxlen (_redo_stack (self w)) = m /\
  0 <= m <= PY_SSIZE_T_MAX.
Proof.
  intros R. pose proof (reachable_inv m w R) as I.
  split; [apply (inv_max _ _ I) |].
  split; [apply (inv_hmax _ _ I) |].
  split; [apply (inv_rmax _ _ I) |].
  induction R as [h hm H | o w w' R IH E | a w R IH | r a w R IH N].
  - apply init_ok in H. apply H.
  - apply IH, reachable_inv, R.
  - apply IH, reachable_inv, R.
  - apply IH, reachable_inv, R.
Qed.

Lemma X10_bound_is_fixed_witness :
  _max_history (self edited2) = 2 /\
  maxlen (_history_stack (self edited2)) = 2 /\ maxlen (_redo_stack (self edited2)) = 2 /\
  0 <= 2 <= PY_SSIZE_T_MAX.
Proof.
  exact (X10_bound_is_fixed 2 edited2 reachable_edited2).
Defined.

(** ** Nothing raises *)

(** Method calls only add objects. *)
Lemma exec_grows m o w w' :
  inv m w -> exec o w = Ok w' -> (length (objects w) <= length (objects w'))%nat.
Proof.
  intros I. destruct o; cbn [exec]; unfold forget.
  - destruct w as [h [hs rs mh [c|]]].
    + destruct (inv_current _ _ _ I eq_refl) as [a Ha]. cbn in Ha.
      destruct ((h ++ [a]) !! image) as [x|] eqn:Hx.
      2: { run_method. rewrite Ha. fields. rewrite Hx. discriminate. }
      rewrite (add_state_next_gen _ _ _ _ _ _ _ _ Hx Ha). intros [= <-].
      cbn. rewrite length_app. lia.
    + destruct (h !! image) as [x|] eqn:Hx.
      2: { run_method. rewrite Hx. discriminate. }
      rewrite (add_state_first _ _ _ _ _ _ Hx). intros [= <-].
      cbn. rewrite length_app. lia.
  - destruct (can_undo (self w)) eqn:U.
    2: { rewrite undo_empty by exact U. intros [= <-]. lia. }
    destruct (inv_can_undo m w I U)
      as (h & hl & p & rs & c & a & b & -> & Ha & Hb & _).
    rewrite (undo_step _ _ _ _ _ _ _ _ _ Ha Hb). intros [= <-].
    cbn. rewrite length_app. lia.
  - destruct (can_redo (self w)) eqn:U.
    2: { rewrite redo_empty by exact U. intros [= <-]. lia. }
    destruct (inv_can_redo m w I U)
      as (h & hs & rl & p & c & a & b & -> & Ha & Hb & _).
    rewrite (redo_step _ _ _ _ _ _ _ _ _ Ha Hb). intros [= <-].
    cbn. rewrite length_app. lia.
  - destruct w as [h [hs rs mh cur]]. rewrite clear_history_eq. intros [= <-]. cbn. lia.
  - destruct w as [h [hs rs mh [c|]]].
    + destruct (inv_current _ _ _ I eq_refl) as [a Ha]. cbn in Ha.
      rewrite (get_current_state_some _ _ _ _ _ _ Ha). intros [= <-].
      cbn. rewrite length_app. lia.
    + rewrite get_current_state_none. intros [= <-]. cbn. lia.
  - destruct w as [h [hs rs mh cur]].
    destruct (h !! image) as [x|] eqn:Hx.
    2: { run_method. rewrite Hx. discriminate. }
    rewrite (initialize_state_eq _ _ _ _ _ _ _ Hx). intros [= <-].
    cbn. rewrite length_app. lia.
  - destruct (get_memory_usage w) as [[u w1]|e] eqn:E; [| discriminate].
    apply get_memory_usage_pure in E. subst w1. intros [= <-]. lia.
Qed.

Lemma args_valid_grow o w w' :
  (length (objects w) <= length (objects w'))%nat -> args_valid o w -> args_valid o w'.
Proof. destruct o; cbn; unfold valid; try tauto; lia. Qed.

(** X11: no method raises.  From a reachable world, every sequence of
    method calls whose image arguments name existing arrays runs to the
    end: in particular [pop] is never reached on an empty deque. *)
Theorem X11_calls_never_raise (m : Z) (os : list op) (w : World) :
  reachable m w -> Forall (fun o => args_valid o w) os ->
  exists w', run os w = Ok w' /\ reachable m w'.
Proof.
  revert w. induction os as [|o os IH]; intros w R F.
  - exists w. split; [reflexivity | exact R].
  - apply Forall_cons in F. destruct F as [Fo F].
    pose proof (reachable_inv m w R) as I.
    destruct (exec_returns m o w I Fo) as [w1 E].
    cbn [run]. rewrite E. apply IH.
    + eapply reach_call; eassumption.
    + eapply Forall_impl; [exact F |]. intros o'.
      apply args_valid_grow. eapply exec_grows; eassumption.
Qed.

Lemma X11_calls_never_raise_witness :
  exists w',
    run [Undo; Undo; Undo; Redo; AddState 1%nat; Redo; GetMemoryUsage;
         InitializeState 0%nat; Undo; ClearHistory; GetCurrentState; Redo] edited2
    = Ok w' /\ reachable 2 w'.
Proof.
  apply (X11_calls_never_raise 2 _ edited2 reachable_edited2).
  repeat (apply Forall_cons; split; [cbn; unfold valid; try exact I; vm_compute; lia |]).
  apply Forall_nil_2.
Defined.

(** ** Arguments handed to OpenCV *)

(** X12: the kernel size [apply_blur] hands to [GaussianBlur] is always
    odd and at least 1: an even intensity from 0 on is raised by one, an
    odd positive intensity is passed on as it is, and anything below 1
    becomes 1.  The control panel makes the slider position odd in the
    same way before it sends it, so for a position from 1 on the
    processor changes nothing any more, and for positions 1 to 31 the
    size sent is odd and between 1 and 31. *)
Theorem X12_blur_kernel_odd (intensity : Z) :
  blur_kernel intensity mod 2 = 1 /\ 1 <= blur_kernel intensity /\
  (intensity mod 2 = 0 -> 0 <= intensity -> blur_kernel intensity = intensity + 1) /\
  (intensity mod 2 = 1 -> 1 <= intensity -> blur_kernel intensity = intensity) /\
  (intensity < 1 -> blur_kernel intensity = 1) /\
  (intensity mod 2 = 0 -> _apply_blur_intensity intensity = intensity + 1) /\
  (intensity mod 2 = 1 -> _apply_blur_intensity intensity = intensity) /\
  (1 <= intensity ->
   blur_kernel (_apply_blur_intensity intensity) = _apply_blur_intensity intensity) /\
  (1 <= intensity <= 31 ->
   1 <= blur_kernel (_apply_blur_intensity intensity) <= 31 /\
   intensity <= blur_kernel (_apply_blur_intensity intensity) <= intensity + 1).
Proof.
  unfold blur_kernel, _apply_blur_intensity.
  repeat match goal with
         | |- context [?a =? ?b] => destruct (Z.eqb_spec a b)
         end;
    repeat split; intros; Z.div_mod_to_equations; lia.
Qed.

Lemma X12_blur_kernel_odd_witness :
  blur_kernel 4 = 4 + 1 /\ blur_kernel 7 = 7 /\ blur_kernel (-4) = 1 /\
  _apply_blur_intensity 30 = 30 + 1 /\ _apply_blur_intensity 7 = 7 /\
  blur_kernel (_apply_blur_intensity 30) = _apply_blur_intensity 30 /\
  (1 <= blur_kernel (_apply_blur_intensity 30) <= 31 /\
   30 <= blur_kernel (_apply_blur_intensity 30) <= 30 + 1).
Proof.
  destruct (X12_blur_kernel_odd 4) as (_ & _ & E4 & _).
  destruct (X12_blur_kernel_odd 7) as (_ & _ & _ & E7 & _ & _ & S7 & _).
  destruct (X12_blur_kernel_odd (-4)) as (_ & _ & _ & _ & L & _).
  destruct (X12_blur_kernel_odd 30) as (_ & _ & _ & _ & _ & S30 & _ & K30 & B30).
  split; [apply E4; [reflexivity | lia] |].
  split; [apply E7; [reflexivity | lia] |].
  split; [apply L; lia |].
  split; [apply S30; reflexivity |].
  split; [apply S7; reflexivity |].
  split; [apply K30; lia | apply B30; lia].
Defined.

(** X13: [adjust_brightness] hands OpenCV an amount between 0 and 100: a
    value in [-100, 100] is used as it is, anything beyond is treated as
    -100 or 100; non-negative values are added and negative ones
    subtracted by their magnitude. *)
Theorem X13_brightness_amount (F : Type) (value : Z) :
  -100 <= clamp_brightness value <= 100 /\
  (-100 <= value <= 100 -> clamp_brightness value = value) /\
  (0 <= value -> @brightness_call F value = cv2_add (Z.min 100 value)) /\
  (value < 0 -> @brightness_call F value = cv2_subtract (Z.min 100 (- value))) /\
  exists k, 0 <= k <= 100 /\
    (@brightness_call F value = cv2_add k \/ @brightness_call F value = cv2_subtract k).
Proof.
  unfold brightness_call, clamp_brightness.
  split; [lia |]. split; [lia |].
  split; [| split].
  - intros P. destruct (Z.leb_spec 0 (Z.max (-100) (Z.min 100 value))); [| lia].
    f_equal. lia.
  - intros P. destruct (Z.leb_spec 0 (Z.max (-100) (Z.min 100 value))); [lia |].
    f_equal. lia.
  - destruct (Z.leb_spec 0 (Z.max (-100) (Z.min 100 value))).
    + eexists. split; [| left; reflexivity]. lia.
    + eexists. split; [| right; reflexivity]. lia.
Qed.

Lemma X13_brightness_amount_witness :
  clamp_brightness 40 = 40 /\
  @brightness_call Z 250 = cv2_add (Z.min 100 250) /\
  @brightness_call Z (-250) = cv2_subtract (Z.min 100 (- (-250))).
Proof.
  split; [apply (X13_brightness_amount Z 40); lia |].
  split; [apply (X13_brightness_amount Z 250); lia
         | apply (X13_brightness_amount Z (-250)); lia].
Defined.

(** ** File names *)

Lemma split_slash_cons s : exists seg rest, split_slash s = seg :: rest.
Proof.
  destruct s as [|c s]; cbn [split_slash]; [eauto |].
  destruct (bool_decide (c = slash)); [eauto |].
  destruct (split_slash s); eauto.
Qed.

Lemma join_slash_cons c seg rest :
  join_slash (String c seg :: rest) = String c (join_slash (seg :: rest)).
Proof. destruct rest; reflexivity. Qed.

Lemma join_slash_two x y l :
  join_slash (x :: y :: l) = x +:+ String slash (join_slash (y :: l)).
Proof. reflexivity. Qed.

Lemma join_split_slash s : join_slash (split_slash s) = s.
Proof.
  induction s as [|c s IH]; [reflexivity |]. cbn [split_slash].
  destruct (split_slash_cons s) as (seg & rest & E). rewrite E in IH |- *.
  destruct (bool_decide_reflect (c = slash)) as [-> | N].
  - rewrite join_slash_two, IH. reflexivity.
  - rewrite join_slash_cons, IH. reflexivity.
Qed.

Lemma split_slash_no_slash s : Forall no_slash (split_slash s).
Proof.
  induction s as [|c s IH]; cbn [split_slash]; [repeat constructor |].
  destruct (bool_decide_reflect (c = slash)) as [-> | N].
  - apply Forall_cons. split; [exact I | exact IH].
  - destruct (split_slash s) as [|seg rest]; [repeat constructor; assumption |].
    apply Forall_cons in IH. destruct IH as [Hs Hr].
    apply Forall_cons. split; [split; assumption | exact Hr].
Qed.

Lemma split_slash_plain s : no_slash s -> split_slash s = [s].
Proof.
  induction s as [|c s IH]; [reflexivity |]. intros [N Hs]. cbn [split_slash].
  destruct (bool_decide_reflect (c = slash)) as [E | _]; [contradiction |].
  rewrite (IH Hs). reflexivity.
Qed.

Lemma append_slash_assoc (a b c : string) :
  a +:+ String slash (b +:+ c) = (a +:+ String slash b) +:+ c.
Proof.
  induction a as [|x a IH]; [reflexivity |].
  change (String x (a +:+ String slash (b +:+ c))
          = String x ((a +:+ String slash b) +:+ c)).
  rewrite IH. reflexivity.
Qed.

Lemma join_slash_last seg rest :
  exists dir,
    join_slash (seg :: rest) = dir +:+ default EmptyString (last (seg :: rest)) /\
    (dir = EmptyString \/ exists d, dir = d +:+ String slash EmptyString).
Proof.
  revert seg. induction rest as [|y rest IH]; intros seg.
  - exists EmptyString. split; [reflexivity | left; reflexivity].
  - destruct (IH y) as (dir & E & D). exists (seg +:+ String slash dir).
    rewrite last_cons_cons, join_slash_two, E. split.
    + apply append_slash_assoc.
    + right. destruct D as [-> | (d & ->)].
      * exists seg. reflexivity.
      * exists (seg +:+ String slash d). apply append_slash_assoc.
Qed.

(** X14: the file name kept in the metadata, [filepath.split('/')[-1]],
    contains no slash and is what follows the last slash of the path: the
    path is a directory part, empty or ending in a slash, followed by the
    name.  A path without slashes is its own name, and splitting then
    joining with slashes gives the path back. *)
Theorem X14_basename (filepath : string) :
  no_slash (basename filepath) /\
  (exists dir,
     filepath = dir +:+ basename filepath /\
     (dir = EmptyString \/ exists d, dir = d +:+ String slash EmptyString)) /\
  (no_slash filepath -> basename filepath = filepath) /\
  join_slash (split_slash filepath) = filepath.
Proof.
  unfold basename.
  destruct (split_slash_cons filepath) as (seg & rest & E).
  pose proof (split_slash_no_slash filepath) as F.
  pose proof (join_split_slash filepath) as J.
  split; [| split; [| split]].
  - destruct (last (split_slash filepath)) as [b|] eqn:L; [| exact I].
    rewrite Forall_forall in F. apply F. apply last_Some_elem_of, L.
  - rewrite E in J |- *. destruct (join_slash_last seg rest) as (dir & Ej & D).
    exists dir. split; [rewrite <- J; exact Ej | exact D].
  - intros N. rewrite (split_slash_plain _ N). reflexivity.
  - exact J.
Qed.

Lemma X14_basename_witness :
  basename "photos/holiday/beach.png" = "beach.png" /\
  basename "beach.png" = "beach.png" /\
  basename "photos/" = "".
Proof.
  split; [reflexivity |]. split; [| reflexivity].
  destruct (X14_basename "beach.png") as (_ & _ & P & _).
  apply P. cbn. repeat split; discriminate.
Defined.

(** * The application *)

(** ** What manager calls do to the set of held objects *)

Lemma reachable_grow m h hm (e : heap) :
  reachable m (mk_World h hm) -> reachable m (mk_World (h ++ e) hm).
Proof.
  intros R. induction e as [|a e IH] using rev_ind.
  - rewrite app_nil_r. exact R.
  - rewrite app_assoc. apply (reach_new m a _ IH).
Qed.

Lemma exec_owned m o w w' :
  inv m w -> exec o w = Ok w' ->
  Forall (fun r => r ∈ owned (self w) \/ (length (objects w) <= r)%nat) (owned (self w')).
Proof.
  intros I. destruct o; cbn [exec]; unfold forget.
  - destruct w as [h [hs rs mh [c|]]].
    + destruct (inv_current _ _ _ I eq_refl) as [a Ha]. cbn in Ha.
      destruct ((h ++ [a]) !! image) as [x|] eqn:Hx.
      2: { run_method. rewrite Ha. fields. rewrite Hx. discriminate. }
      rewrite (add_state_next_gen _ _ _ _ _ _ _ _ Hx Ha). intros [= <-].
      unfold owned. cbn. rewrite app_nil_r.
      apply Forall_cons. split; [right; lia |].
      apply Forall_forall. intros r Hr. apply items_append_incl in Hr.
      destruct Hr as [Hr | ->]; [left | right; lia].
      apply elem_of_cons. right. apply elem_of_app. left. exact Hr.
    + destruct (h !! image) as [x|] eqn:Hx.
      2: { run_method. rewrite Hx. discriminate. }
      rewrite (add_state_first _ _ _ _ _ _ Hx). intros [= <-].
      destruct (inv_cur _ _ I eq_refl) as [E1 _]. cbn in E1.
      unfold owned. cbn. rewrite E1. cbn.
      apply Forall_singleton. right. lia.
  - destruct (can_undo (self w)) eqn:U.
    2: { rewrite undo_empty by exact U. intros [= <-].
         apply Forall_forall. intros r Hr. left. exact Hr. }
    destruct (inv_can_undo m w I U)
      as (h & hl & p & rs & c & a & b & -> & Ha & Hb & Mr & T & _).
    rewrite (undo_step _ _ _ _ _ _ _ _ _ Ha Hb). intros [= <-].
    pose proof (len_nonneg (mk_deque hl m)). rewrite append_fits by lia.
    unfold owned. cbn. apply Forall_forall. intros r Hr.
    apply elem_of_cons in Hr. destruct Hr as [-> | Hr].
    { left. apply elem_of_cons. right. apply elem_of_app. left.
      apply elem_of_app. right. apply list_elem_of_singleton. reflexivity. }
    apply elem_of_app in Hr. destruct Hr as [Hr | Hr].
    { left. apply elem_of_cons. right. apply elem_of_app. left.
      apply elem_of_app. left. exact Hr. }
    apply elem_of_app in Hr. destruct Hr as [Hr | Hr].
    { left. apply elem_of_cons. right. apply elem_of_app. right. exact Hr. }
    apply list_elem_of_singleton in Hr. right. lia.
  - destruct (can_redo (self w)) eqn:U.
    2: { rewrite redo_empty by exact U. intros [= <-].
         apply Forall_forall. intros r Hr. left. exact Hr. }
    destruct (inv_can_redo m w I U)
      as (h & hs & rl & p & c & a & b & -> & Ha & Hb & Mh & T & _).
    rewrite (redo_step _ _ _ _ _ _ _ _ _ Ha Hb). intros [= <-].
    pose proof (len_nonneg (mk_deque rl m)). rewrite append_fits by lia.
    unfold owned. cbn. apply Forall_forall. intros r Hr.
    apply elem_of_cons in Hr. destruct Hr as [-> | Hr].
    { left. apply elem_of_cons. right. apply elem_of_app. right.
      apply elem_of_app. right. apply list_elem_of_singleton. reflexivity. }
    apply elem_of_app in Hr. destruct Hr as [Hr | Hr].
    { apply elem_of_app in Hr. destruct Hr as [Hr | Hr].
      - left. apply elem_of_cons. right. apply elem_of_app. left. exact Hr.
      - apply list_elem_of_singleton in Hr. right. lia. }
    left. apply elem_of_cons. right. apply elem_of_app. right.
    apply elem_of_app. left. exact Hr.
  - destruct w as [h [hs rs mh cur]]. rewrite clear_history_eq. intros [= <-].
    apply Forall_nil_2.
  - destruct w as [h [hs rs mh [c|]]].
    + destruct (inv_current _ _ _ I eq_refl) as [a Ha]. cbn in Ha.
      rewrite (get_current_state_some _ _ _ _ _ _ Ha). intros [= <-].
      apply Forall_forall. intros r Hr. left. exact Hr.
    + rewrite get_current_state_none. intros [= <-].
      apply Forall_forall. intros r Hr. left. exact Hr.
  - destruct w as [h [hs rs mh cur]].
    destruct (h !! image) as [x|] eqn:Hx.
    2: { run_method. rewrite Hx. discriminate. }
    rewrite (initialize_state_eq _ _ _ _ _ _ _ Hx). intros [= <-].
    unfold owned. cbn. apply Forall_singleton. right. lia.
  - destruct (get_memory_usage w) as [[u w1]|e] eqn:E; [| discriminate].
    apply get_memory_usage_pure in E. subst w1. intros [= <-].
    apply Forall_forall. intros r Hr. left. exact Hr.
Qed.

(** Apart from [clear_history], no call leaves [current] absent. *)
Lemma exec_current m o w w' :
  inv m w -> exec o w = Ok w' -> o <> ClearHistory ->
  (is_Some (_current_state (self w)) \/ (exists i, o = AddState i \/ o = InitializeState i)) ->
  is_Some (_current_state (self w')).
Proof.
  intros I. destruct o; cbn [exec]; unfold forget; intros E N S.
  - destruct (add_state image w) as [[u w1]|e] eqn:E1; [| discriminate].
    injection E as <-.
    destruct w as [h [hs rs mh [c|]]].
    + destruct (inv_current _ _ _ I eq_refl) as [a Ha]. cbn in Ha.
      destruct ((h ++ [a]) !! image) as [x|] eqn:Hx.
      2: { revert E1. run_method. rewrite Ha. fields. rewrite Hx. discriminate. }
      rewrite (add_state_next_gen _ _ _ _ _ _ _ _ Hx Ha) in E1. injection E1 as _ <-.
      eexists. reflexivity.
    + destruct (h !! image) as [x|] eqn:Hx.
      2: { revert E1. run_method. rewrite Hx. discriminate. }
      rewrite (add_state_first _ _ _ _ _ _ Hx) in E1. injection E1 as _ <-.
      eexists. reflexivity.
  - destruct (can_undo (self w)) eqn:U.
    2: { rewrite undo_empty in E by exact U. injection E as <-.
         destruct S as [S | (i & [? | ?])]; [exact S | discriminate | discriminate]. }
    destruct (inv_can_undo m w I U)
      as (h & hl & p & rs & c & a & b & -> & Ha & Hb & _).
    rewrite (undo_step _ _ _ _ _ _ _ _ _ Ha Hb) in E. injection E as <-.
    eexists. reflexivity.
  - destruct (can_redo (self w)) eqn:U.
    2: { rewrite redo_empty in E by exact U. injection E as <-.
         destruct S as [S | (i & [? | ?])]; [exact S | discriminate | discriminate]. }
    destruct (inv_can_redo m w I U)
      as (h & hs & rl & p & c & a & b & -> & Ha & Hb & _).
    rewrite (redo_step _ _ _ _ _ _ _ _ _ Ha Hb) in E. injection E as <-.
    eexists. reflexivity.
  - congruence.
  - destruct S as [S | (i & [? | ?])]; [| discriminate | discriminate].
    destruct w as [h [hs rs mh [c|]]]; [| destruct S; discriminate].
    destruct (inv_current _ _ _ I eq_refl) as [a Ha]. cbn in Ha.
    rewrite (get_current_state_some _ _ _ _ _ _ Ha) in E. injection E as <-.
    eexists. reflexivity.
  - destruct w as [h [hs rs mh cur]].
    destruct (h !! image) as [x|] eqn:Hx.
    2: { revert E. run_method. rewrite Hx. discriminate. }
    rewrite (initialize_state_eq _ _ _ _ _ _ _ Hx) in E. injection E as <-.
    eexists. reflexivity.
  - destruct (get_memory_usage w) as [[u w1]|e] eqn:E1; [| discriminate].
    apply get_memory_usage_pure in E1. subst w1. injection E as <-.
    destruct S as [S | (i & [? | ?])]; [exact S | discriminate | discriminate].
Qed.

(** ** The window's building blocks *)

Ltac run_app :=
  unfold Window._save_state_to_history, IP.get_image_copy, IP.set_image, IP.reset_image,
    copy_array, read_array, new_array, set_current_image, set_metadata, set_processor,
    get_processor, set_is_modified, set_current_file_path, abind, aret;
  cbn [app_objects history_manager image_processor current_file_path is_modified
       _current_image _original_image _metadata _blur_intensity].

Section Blocks.
Variables (h : heap) (hm : HistoryManager) (ip : ImageProcessor)
  (fp : option string) (md : bool).

Lemma copy_array_eq r a :
  h !! r = Some a ->
  copy_array r (mk_App h hm ip fp md) = Ok (length h, mk_App (h ++ [a]) hm ip fp md).
Proof. intros E. run_app. rewrite E. reflexivity. Qed.

Lemma on_history_eq {A} (c : M A) x h' hm' :
  c (mk_World h hm) = Ok (x, mk_World h' hm') ->
  on_history c (mk_App h hm ip fp md) = Ok (x, mk_App h' hm' ip fp md).
Proof. intros E. unfold on_history, history_world. cbn. rewrite E. reflexivity. Qed.

Lemma set_image_eq r a :
  h !! r = Some a ->
  exists ip',
    IP.set_image r (mk_App h hm ip fp md) = Ok (tt, mk_App (h ++ [a]) hm ip' fp md) /\
    _current_image ip' = Some (length h) /\
    _original_image ip' = _original_image ip.
Proof.
  intros E. run_app. rewrite E.
  cbn [app_objects history_manager image_processor current_file_path is_modified
       _current_image _original_image _metadata _blur_intensity].
  destruct (_metadata ip) as [m|].
  - destruct (shape a) as [[x y] z]. eexists. split; [reflexivity |]. split; reflexivity.
  - eexists. split; [reflexivity |]. split; reflexivity.
Qed.

End Blocks.

(** The processor replaces its image by a new object, or leaves
    everything as it is. *)
Lemma replace_current_cases `{OpenCV} call h hm ip fp md b app' :
  IP.replace_current call (mk_App h hm ip fp md) = Ok (b, app') ->
  (b = false /\ app' = mk_App h hm ip fp md) \/
  (exists c a a',
     _current_image ip = Some c /\ h !! c = Some a /\ cv2 call a = Some a' /\ b = true /\
     app' = mk_App (h ++ [a']) hm
              (mk_ImageProcessor (Some (length h)) (_original_image ip) (_metadata ip)
                 (_blur_intensity ip)) fp md).
Proof.
  unfold IP.replace_current. run_app.
  destruct (_current_image ip) as [c|] eqn:Ec; cbn.
  2: { intros [= <- <-]. left. split; reflexivity. }
  destruct (h !! c) as [a|] eqn:Ea; cbn; [| discriminate].
  destruct (cv2 call a) as [a'|] eqn:Ecv; cbn.
  2: { intros [= <- <-]. left. split; reflexivity. }
  intros [= <- <-]. right. exists c, a, a'. repeat split; assumption.
Qed.

(** ** The application invariant, piece by piece *)

Lemma fresh_apart m h hm (r : ref) :
  inv m (mk_World h hm) -> (length h <= r)%nat -> r ∉ owned hm.
Proof.
  intros I L. apply fresh_not_in with (h := h).
  - exact (inv_refs _ _ I).
  - unfold valid. lia.
Qed.

(** After the processor has allocated. *)
Lemma app_ok_processor h hm ip fp md (e : heap) ip' fp' md' :
  app_ok (mk_App h hm ip fp md) ->
  Forall (fun r => r ∈ processor_refs ip \/ (length h <= r < length (h ++ e))%nat)
    (processor_refs ip') ->
  (IP.has_image ip' = true ->
   IP.has_image ip = true \/ is_Some (_current_state hm)) ->
  app_ok (mk_App (h ++ e) hm ip' fp' md').
Proof.
  intros [R V A L] F Hi. cbn in R, V, A, L.
  pose proof (reachable_inv _ _ R) as I.
  rewrite Forall_forall in V, A, F.
  split; cbn.
  - apply reachable_grow, R.
  - apply Forall_forall. intros r Hr. destruct (F r Hr) as [Ho | Hn].
    + apply valid_grow, V, Ho.
    + unfold valid. lia.
  - apply Forall_forall. intros r Hr. destruct (F r Hr) as [Ho | Hn].
    + apply A, Ho.
    + apply (fresh_apart default_max_history h); [exact I | lia].
  - intros Hh. destruct (Hi Hh) as [Hp | Hc]; [apply L, Hp | exact Hc].
Qed.

(** After a call into the manager. *)
Lemma app_ok_history o h hm ip fp md h' hm' :
  reachable default_max_history (mk_World h hm) ->
  Forall (valid h) (processor_refs ip) ->
  Forall (fun r => r ∉ owned hm) (processor_refs ip) ->
  exec o (mk_World h hm) = Ok (mk_World h' hm') ->
  o <> ClearHistory ->
  (IP.has_image ip = true ->
   is_Some (_current_state hm) \/ exists i, o = AddState i \/ o = InitializeState i) ->
  app_ok (mk_App h' hm' ip fp md).
Proof.
  intros R V A E N L.
  pose proof (reachable_inv _ _ R) as I.
  pose proof (exec_grows _ _ _ _ I E) as G. cbn in G.
  pose proof (exec_owned _ _ _ _ I E) as O. cbn in O.
  rewrite Forall_forall in V, A, O.
  split; cbn.
  - eapply reach_call; [exact R | exact E].
  - apply Forall_forall. intros r Hr. specialize (V r Hr). unfold valid in *. lia.
  - apply Forall_forall. intros r Hr Ho. destruct (O r Ho) as [Ho' | Hf].
    + exact (A r Hr Ho').
    + specialize (V r Hr). unfold valid in V. lia.
  - intros Hh. apply (exec_current _ _ _ _ I E N (L Hh)).
Qed.

Lemma keeps_refl h : keeps h h.
Proof. intros r _. reflexivity. Qed.

Lemma keeps_grow h e : keeps h (h ++ e).
Proof. intros r V. apply lookup_grow, V. Qed.

Lemma keeps_valid h h' r : keeps h h' -> valid h r -> valid h' r.
Proof.
  intros K V. destruct (lookup_valid _ _ V) as [a Ha].
  rewrite <- (K r V) in Ha. eapply lookup_lt_Some, Ha.
Qed.

Lemma keeps_trans h1 h2 h3 : keeps h1 h2 -> keeps h2 h3 -> keeps h1 h3.
Proof.
  intros K1 K2 r V. rewrite (K2 r (keeps_valid _ _ _ K1 V)). apply K1, V.
Qed.

Lemma observe_grow m h hm (e : heap) :
  inv m (mk_World h hm) -> observe (mk_World (h ++ e) hm) = observe (mk_World h hm).
Proof.
  intros I. pose proof (inv_refs _ _ I) as V. unfold owned in V. cbn in V.
  apply Forall_app in V. destruct V as [Vc V]. apply Forall_app in V. destruct V as [Vh Vr].
  unfold observe, current_value, undo_values, redo_values. cbn [self].
  rewrite (derefs_grow h e hm hm _ Vh), (derefs_grow h e hm hm _ Vr).
  f_equal. f_equal. destruct (_current_state hm) as [c|]; [| reflexivity]. cbn.
  apply (deref_grow h e hm hm). apply Forall_cons in Vc. apply Vc.
Qed.

Lemma current_values_grow m h hm (e : heap) :
  inv m (mk_World h hm) ->
  current_values (mk_World (h ++ e) hm) = current_values (mk_World h hm).
Proof.
  intros I. pose proof (inv_refs _ _ I) as V. unfold owned in V. cbn in V.
  apply Forall_app in V. destruct V as [Vc _].
  unfold current_values. cbn [self]. apply (derefs_grow h e hm hm), Vc.
Qed.

(** The current image of a well-formed application names an object. *)
Lemma app_ok_shown app c :
  app_ok app -> _current_image (image_processor app) = Some c ->
  valid (app_objects app) c /\ exists a, app_objects app !! c = Some a /\ shown app = Some a.
Proof.
  intros O E. pose proof (ok_refs _ O) as V. unfold processor_refs in V. rewrite E in V.
  cbn in V. apply Forall_cons in V. destruct V as [V _].
  split; [exact V |]. destruct (lookup_valid _ _ V) as [a Ha].
  exists a. split; [exact Ha |]. unfold shown. rewrite E. cbn. exact Ha.
Qed.

(** ** Saving the current image to the history *)

Lemma save_spec app a :
  app_ok app -> shown app = Some a ->
  exists app1,
    Window._save_state_to_history app = Ok (tt, app1) /\ app_ok app1 /\
    image_processor app1 = image_processor app /\
    current_file_path app1 = current_file_path app /\
    is_modified app1 = is_modified app /\
    keeps (app_objects app) (app_objects app1) /\
    observe (history_world app1)
    = (Some a,
       last_n (Z.to_nat default_max_history)
         (undo_values (history_world app) ++ current_values (history_world app)),
       []).
Proof.
  intros O S. destruct app as [h hm ip fp md].
  unfold shown in S. cbn in S.
  destruct (_current_image ip) as [c|] eqn:Ec; [| discriminate]. cbn in S.
  pose proof (ok_history _ O) as R. unfold history_world in R. cbn in R.
  pose proof (reachable_inv _ _ R) as I.
  pose proof (reachable_grow _ _ _ [a] R) as R1.
  pose proof (reachable_inv _ _ R1) as I1.
  assert (valid (h ++ [a]) (length h)) as Vn by (apply valid_fresh; discriminate).
  destruct (add_state_values _ _ _ I1 Vn) as (w1 & E1 & I2 & U1 & C1 & G).
  pose proof (add_state_redo_empty _ _ _ _ _ I1 E1) as R2.
  destruct w1 as [h1 hm1].
  assert (keeps (h ++ [a]) h1) as K.
  { intros r Vr. destruct (G [r]) as [_ D]; [apply Forall_singleton, Vr |].
    injection D as D. exact D. }
  exists (mk_App h1 hm1 ip fp md).
  split.
  { unfold Window._save_state_to_history, abind, get_processor. cbn. rewrite Ec.
    fold (abind (copy_array c) (fun r => on_history (add_state r))).
    unfold abind. rewrite (copy_array_eq _ _ _ _ _ _ _ S).
    apply on_history_eq, E1. }
  split.
  { apply (app_ok_history (AddState (length h)) (h ++ [a]) hm).
    - exact R1.
    - eapply Forall_impl; [exact (ok_refs _ O) |]. intros r. apply valid_grow.
    - exact (ok_apart _ O).
    - cbn [exec]. unfold forget. rewrite E1. reflexivity.
    - discriminate.
    - intros _. right. eexists. left. reflexivity. }
  split; [reflexivity |]. split; [reflexivity |]. split; [reflexivity |].
  split; [exact (keeps_trans _ _ _ (keeps_grow h [a]) K) |].
  unfold history_world. cbn [app_objects history_manager].
  unfold observe. rewrite U1, R2.
  rewrite (current_value_of_values _ _ C1).
  unfold deref at 1. cbn [objects]. rewrite lookup_fresh.
  change (undo_values (mk_World (h ++ [a]) hm))
    with (snd (fst (observe (mk_World (h ++ [a]) hm)))).
  rewrite (observe_grow _ _ _ _ I), (current_values_grow _ _ _ _ I). reflexivity.
Qed.

(** ** What a filter request does to the processor *)

Ltac run_filter :=
  unfold Window.dispatch, IP.apply_grayscale, IP.apply_blur, IP.apply_edge_detection,
    IP.adjust_brightness, IP.adjust_contrast, IP.rotate_image, IP.flip_image,
    IP.resize_image, IP.replace_current, IP.has_image;
  run_app.

Ltac app_fields :=
  cbn [app_objects history_manager image_processor current_file_path is_modified
       _current_image _original_image _metadata _blur_intensity negb default from_option].

(** A request for a resize leads to a call when the size can be computed. *)
Lemma request_call_resize `{OpenCV} width height maintain_aspect a call :
  request_call (Resize width height maintain_aspect) a = Some call ->
  exists w h,
    IP.resize_size (default 800 width) (default 600 height) (default true maintain_aspect) a
    = Some (w, h) /\ call = cv2_resize w h.
Proof.
  unfold request_call.
  destruct (IP.resize_size _ _ _ a) as [[w h]|]; [| discriminate].
  intros [= <-]. exists w, h. split; reflexivity.
Qed.

Lemma dispatch_success `{OpenCV} req h hm ip fp md c a call a' :
  _current_image ip = Some c -> h !! c = Some a ->
  request_call req a = Some call -> cv2 call a = Some a' ->
  exists ip2,
    Window.dispatch req (mk_App h hm ip fp md) = Ok (true, mk_App (h ++ [a']) hm ip2 fp md) /\
    _current_image ip2 = Some (length h) /\
    _original_image ip2 = _original_image ip.
Proof.
  intros Ec Ea Er Ecv.
  destruct req;
    try (apply request_call_resize in Er; destruct Er as (w0 & h0 & Es & ->));
    try (cbn in Er; try discriminate; injection Er as <-);
    run_filter; repeat progress (rewrite ?Ec, ?Ea, ?Es, ?Ecv; app_fields);
    try (eexists; split; [reflexivity | split; reflexivity]).
  all: destruct (_metadata ip) as [m|]; app_fields;
    rewrite ?lookup_fresh; try (destruct (shape a') as [[x y] z]);
    eexists; (split; [reflexivity | split; reflexivity]).
Qed.

Lemma dispatch_failure `{OpenCV} req h hm ip fp md c a :
  _current_image ip = Some c -> h !! c = Some a ->
  (request_call req a = None \/ exists call, request_call req a = Some call /\ cv2 call a = None) ->
  exists ip2,
    Window.dispatch req (mk_App h hm ip fp md) = Ok (false, mk_App h hm ip2 fp md) /\
    _current_image ip2 = Some c /\
    _original_image ip2 = _original_image ip.
Proof.
  intros Ec Ea [Er | (call & Er & Ecv)].
  - destruct req; try (cbn in Er; discriminate).
    + unfold request_call in Er.
      destruct (IP.resize_size _ _ _ a) as [[w0 h0]|] eqn:Es; [discriminate |].
      run_filter. rewrite Ec. app_fields. rewrite Ea. app_fields. rewrite Es.
      exists ip. split; [reflexivity | split; [exact Ec | reflexivity]].
    + exists ip. split; [reflexivity | split; [exact Ec | reflexivity]].
  - destruct req;
      try (apply request_call_resize in Er; destruct Er as (w0 & h0 & Es & ->));
      try (cbn in Er; try discriminate; injection Er as <-);
      run_filter; repeat progress (rewrite ?Ec, ?Ea, ?Es, ?Ecv; app_fields);
      eexists; (split; [reflexivity | split; [try exact Ec; reflexivity | reflexivity]]).
Qed.

(** ** The undo and redo actions *)

Lemma current_value_is_Some w a : current_value w = Some a -> is_Some (_current_state (self w)).
Proof.
  unfold current_value. destruct (_current_state (self w)); [eauto | discriminate].
Qed.

Lemma original_keeps app h' hm' ip' fp' md' :
  app_ok app -> keeps (app_objects app) h' ->
  _original_image ip' = _original_image (image_processor app) ->
  original (mk_App h' hm' ip' fp' md') = original app.
Proof.
  intros O K E. unfold original. cbn. rewrite E.
  destruct (_original_image (image_processor app)) as [o|] eqn:Eo; [| reflexivity]. cbn.
  apply K. pose proof (ok_refs _ O) as V. unfold processor_refs in V. rewrite Eo in V.
  apply Forall_app in V. destruct V as [_ V]. cbn in V. apply Forall_cons in V. apply V.
Qed.

(** After the manager returned [r] in world [(h', hm')], the processor
    takes a copy of it. *)
Lemma take_returned o app h' hm' r b :
  app_ok app ->
  exec o (history_world app) = Ok (mk_World h' hm') -> o <> ClearHistory ->
  inv default_max_history (mk_World h' hm') ->
  keeps (app_objects app) h' ->
  h' !! r = Some b -> is_Some (_current_state hm') ->
  exists app',
    IP.set_image r (mk_App h' hm' (image_processor app) (current_file_path app)
                      (is_modified app)) = Ok (tt, app') /\
    app_ok app' /\ shown app' = Some b /\ original app' = original app /\
    history_manager app' = hm' /\
    observe (history_world app') = observe (mk_World h' hm') /\
    keeps (app_objects app) (app_objects app') /\
    current_file_path app' = current_file_path app /\
    is_modified app' = is_modified app.
Proof.
  intros O E N I' K Hr S. destruct app as [h hm ip fp md].
  unfold history_world in E. cbn in E, K |- *.
  destruct (set_image_eq h' hm' ip fp md r b Hr) as (ip' & Es & Ec & Eo).
  exists (mk_App (h' ++ [b]) hm' ip' fp md).
  split; [exact Es |].
  assert (app_ok (mk_App h' hm' ip fp md)) as O1.
  { apply (app_ok_history o h hm); try assumption.
    - exact (ok_history _ O).
    - exact (ok_refs _ O).
    - exact (ok_apart _ O).
    - intros Hh. left. apply (ok_loaded _ O), Hh. }
  split.
  { apply (app_ok_processor h' hm' ip fp md [b]); [exact O1 | |].
    - unfold processor_refs. rewrite Ec, Eo. cbn. apply Forall_cons. split.
      + right. rewrite length_app. cbn. lia.
      + apply Forall_forall. intros q Hq. left. apply elem_of_app. right. exact Hq.
    - intros _. right. exact S. }
  split; [unfold shown; cbn; rewrite Ec; cbn; apply lookup_fresh |].
  split.
  { apply (original_keeps (mk_App h hm ip fp md)); [exact O | | exact Eo].
    cbn. exact (keeps_trans _ _ _ K (keeps_grow h' [b])). }
  split; [reflexivity |].
  split; [unfold history_world; cbn; apply (observe_grow _ _ _ _ I') |].
  split; [exact (keeps_trans _ _ _ K (keeps_grow h' [b])) |].
  split; reflexivity.
Qed.

Lemma undo_action_spec app :
  app_ok app -> can_undo (history_manager app) = true ->
  exists app' a b U,
    Window._undo_action app = Ok (tt, app') /\ app_ok app' /\
    current_value (history_world app) = Some a /\
    undo_values (history_world app) = U ++ [Some b] /\
    observe (history_world app') = (Some b, U, redo_values (history_world app) ++ [Some a]) /\
    shown app' = Some b /\ original app' = original app /\
    keeps (app_objects app) (app_objects app') /\
    current_file_path app' = current_file_path app /\
    is_modified app' = is_modified app.
Proof.
  intros O U.
  pose proof (reachable_inv _ _ (ok_history _ O)) as I.
  destruct (undo_observe _ _ I U) as (r & w' & a & b & Us & E & I' & Ca & Uv & Ov & Dr & _ & _ & G).
  destruct w' as [h' hm'].
  assert (keeps (app_objects app) h') as K.
  { intros q Vq. destruct (G [q]) as [_ D]; [apply Forall_singleton, Vq |].
    injection D as D. exact D. }
  assert (is_Some (_current_state hm')) as S.
  { injection Ov as Oc _ _. exact (current_value_is_Some _ _ Oc). }
  destruct (take_returned Undo app h' hm' r b O) as (app' & Es & O' & Sh & Or & _ & Ob & K' & Ef & Em);
    try assumption.
  { cbn [exec]. unfold forget. rewrite E. reflexivity. }
  { discriminate. }
  exists app', a, b, Us.
  split.
  { unfold Window._undo_action. rewrite U. unfold abind.
    destruct app as [h hm ip fp md].
    rewrite (on_history_eq h hm ip fp md undo (Some r) h' hm' E). exact Es. }
  split; [exact O' |]. split; [exact Ca |]. split; [exact Uv |].
  split; [rewrite Ob; exact Ov |].
  split; [exact Sh |]. split; [exact Or |]. split; [exact K' |]. split; assumption.
Qed.

Lemma redo_action_spec app :
  app_ok app -> can_redo (history_manager app) = true ->
  exists app' a b Rs,
    Window._redo_action app = Ok (tt, app') /\ app_ok app' /\
    current_value (history_world app) = Some a /\
    redo_values (history_world app) = Rs ++ [Some b] /\
    observe (history_world app') = (Some b, undo_values (history_world app) ++ [Some a], Rs) /\
    shown app' = Some b /\ original app' = original app /\
    keeps (app_objects app) (app_objects app') /\
    current_file_path app' = current_file_path app /\
    is_modified app' = is_modified app.
Proof.
  intros O U.
  pose proof (reachable_inv _ _ (ok_history _ O)) as I.
  destruct (redo_observe _ _ I U) as (r & w' & a & b & Rs & E & I' & Ca & Rv & Ov & Dr & _ & _ & G).
  destruct w' as [h' hm'].
  assert (keeps (app_objects app) h') as K.
  { intros q Vq. destruct (G [q]) as [_ D]; [apply Forall_singleton, Vq |].
    injection D as D. exact D. }
  assert (is_Some (_current_state hm')) as S.
  { injection Ov as Oc _ _. exact (current_value_is_Some _ _ Oc). }
  destruct (take_returned Redo app h' hm' r b O) as (app' & Es & O' & Sh & Or & _ & Ob & K' & Ef & Em);
    try assumption.
  { cbn [exec]. unfold forget. rewrite E. reflexivity. }
  { discriminate. }
  exists app', a, b, Rs.
  split.
  { unfold Window._redo_action. rewrite U. unfold abind.
    destruct app as [h hm ip fp md].
    rewrite (on_history_eq h hm ip fp md redo (Some r) h' hm' E). exact Es. }
  split; [exact O' |]. split; [exact Ca |]. split; [exact Rv |].
  split; [rewrite Ob; exact Ov |].
  split; [exact Sh |]. split; [exact Or |]. split; [exact K' |]. split; assumption.
Qed.

(** ** Applying a filter *)

Lemma apply_filter_no_image `{OpenCV} req app :
  IP.has_image (image_processor app) = false -> Window.apply_filter req app = Ok (tt, app).
Proof.
  intros E. unfold Window.apply_filter, abind, get_processor. rewrite E. reflexivity.
Qed.

Lemma apply_filter_unfold `{OpenCV} req app :
  IP.has_image (image_processor app) = true ->
  Window.apply_filter req app
  = match Window._save_state_to_history app with
    | Ok (_, app1) =>
      match Window.dispatch req app1 with
      | Ok (true, app2) => set_is_modified true app2
      | Ok (false, app2) =>
        match on_history undo app2 with
        | Ok (_, app3) => Ok (tt, app3)
        | Raise e => Raise e
        end
      | Raise e => Raise e
      end
    | Raise e => Raise e
    end.
Proof.
  intros E. unfold Window.apply_filter, abind, get_processor. cbn beta iota.
  rewrite E. cbn [negb].
  destruct (Window._save_state_to_history app) as [[u app1]|e]; [| reflexivity].
  destruct (Window.dispatch req app1) as [[[|] app2]|e]; reflexivity.
Qed.

Lemma has_image_shown app a : shown app = Some a -> IP.has_image (image_processor app) = true.
Proof.
  unfold shown, IP.has_image. destruct (_current_image (image_processor app)); [reflexivity | discriminate].
Qed.

Lemma apply_filter_success `{OpenCV} req app a call a' :
  app_ok app -> shown app = Some a ->
  request_call req a = Some call -> cv2 call a = Some a' ->
  exists app',
    Window.apply_filter req app = Ok (tt, app') /\ app_ok app' /\
    shown app' = Some a' /\ is_modified app' = true /\
    original app' = original app /\
    current_file_path app' = current_file_path app /\
    keeps (app_objects app) (app_objects app') /\
    observe (history_world app')
    = (Some a,
       last_n (Z.to_nat default_max_history)
         (undo_values (history_world app) ++ current_values (history_world app)),
       []).
Proof.
  intros O S Er Ecv.
  destruct (save_spec app a O S) as (app1 & E1 & O1 & Eip & Efp & Emd & K & Ob).
  pose proof (has_image_shown _ _ S) as Hi.
  destruct app as [h hm ip fp md]. destruct app1 as [h1 hm1 ip1 fp1 md1].
  cbn in Eip, Efp, Emd, K. subst ip1 fp1 md1.
  unfold shown in S. cbn in S.
  destruct (_current_image ip) as [c|] eqn:Ec; [| discriminate]. cbn in S.
  assert (IP.has_image ip = true) as Hp by (unfold IP.has_image; rewrite Ec; reflexivity).
  assert (valid h c) as Vc by (eapply lookup_lt_Some; exact S).
  assert (h1 !! c = Some a) as S1 by (rewrite (K c Vc); exact S).
  destruct (dispatch_success req h1 hm1 ip fp md c a call a' Ec S1 Er Ecv)
    as (ip2 & Ed & Ec2 & Eo2).
  pose proof (reachable_inv _ _ (ok_history _ O1)) as I1.
  exists (mk_App (h1 ++ [a']) hm1 ip2 fp true).
  split.
  { rewrite (apply_filter_unfold req _ Hi), E1, Ed. reflexivity. }
  split.
  { apply (app_ok_processor h1 hm1 ip fp md [a']); [exact O1 | |].
    - unfold processor_refs. rewrite Ec2, Eo2. cbn. apply Forall_cons. split.
      + right. rewrite length_app. cbn. lia.
      + apply Forall_forall. intros q Hq. left. rewrite Ec. apply elem_of_app. right. exact Hq.
    - intros _. left. exact Hp. }
  split; [unfold shown; cbn; rewrite Ec2; cbn; apply lookup_fresh |].
  split; [reflexivity |].
  split.
  { apply (original_keeps (mk_App h hm ip fp md)); [exact O | | exact Eo2].
    cbn. exact (keeps_trans _ _ _ K (keeps_grow h1 [a'])). }
  split; [reflexivity |].
  split; [exact (keeps_trans _ _ _ K (keeps_grow h1 [a'])) |].
  unfold history_world at 1. cbn [app_objects history_manager].
  rewrite (observe_grow _ _ _ _ I1). exact Ob.
Qed.

Lemma apply_filter_failure `{OpenCV} req app a :
  app_ok app -> shown app = Some a ->
  (request_call req a = None \/ exists call, request_call req a = Some call /\ cv2 call a = None) ->
  exists app',
    Window.apply_filter req app = Ok (tt, app') /\ app_ok app' /\
    shown app' = Some a /\ is_modified app' = is_modified app /\
    original app' = original app /\
    current_file_path app' = current_file_path app /\
    keeps (app_objects app) (app_objects app') /\
    observe (history_world app')
    = (current_value (history_world app),
       last_n (Z.to_nat default_max_history - 1) (undo_values (history_world app)),
       [Some a]).
Proof.
  intros O S F.
  destruct (save_spec app a O S) as (app1 & E1 & O1 & Eip & Efp & Emd & K & Ob).
  pose proof (has_image_shown _ _ S) as Hi.
  pose proof (reachable_inv _ _ (ok_history _ O)) as I.
  destruct (ok_loaded _ O Hi) as [hc Hc].
  destruct (inv_current _ _ _ I Hc) as [v Hv].
  assert (current_value (history_world app) = Some v) as Cv
    by (unfold current_value; cbn [self history_world]; rewrite Hc; exact Hv).
  rewrite (current_values_of_value _ _ Cv) in Ob.
  rewrite last_n_snoc in Ob by (unfold default_max_history; lia).
  injection Ob as Oc Ou Or.
  destruct app as [h hm ip fp md]. destruct app1 as [h1 hm1 ip1 fp1 md1].
  cbn in Eip, Efp, Emd, K. subst ip1 fp1 md1.
  unfold shown in S. cbn in S.
  destruct (_current_image ip) as [c|] eqn:Ec; [| discriminate]. cbn in S.
  assert (IP.has_image ip = true) as Hp by (unfold IP.has_image; rewrite Ec; reflexivity).
  assert (valid h c) as Vc by (eapply lookup_lt_Some; exact S).
  assert (h1 !! c = Some a) as S1 by (rewrite (K c Vc); exact S).
  destruct (dispatch_failure req h1 hm1 ip fp md c a Ec S1 F) as (ip2 & Ed & Ec2 & Eo2).
  pose proof (reachable_inv _ _ (ok_history _ O1)) as I1.
  unfold history_world in I1, Oc, Ou, Or. cbn in I1, Oc, Ou, Or.
  destruct (undo_observe _ _ I1 (can_undo_of_values _ _ _ Ou))
    as (r & w' & a1 & b1 & U1 & E2 & I2 & Ca1 & Uv1 & O2 & _ & _ & _ & G).
  rewrite Oc in Ca1. injection Ca1 as <-.
  rewrite Ou in Uv1. apply app_inj_tail in Uv1. destruct Uv1 as [<- [= <-]].
  rewrite Or in O2. destruct w' as [h' hm'].
  assert (keeps h1 h') as K'.
  { intros q Vq. destruct (G [q]) as [_ D]; [apply Forall_singleton, Vq |].
    injection D as D. exact D. }
  assert (app_ok (mk_App h1 hm1 ip2 fp md)) as O1'.
  { rewrite <- (app_nil_r h1). apply (app_ok_processor h1 hm1 ip fp md []); [exact O1 | |].
    - unfold processor_refs. rewrite Ec2, Eo2, Ec.
      apply Forall_forall. intros q Hq. left. exact Hq.
    - intros _. left. exact Hp. }
  exists (mk_App h' hm' ip2 fp md).
  split.
  { rewrite (apply_filter_unfold req _ Hi), E1, Ed.
    rewrite (on_history_eq h1 hm1 ip2 fp md undo (Some r) h' hm' E2). reflexivity. }
  split.
  { apply (app_ok_history Undo h1 hm1).
    - exact (ok_history _ O1').
    - exact (ok_refs _ O1').
    - exact (ok_apart _ O1').
    - cbn [exec]. unfold forget. rewrite E2. reflexivity.
    - discriminate.
    - intros _. left. exact (current_value_is_Some _ _ Oc). }
  split.
  { unfold shown. cbn. rewrite Ec2. cbn. rewrite (K' c); [exact S1 |].
    eapply lookup_lt_Some; exact S1. }
  split; [reflexivity |].
  split.
  { apply (original_keeps (mk_App h hm ip fp md)); [exact O | | exact Eo2].
    cbn. exact (keeps_trans _ _ _ K K'). }
  split; [reflexivity |].
  split; [exact (keeps_trans _ _ _ K K') |].
  unfold history_world in Cv |- *. cbn [app_objects history_manager] in Cv |- *.
  rewrite O2, Cv. reflexivity.
Qed.

(** ** Opening a file *)

Lemma lookup_off (h e : heap) (k : nat) : (h ++ e) !! (length h + k)%nat = e !! k.
Proof. rewrite lookup_app_r by lia. f_equal. lia. Qed.

Ltac step_heap h :=
  repeat (progress
            (app_fields; rewrite ?length_app; cbn [length];
             rewrite <- ?app_assoc; cbn [app];
             rewrite ?(lookup_off h); cbn [lookup list_lookup])).

Lemma load_image_ok `{OpenCV} h hm ip fp md path raw image :
  imread path = Some raw -> cv2 COLOR_BGR2RGB raw = Some image ->
  IP.load_image path (mk_App h hm ip fp md)
  = Ok (true,
        mk_App (h ++ [raw; image; image; image]) hm
          (mk_ImageProcessor (Some (length h + 3)%nat) (Some (length h + 2)%nat)
             (Some (mk_ImageMetadata (basename path) (Z.of_nat (snd (fst (shape image))))
                      (Z.of_nat (fst (fst (shape image)))) (snd (shape image))
                      (dtype_str image)))
             (_blur_intensity ip))
          fp md).
Proof.
  intros Er Ec. unfold IP.load_image. rewrite Er, Ec. run_app.
  step_heap h. destruct (shape image) as [[x y] z]. step_heap h.
  reflexivity.
Qed.

Lemma open_image_ok `{OpenCV} h hs rs mh cur ip fp md path raw image :
  path <> EmptyString ->
  imread path = Some raw -> cv2 COLOR_BGR2RGB raw = Some image ->
  Window._open_image path (mk_App h (mk_HistoryManager hs rs mh cur) ip fp md)
  = Ok (tt,
        mk_App (h ++ [raw; image; image; image; image; image])
          (mk_HistoryManager (clear hs) (clear rs) mh (Some (length h + 5)%nat))
          (mk_ImageProcessor (Some (length h + 3)%nat) (Some (length h + 2)%nat)
             (Some (mk_ImageMetadata (basename path) (Z.of_nat (snd (fst (shape image))))
                      (Z.of_nat (fst (fst (shape image)))) (snd (shape image))
                      (dtype_str image)))
             (_blur_intensity ip))
          (Some path) false).
Proof.
  intros Np Er Ec. unfold Window._open_image.
  rewrite bool_decide_false by exact Np.
  unfold abind at 1. rewrite (load_image_ok _ _ _ _ _ _ _ _ Er Ec).
  run_app. step_heap h.
  unfold on_history, history_world. app_fields.
  rewrite (initialize_state_eq _ _ _ _ _ (length h + 4)%nat image).
  - cbn [objects self]. step_heap h. reflexivity.
  - rewrite (lookup_off h). reflexivity.
Qed.

Lemma open_image_cancelled `{OpenCV} app :
  Window._open_image EmptyString app = Ok (tt, app).
Proof. reflexivity. Qed.

Lemma open_image_unreadable `{OpenCV} app path :
  imread path = None -> Window._open_image path app = Ok (tt, app).
Proof.
  intros Er. unfold Window._open_image.
  destruct (bool_decide (path = EmptyString)); [reflexivity |].
  unfold abind, IP.load_image. rewrite Er. reflexivity.
Qed.

Lemma open_image_unconvertible `{OpenCV} h hm ip fp md path raw :
  path <> EmptyString -> imread path = Some raw -> cv2 COLOR_BGR2RGB raw = None ->
  Window._open_image path (mk_App h hm ip fp md) = Ok (tt, mk_App (h ++ [raw]) hm ip fp md).
Proof.
  intros Np Er Ec. unfold Window._open_image.
  rewrite bool_decide_false by exact Np.
  unfold abind, IP.load_image. rewrite Er, Ec. reflexivity.
Qed.

Lemma open_image_spec `{OpenCV} app path raw image :
  app_ok app -> path <> EmptyString ->
  imread path = Some raw -> cv2 COLOR_BGR2RGB raw = Some image ->
  exists app',
    Window._open_image path app = Ok (tt, app') /\ app_ok app' /\
    shown app' = Some image /\ original app' = Some image /\
    observe (history_world app') = (Some image, [], []) /\
    current_file_path app' = Some path /\ is_modified app' = false /\
    _metadata (image_processor app')
    = Some (mk_ImageMetadata (basename path) (Z.of_nat (snd (fst (shape image))))
              (Z.of_nat (fst (fst (shape image)))) (snd (shape image)) (dtype_str image)) /\
    keeps (app_objects app) (app_objects app').
Proof.
  intros O Np Er Ec. destruct app as [h [hs rs mh cur] ip fp md].
  eexists. split; [apply (open_image_ok _ _ _ _ _ _ _ _ _ _ _ Np Er Ec) |].
  pose proof (ok_history _ O) as R. unfold history_world in R. cbn in R.
  set (e := [raw; image; image; image; image]).
  set (ip' := mk_ImageProcessor _ _ _ _).
  pose proof (reachable_grow _ _ _ e R) as R1.
  pose proof (reachable_inv _ _ R) as I.
  split.
  { apply (app_ok_history (InitializeState (length h + 4)%nat) (h ++ e)
             (mk_HistoryManager hs rs mh cur)).
    - exact R1.
    - unfold ip', processor_refs, valid, e. cbn.
      repeat (apply Forall_cons; split; [rewrite length_app; cbn; lia |]). apply Forall_nil_2.
    - unfold ip', processor_refs. cbn.
      repeat (apply Forall_cons; split;
              [apply (fresh_apart default_max_history h); [exact I | lia] |]).
      apply Forall_nil_2.
    - cbn [exec]. unfold forget.
      rewrite (initialize_state_eq _ _ _ _ _ (length h + 4)%nat image).
      + unfold e. rewrite <- app_assoc, length_app. cbn. reflexivity.
      + unfold e. rewrite (lookup_off h). reflexivity.
    - discriminate.
    - intros _. right. eexists. right. reflexivity. }
  unfold shown, original, observe, current_value, undo_values, redo_values, deref, history_world.
  cbn. rewrite !(lookup_off h). cbn.
  repeat (split; [reflexivity |]).
  apply keeps_grow.
Qed.


(** ** Resetting to the original *)

Lemma reset_noop app response :
  response = false \/ IP.has_image (image_processor app) = false ->
  Window._reset_image response app = Ok (tt, app).
Proof.
  intros D. unfold Window._reset_image, abind, get_processor. cbn beta iota.
  destruct (IP.has_image (image_processor app)); [| reflexivity].
  destruct D as [-> | D]; [reflexivity | discriminate].
Qed.

Lemma reset_spec app a :
  app_ok app -> shown app = Some a ->
  exists app',
    Window._reset_image true app = Ok (tt, app') /\ app_ok app' /\
    shown app' = from_option Some (Some a) (original app) /\
    original app' = original app /\
    current_file_path app' = current_file_path app /\
    is_modified app' = is_modified app /\
    keeps (app_objects app) (app_objects app') /\
    observe (history_world app')
    = (Some a,
       last_n (Z.to_nat default_max_history)
         (undo_values (history_world app) ++ current_values (history_world app)),
       []).
Proof.
  intros O S.
  destruct (save_spec app a O S) as (app1 & E1 & O1 & Eip & Efp & Emd & K & Ob).
  pose proof (has_image_shown _ _ S) as Hi.
  assert (Window._reset_image true app
          = match Window._save_state_to_history app with
            | Ok (_, app1) =>
              match IP.reset_image app1 with
              | Ok (_, app2) => Ok (tt, app2)
              | Raise e => Raise e
              end
            | Raise e => Raise e
            end) as Eu.
  { unfold Window._reset_image, abind, get_processor. cbn beta iota. rewrite Hi.
    destruct (Window._save_state_to_history app) as [[u x]|e]; [| reflexivity].
    destruct (IP.reset_image x) as [[b y]|e]; reflexivity. }
  rewrite Eu, E1. clear Eu E1.
  pose proof (reachable_inv _ _ (ok_history _ O1)) as I1.
  destruct app as [h hm ip fp md]. destruct app1 as [h1 hm1 ip1 fp1 md1].
  cbn in Eip, Efp, Emd, K. subst ip1 fp1 md1.
  unfold history_world in I1, Ob. cbn [app_objects history_manager] in I1, Ob.
  unfold shown in S. cbn in S.
  destruct (_current_image ip) as [c|] eqn:Ec; [| discriminate]. cbn in S.
  assert (valid h c) as Vc by (eapply lookup_lt_Some; exact S).
  assert (IP.has_image ip = true) as Hp by (unfold IP.has_image; rewrite Ec; reflexivity).
  unfold original. cbn [image_processor app_objects].
  destruct (_original_image ip) as [o|] eqn:Eo.
  - pose proof (ok_refs _ O) as V. unfold processor_refs in V. cbn in V. rewrite Ec, Eo in V.
    cbn in V. apply Forall_cons in V. destruct V as [_ V]. apply Forall_cons in V.
    destruct V as [Vo _]. destruct (lookup_valid _ _ Vo) as [v Hv].
    assert (h1 !! o = Some v) as Hv1 by (rewrite (K o Vo); exact Hv).
    exists (mk_App (h1 ++ [v]) hm1
              (mk_ImageProcessor (Some (length h1)) (_original_image ip) (_metadata ip)
                 (_blur_intensity ip))
              fp md).
    split.
    { unfold IP.reset_image. run_app. rewrite Eo. run_app. rewrite Hv1. cbn.
      rewrite ?Eo. reflexivity. }
    split.
    { apply (app_ok_processor h1 hm1 ip fp md [v]); [exact O1 | |].
      - unfold processor_refs. rewrite Eo. cbn. apply Forall_cons. split.
        + right. rewrite length_app. cbn. lia.
        + apply Forall_singleton. left. apply elem_of_app. right. cbn. left.
      - intros _. left. exact Hp. }
    cbn. rewrite Hv. cbn.
    split; [apply lookup_fresh |].
    split; [rewrite Eo; cbn; rewrite lookup_grow by (eapply lookup_lt_Some; exact Hv1);
            exact Hv1 |].
    split; [reflexivity |]. split; [reflexivity |].
    split; [exact (keeps_trans _ _ _ K (keeps_grow h1 [v])) |].
    unfold history_world. cbn [app_objects history_manager].
    rewrite (observe_grow _ _ _ _ I1). exact Ob.
  - exists (mk_App h1 hm1 ip fp md).
    split; [unfold IP.reset_image; run_app; rewrite Eo; reflexivity |].
    split; [exact O1 |]. cbn.
    split; [unfold shown; cbn; rewrite Ec; cbn; rewrite (K c Vc); exact S |].
    split; [rewrite Eo; reflexivity |].
    split; [reflexivity |]. split; [reflexivity |]. split; [exact K |]. exact Ob.
Qed.

(** ** Every action keeps the application well formed *)

Lemma init_app_ok h app : Window.__init__ h = Ok app -> app_ok app.
Proof.
  unfold Window.__init__.
  destruct (HM.__init__ default_max_history) as [hm|e] eqn:E; [| discriminate].
  intros [= <-]. split; cbn.
  - apply reach_init, E.
  - apply Forall_nil_2.
  - apply Forall_nil_2.
  - discriminate.
Qed.

Lemma state_updates_spec `{OpenCV} a app :
  app_ok app -> exists app', state_updates a app = Ok (tt, app') /\ app_ok app'.
Proof.
  intros O. destruct a as [path | | | req | response]; cbn [state_updates].
  - destruct (decide (path = EmptyString)) as [-> | Np].
    { exists app. split; [apply open_image_cancelled | exact O]. }
    destruct (imread path) as [raw|] eqn:Er.
    2: { exists app. split; [apply open_image_unreadable, Er | exact O]. }
    destruct (cv2 COLOR_BGR2RGB raw) as [image|] eqn:Ec.
    + destruct (open_image_spec app path raw image O Np Er Ec) as (app' & E & O' & _).
      exists app'. split; assumption.
    + destruct app as [h hm ip fp md]. eexists.
      split; [apply (open_image_unconvertible _ _ _ _ _ _ _ Np Er Ec) |].
      apply (app_ok_processor h hm ip fp md [raw]); [exact O | |].
      * apply Forall_forall. intros q Hq. left. exact Hq.
      * intros Hh. left. exact Hh.
  - destruct (can_undo (history_manager app)) eqn:U.
    + destruct (undo_action_spec app O U) as (app' & _ & _ & _ & E & O' & _).
      exists app'. split; assumption.
    + exists app. split; [| exact O]. unfold Window._undo_action. rewrite U. reflexivity.
  - destruct (can_redo (history_manager app)) eqn:U.
    + destruct (redo_action_spec app O U) as (app' & _ & _ & _ & E & O' & _).
      exists app'. split; assumption.
    + exists app. split; [| exact O]. unfold Window._redo_action. rewrite U. reflexivity.
  - destruct (IP.has_image (image_processor app)) eqn:Hi.
    2: { exists app. split; [apply apply_filter_no_image, Hi | exact O]. }
    unfold IP.has_image in Hi.
    destruct (_current_image (image_processor app)) as [c|] eqn:Ec; [| discriminate].
    destruct (app_ok_shown app c O Ec) as (_ & a & _ & S).
    destruct (request_call req a) as [call|] eqn:Er.
    + destruct (cv2 call a) as [a'|] eqn:Ecv.
      * destruct (apply_filter_success req app a call a' O S Er Ecv) as (app' & E & O' & _).
        exists app'. split; assumption.
      * destruct (apply_filter_failure req app a O S) as (app' & E & O' & _).
        { right. exists call. split; assumption. }
        exists app'. split; assumption.
    + destruct (apply_filter_failure req app a O S) as (app' & E & O' & _).
      { left. exact Er. }
      exists app'. split; assumption.
  - destruct response.
    2: { exists app. split; [apply reset_noop; left; reflexivity | exact O]. }
    destruct (IP.has_image (image_processor app)) eqn:Hi.
    2: { exists app. split; [apply reset_noop; right; exact Hi | exact O]. }
    unfold IP.has_image in Hi.
    destruct (_current_image (image_processor app)) as [c|] eqn:Ec; [| discriminate].
    destruct (app_ok_shown app c O Ec) as (_ & a & _ & S).
    destruct (reset_spec app a O S) as (app' & E & O' & _).
    exists app'. split; assumption.
Qed.

Lemma app_reachable_ok `{OpenCV} app : app_reachable app -> app_ok app.
Proof.
  induction 1 as [h app E | a app app' _ IH E].
  - exact (init_app_ok h app E).
  - destruct (state_updates_spec a app IH) as (app'' & E' & O'').
    rewrite E in E'. injection E' as <-. exact O''.
Qed.

(** ** The example application is reachable *)

Lemma reachable_opened : @app_reachable toy_cv2 opened.
Proof.
  apply (@app_step toy_cv2 (OpenImage "a.png")
           (mk_App [] (mk_HistoryManager (mk_deque [] 20) (mk_deque [] 20) 20 None)
              IP.__init__ None false)).
  - apply (@app_init toy_cv2 []). vm_compute. reflexivity.
  - vm_compute. reflexivity.
Defined.

Lemma reachable_filtered : @app_reachable toy_cv2 filtered.
Proof.
  apply (@app_step toy_cv2 (ApplyFilter Grayscale) opened).
  - exact reachable_opened.
  - vm_compute. reflexivity.
Defined.

Lemma reachable_resized : @app_reachable toy_cv2 resized.
Proof.
  apply (@app_step toy_cv2 (ApplyFilter (Resize (Some 2) (Some 1) (Some false))) opened).
  - exact reachable_opened.
  - vm_compute. reflexivity.
Defined.

(** ** The metadata *)

Lemma on_history_processor {A} (c : M A) app x app1 :
  on_history c app = Ok (x, app1) -> image_processor app1 = image_processor app.
Proof.
  unfold on_history. destruct (c (history_world app)) as [[y w]|e]; [| discriminate].
  intros [= _ <-]. reflexivity.
Qed.

(** [set_image] shows the array it is given and recomputes width, height
    and channels from it; file name and element type stay. *)
Lemma set_image_result r app1 app' :
  IP.set_image r app1 = Ok (tt, app') ->
  exists x,
    shown app' = Some x /\
    _metadata (image_processor app')
    = (fun md => mk_ImageMetadata (filename md) (Z.of_nat (snd (fst (shape x))))
                   (Z.of_nat (fst (fst (shape x)))) (snd (shape x)) (dtype md))
      <$> _metadata (image_processor app1).
Proof.
  destruct app1 as [h hm ip fp md]. run_app.
  destruct (h !! r) as [x|] eqn:Ex; [| discriminate].
  cbn [app_objects history_manager image_processor current_file_path is_modified
       _current_image _original_image _metadata _blur_intensity].
  destruct (_metadata ip) as [m|].
  - destruct x as [[[x y] z] sz d]. cbn. intros [= <-]. eexists. split.
    + unfold shown. cbn. apply lookup_fresh.
    + reflexivity.
  - cbn. intros [= <-]. eexists. split.
    + unfold shown. cbn. apply lookup_fresh.
    + reflexivity.
Qed.

Lemma reset_image_metadata app1 b app2 :
  IP.reset_image app1 = Ok (b, app2) ->
  _metadata (image_processor app2) = _metadata (image_processor app1).
Proof.
  destruct app1 as [h hm ip fp md]. run_app.
  destruct (_original_image ip) as [o|]; cbn; [| intros [= _ <-]; reflexivity].
  destruct (h !! o) as [x|]; cbn; [| discriminate].
  intros [= _ <-]. reflexivity.
Qed.

(** * The application: properties *)

(** X15: a successful filter commits the image from before the filter.
    From any reachable state showing an image, when OpenCV returns a
    result for the request, [apply_filter] shows that result and sets
    [is_modified]; the manager's [current] becomes the image that was
    shown before, its old [current] goes to the undo stack (bounded by
    20), and the redo stack is emptied.  The result itself is not in the
    history. *)
Theorem X15_filter_commits_previous_image `{OpenCV}
    (app : App) (req : filter_request float) (a a' : ndarray) (call : cv2_call float) :
  app_reachable app -> shown app = Some a ->
  request_call req a = Some call -> cv2 call a = Some a' ->
  exists app',
    Window.apply_filter req app = Ok (tt, app') /\
    shown app' = Some a' /\ is_modified app' = true /\
    original app' = original app /\
    observe (history_world app')
    = (Some a,
       last_n (Z.to_nat default_max_history)
         (undo_values (history_world app) ++ current_values (history_world app)),
       []).
Proof.
  intros R S Er Ecv. apply app_reachable_ok in R.
  destruct (apply_filter_success req app a call a' R S Er Ecv)
    as (app' & E & _ & S' & M & Or & _ & _ & Ob).
  exists app'. repeat split; assumption.
Qed.

Lemma X15_filter_commits_previous_image_witness :
  exists app',
    @Window.apply_filter toy_cv2 Grayscale opened = Ok (tt, app') /\
    shown app' = Some (mk_ndarray (1, 1, 3)%nat 1 [0; 0; 0]%N) /\ is_modified app' = true /\
    original app' = original opened /\
    observe (history_world app')
    = (Some imgA,
       last_n (Z.to_nat default_max_history)
         (undo_values (history_world opened) ++ current_values (history_world opened)),
       []).
Proof.
  apply (@X15_filter_commits_previous_image toy_cv2 opened Grayscale imgA _ GRAY_AND_BACK
           reachable_opened); vm_compute; reflexivity.
Defined.

(** X16: a filter that fails is rolled back, almost.  From any reachable
    state showing an image, when the request names no known filter, the
    size of a resize cannot be computed, or OpenCV raises,
    [apply_filter] leaves the image shown and
    [is_modified] as they were and the manager's [current] has its old
    contents; but the redo stack then holds exactly the image shown
    (whatever it held before is gone), and of the undo stack only the
    last 19 entries are kept. *)
Theorem X16_failed_filter_rolls_back `{OpenCV}
    (app : App) (req : filter_request float) (a : ndarray) :
  app_reachable app -> shown app = Some a ->
  (request_call req a = None \/ exists call, request_call req a = Some call /\ cv2 call a = None) ->
  exists app',
    Window.apply_filter req app = Ok (tt, app') /\
    shown app' = Some a /\ is_modified app' = is_modified app /\
    original app' = original app /\
    observe (history_world app')
    = (current_value (history_world app),
       last_n (Z.to_nat default_max_history - 1) (undo_values (history_world app)),
       [Some a]).
Proof.
  intros R S F. apply app_reachable_ok in R.
  destruct (apply_filter_failure req app a R S F) as (app' & E & _ & S' & M & Or & _ & _ & Ob).
  exists app'. repeat split; assumption.
Qed.

Lemma X16_failed_filter_rolls_back_witness :
  (exists app',
     @Window.apply_filter toy_cv2 OtherName filtered = Ok (tt, app') /\
     shown app' = shown filtered /\ is_modified app' = is_modified filtered /\
     original app' = original filtered /\
     observe (history_world app')
     = (current_value (history_world filtered),
        last_n (Z.to_nat default_max_history - 1) (undo_values (history_world filtered)),
        [shown filtered])) /\
  (exists app',
     @Window.apply_filter toy_cv2 (Blur (Some 4)) opened = Ok (tt, app') /\
     shown app' = Some imgA /\ is_modified app' = is_modified opened /\
     original app' = original opened /\
     observe (history_world app')
     = (current_value (history_world opened),
        last_n (Z.to_nat default_max_history - 1) (undo_values (history_world opened)),
        [Some imgA])).
Proof.
  split.
  - apply (@X16_failed_filter_rolls_back toy_cv2 filtered OtherName _ reachable_filtered);
      [vm_compute; reflexivity | left; reflexivity].
  - apply (@X16_failed_filter_rolls_back toy_cv2 opened (Blur (Some 4)) imgA reachable_opened);
      [vm_compute; reflexivity | right; eexists; split; vm_compute; reflexivity].
Defined.

(** X17: the newest edit cannot be redone.  After a successful filter,
    the undo action shows what the manager had as [current] before the
    filter, and the redo action after it shows the image from before the
    filter, not the filter's result: the manager is back in the state it
    had right after the filter, in which the result never was. *)
Theorem X17_redo_does_not_restore_filter_result `{OpenCV}
    (app : App) (req : filter_request float) (a a' : ndarray) (call : cv2_call float) :
  app_reachable app -> shown app = Some a ->
  request_call req a = Some call -> cv2 call a = Some a' ->
  exists app1 app2 app3,
    Window.apply_filter req app = Ok (tt, app1) /\ shown app1 = Some a' /\
    Window._undo_action app1 = Ok (tt, app2) /\
    shown app2 = current_value (history_world app) /\
    Window._redo_action app2 = Ok (tt, app3) /\
    shown app3 = Some a /\
    observe (history_world app3) = observe (history_world app1).
Proof.
  intros R S Er Ecv. apply app_reachable_ok in R.
  destruct (apply_filter_success req app a call a' R S Er Ecv)
    as (app1 & E1 & O1 & S1 & _ & _ & _ & _ & Ob1).
  pose proof (reachable_inv _ _ (ok_history _ R)) as I.
  destruct (ok_loaded _ R (has_image_shown _ _ S)) as [hc Hc].
  destruct (inv_current _ _ _ I Hc) as [v Hv].
  assert (current_value (history_world app) = Some v) as Cv
    by (unfold current_value; cbn [self history_world]; rewrite Hc; exact Hv).
  rewrite (current_values_of_value _ _ Cv) in Ob1.
  rewrite last_n_snoc in Ob1 by (unfold default_max_history; lia).
  pose proof Ob1 as Ob1'. injection Ob1' as Oc1 Ou1 Or1.
  destruct (undo_action_spec app1 O1 (can_undo_of_values _ _ _ Ou1))
    as (app2 & a2 & b2 & U2 & E2 & O2 & Ca2 & Uv2 & Ob2 & S2 & _).
  rewrite Oc1 in Ca2. injection Ca2 as <-.
  rewrite Ou1 in Uv2. apply app_inj_tail in Uv2. destruct Uv2 as [<- [= <-]].
  rewrite Or1, app_nil_l in Ob2.
  pose proof Ob2 as Ob2'. injection Ob2' as Oc2 Ou2 Or2.
  destruct (redo_action_spec app2 O2 (can_redo_of_values _ [] _ Or2))
    as (app3 & a3 & b3 & R3 & E3 & O3 & Ca3 & Rv3 & Ob3 & S3 & _).
  rewrite Oc2 in Ca3. injection Ca3 as <-.
  rewrite Or2 in Rv3. change [Some a] with ([] ++ [Some a]) in Rv3.
  apply app_inj_tail in Rv3. destruct Rv3 as [<- [= <-]].
  exists app1, app2, app3.
  split; [exact E1 |]. split; [exact S1 |]. split; [exact E2 |].
  split; [rewrite Cv; exact S2 |]. split; [exact E3 |]. split; [exact S3 |].
  rewrite Ob3, Ou2, Ob1. reflexivity.
Qed.

Lemma X17_redo_does_not_restore_filter_result_witness :
  exists app1 app2 app3,
    @Window.apply_filter toy_cv2 Grayscale opened = Ok (tt, app1) /\
    shown app1 = Some (mk_ndarray (1, 1, 3)%nat 1 [0; 0; 0]%N) /\
    Window._undo_action app1 = Ok (tt, app2) /\
    shown app2 = current_value (history_world opened) /\
    Window._redo_action app2 = Ok (tt, app3) /\
    shown app3 = Some imgA /\
    observe (history_world app3) = observe (history_world app1).
Proof.
  apply (@X17_redo_does_not_restore_filter_result toy_cv2 opened Grayscale imgA _
           GRAY_AND_BACK reachable_opened); vm_compute; reflexivity.
Defined.

(** X18: opening a file.  A cancelled dialog or an unreadable file
    changes nothing.  When the file is read and converted, the processor
    shows the converted image and keeps it as the original, the metadata
    carry the file's base name and the image's dimensions, the path is
    recorded and [is_modified] cleared, and the manager is reset to that
    image alone: empty undo and redo stacks, whatever they held before. *)
Theorem X18_open_image `{OpenCV} (app : App) (path : string) :
  app_reachable app ->
  (path = EmptyString \/ imread path = None -> Window._open_image path app = Ok (tt, app)) /\
  (forall raw image,
     path <> EmptyString -> imread path = Some raw -> cv2 COLOR_BGR2RGB raw = Some image ->
     exists app',
       Window._open_image path app = Ok (tt, app') /\
       shown app' = Some image /\ original app' = Some image /\
       observe (history_world app') = (Some image, [], []) /\
       current_file_path app' = Some path /\ is_modified app' = false /\
       _metadata (image_processor app')
       = Some (mk_ImageMetadata (basename path) (Z.of_nat (snd (fst (shape image))))
                 (Z.of_nat (fst (fst (shape image)))) (snd (shape image)) (dtype_str image))).
Proof.
  intros R. apply app_reachable_ok in R. split.
  - intros [-> | Er]; [apply open_image_cancelled | apply open_image_unreadable, Er].
  - intros raw image Np Er Ec.
    destruct (open_image_spec app path raw image R Np Er Ec)
      as (app' & E & _ & S & Or & Ob & Fp & Md & Mt & _).
    exists app'. repeat split; assumption.
Qed.

Lemma X18_open_image_witness :
  @Window._open_image toy_cv2 "missing.png" filtered = Ok (tt, filtered) /\
  exists app',
    @Window._open_image toy_cv2 "a.png" filtered = Ok (tt, app') /\
    shown app' = Some imgA /\ original app' = Some imgA /\
    observe (history_world app') = (Some imgA, [], []) /\
    current_file_path app' = Some "a.png" /\ is_modified app' = false /\
    _metadata (image_processor app')
    = Some (mk_ImageMetadata (basename "a.png") (Z.of_nat (snd (fst (shape imgA))))
              (Z.of_nat (fst (fst (shape imgA)))) (snd (shape imgA))
              (@dtype_str toy_cv2 imgA)).
Proof.
  split.
  - destruct (@X18_open_image toy_cv2 filtered "missing.png" reachable_filtered) as [N _].
    apply N. right. vm_compute. reflexivity.
  - destruct (@X18_open_image toy_cv2 filtered "a.png" reachable_filtered) as [_ L].
    apply (L imgA imgA);
      [discriminate | vm_compute; reflexivity | vm_compute; reflexivity].
Defined.

(** X19: the application's state stays well formed.  In every state
    left by the state updates of opening files, applying filters,
    undoing, redoing and resetting, in any order: the manager is in a
    state reachable with bound 20 (so everything proved of the manager
    holds of it), the arrays the processor holds exist and are none of
    the arrays the manager holds, and the manager has a [current]
    whenever the processor has an image.  The state updates of every
    action run to completion from such a state: none of the calls an
    action makes into the manager or the processor raises, so no action
    leaves the state half updated.  Whether the display refresh that
    follows them returns is not stated: it is not part of the model. *)
Theorem X19_application_invariant `{OpenCV} (app : App) :
  app_reachable app ->
  reachable default_max_history (history_world app) /\
  Forall (valid (app_objects app)) (processor_refs (image_processor app)) /\
  Forall (fun r => r ∉ owned (history_manager app)) (processor_refs (image_processor app)) /\
  (IP.has_image (image_processor app) = true ->
   is_Some (_current_state (history_manager app))) /\
  forall a : action, exists app', state_updates a app = Ok (tt, app') /\ app_reachable app'.
Proof.
  intros R. pose proof (app_reachable_ok app R) as [O1 O2 O3 O4].
  split; [exact O1 |]. split; [exact O2 |]. split; [exact O3 |]. split; [exact O4 |].
  intros a. destruct (state_updates_spec a app (app_reachable_ok app R)) as (app' & E & _).
  exists app'. split; [exact E |]. eapply app_step; eassumption.
Qed.

Lemma X19_application_invariant_witness :
  reachable default_max_history (history_world filtered) /\
  Forall (valid (app_objects filtered)) (processor_refs (image_processor filtered)) /\
  Forall (fun r => r ∉ owned (history_manager filtered))
    (processor_refs (image_processor filtered)) /\
  (IP.has_image (image_processor filtered) = true ->
   is_Some (_current_state (history_manager filtered))) /\
  forall a : action,
    exists app', @state_updates toy_cv2 a filtered = Ok (tt, app') /\ @app_reachable toy_cv2 app'.
Proof.
  exact (@X19_application_invariant toy_cv2 filtered reachable_filtered).
Defined.

(** X20: the state the undo and redo actions leave.  With nothing to
    undo (redo) the action changes nothing.  Otherwise its calls to the
    manager and to [set_image] complete, and after them, where the
    display refresh starts, the processor holds exactly the manager's
    new [current] (the former tail of the undo, respectively redo,
    stack), the line of snapshots is unchanged, and neither the original
    image nor [is_modified] is touched.  The display refresh itself is
    not part of the model. *)
Theorem X20_undo_redo_actions `{OpenCV} (app : App) :
  app_reachable app ->
  (can_undo (history_manager app) = false -> Window._undo_action app = Ok (tt, app)) /\
  (can_redo (history_manager app) = false -> Window._redo_action app = Ok (tt, app)) /\
  (can_undo (history_manager app) = true ->
   exists app',
     Window._undo_action app = Ok (tt, app') /\
     shown app' = current_value (history_world app') /\
     last (undo_values (history_world app)) = Some (shown app') /\
     timeline (history_world app') = timeline (history_world app) /\
     original app' = original app /\ is_modified app' = is_modified app) /\
  (can_redo (history_manager app) = true ->
   exists app',
     Window._redo_action app = Ok (tt, app') /\
     shown app' = current_value (history_world app') /\
     last (redo_values (history_world app)) = Some (shown app') /\
     timeline (history_world app') = timeline (history_world app) /\
     original app' = original app /\ is_modified app' = is_modified app).
Proof.
  intros R. apply app_reachable_ok in R.
  split; [intros U; unfold Window._undo_action; rewrite U; reflexivity |].
  split; [intros U; unfold Window._redo_action; rewrite U; reflexivity |].
  split; intros U.
  - destruct (undo_action_spec app R U)
      as (app' & a & b & Us & E & _ & Ca & Uv & Ob & S & Or & _ & _ & Md).
    injection Ob as Oc Ou Orr.
    exists app'. split; [exact E |]. split; [rewrite Oc; exact S |].
    split; [rewrite Uv, S; apply last_snoc |].
    split; [| split; assumption].
    unfold timeline.
    rewrite (current_values_of_value _ _ Ca), (current_values_of_value _ _ Oc).
    rewrite Ou, Orr, Uv, reverse_snoc, <- !app_assoc. reflexivity.
  - destruct (redo_action_spec app R U)
      as (app' & a & b & Rs & E & _ & Ca & Rv & Ob & S & Or & _ & _ & Md).
    injection Ob as Oc Ou Orr.
    exists app'. split; [exact E |]. split; [rewrite Oc; exact S |].
    split; [rewrite Rv, S; apply last_snoc |].
    split; [| split; assumption].
    unfold timeline.
    rewrite (current_values_of_value _ _ Ca), (current_values_of_value _ _ Oc).
    rewrite Ou, Orr, Rv, reverse_snoc, <- !app_assoc. reflexivity.
Qed.

Lemma X20_undo_redo_actions_witness :
  Window._redo_action filtered = Ok (tt, filtered) /\
  exists app',
    Window._undo_action filtered = Ok (tt, app') /\
    shown app' = current_value (history_world app') /\
    last (undo_values (history_world filtered)) = Some (shown app') /\
    timeline (history_world app') = timeline (history_world filtered) /\
    original app' = original filtered /\ is_modified app' = is_modified filtered.
Proof.
  destruct (@X20_undo_redo_actions toy_cv2 filtered reachable_filtered) as (_ & N & U & _).
  split; [apply N | apply U]; vm_compute; reflexivity.
Defined.

(** X21: resetting.  Declining the confirmation, or having no image,
    changes nothing.  Confirming, in a reachable state that shows an
    image and has an original, commits the image shown to the manager
    (it becomes [current], the redo stack is emptied) and then shows a
    copy of the original; [is_modified] is left as it was. *)
Theorem X21_reset_image `{OpenCV} (app : App) (a o : ndarray) :
  app_reachable app ->
  (forall response,
     response = false \/ IP.has_image (image_processor app) = false ->
     Window._reset_image response app = Ok (tt, app)) /\
  (shown app = Some a -> original app = Some o ->
   exists app',
     Window._reset_image true app = Ok (tt, app') /\
     shown app' = Some o /\ original app' = Some o /\
     is_modified app' = is_modified app /\
     observe (history_world app')
     = (Some a,
        last_n (Z.to_nat default_max_history)
          (undo_values (history_world app) ++ current_values (history_world app)),
        [])).
Proof.
  intros R. apply app_reachable_ok in R.
  split; [intros response D; apply reset_noop, D |].
  intros S Eo.
  destruct (reset_spec app a R S) as (app' & E & _ & S' & Or & _ & Md & _ & Ob).
  exists app'. rewrite Eo in S', Or. cbn in S'.
  repeat split; assumption.
Qed.

Lemma X21_reset_image_witness :
  Window._reset_image false filtered = Ok (tt, filtered) /\
  exists app',
    Window._reset_image true filtered = Ok (tt, app') /\
    shown app' = Some imgA /\ original app' = Some imgA /\
    is_modified app' = is_modified filtered /\
    observe (history_world app')
    = (Some (mk_ndarray (1, 1, 3)%nat 1 [0; 0; 0]%N),
       last_n (Z.to_nat default_max_history)
         (undo_values (history_world filtered) ++ current_values (history_world filtered)),
       []).
Proof.
  destruct (@X21_reset_image toy_cv2 filtered
              (mk_ndarray (1, 1, 3)%nat 1 [0; 0; 0]%N) imgA reachable_filtered) as [N Y].
  split; [apply N; left; reflexivity | apply Y; vm_compute; reflexivity].
Defined.

(** X22: two filters, one undo.  After two successful filters in a row
    the undo action does not show the result of the first filter: it
    shows the image from before the first one, because each filter
    commits the image it starts from and never its result. *)
Theorem X22_undo_after_two_filters `{OpenCV}
    (app : App) (req1 req2 : filter_request float) (a a1 a2 : ndarray)
    (call1 call2 : cv2_call float) :
  app_reachable app -> shown app = Some a ->
  request_call req1 a = Some call1 -> cv2 call1 a = Some a1 ->
  request_call req2 a1 = Some call2 -> cv2 call2 a1 = Some a2 ->
  exists app1 app2 app3,
    Window.apply_filter req1 app = Ok (tt, app1) /\ shown app1 = Some a1 /\
    Window.apply_filter req2 app1 = Ok (tt, app2) /\ shown app2 = Some a2 /\
    Window._undo_action app2 = Ok (tt, app3) /\ shown app3 = Some a.
Proof.
  intros R S Er1 Ec1 Er2 Ec2. apply app_reachable_ok in R.
  destruct (apply_filter_success req1 app a call1 a1 R S Er1 Ec1)
    as (app1 & E1 & O1 & S1 & _ & _ & _ & _ & Ob1).
  destruct (apply_filter_success req2 app1 a1 call2 a2 O1 S1 Er2 Ec2)
    as (app2 & E2 & O2 & S2 & _ & _ & _ & _ & Ob2).
  injection Ob1 as Oc1 _ _.
  rewrite (current_values_of_value _ _ Oc1) in Ob2.
  rewrite last_n_snoc in Ob2 by (unfold default_max_history; lia).
  injection Ob2 as Oc2 Ou2 _.
  destruct (undo_action_spec app2 O2 (can_undo_of_values _ _ _ Ou2))
    as (app3 & x & b & U3 & E3 & _ & _ & Uv3 & _ & S3 & _).
  rewrite Ou2 in Uv3. apply app_inj_tail in Uv3. destruct Uv3 as [_ [= <-]].
  exists app1, app2, app3. repeat split; assumption.
Qed.

Lemma X22_undo_after_two_filters_witness :
  exists app1 app2 app3,
    @Window.apply_filter toy_cv2 Grayscale opened = Ok (tt, app1) /\
    shown app1 = Some (mk_ndarray (1, 1, 3)%nat 1 [0; 0; 0]%N) /\
    @Window.apply_filter toy_cv2 FlipHorizontal app1 = Ok (tt, app2) /\
    shown app2 = Some (mk_ndarray (1, 1, 3)%nat 1 [0; 0; 0]%N) /\
    Window._undo_action app2 = Ok (tt, app3) /\ shown app3 = Some imgA.
Proof.
  apply (@X22_undo_after_two_filters toy_cv2 opened Grayscale FlipHorizontal imgA _ _
           GRAY_AND_BACK (cv2_flip HORIZONTAL) reachable_opened); vm_compute; reflexivity.
Defined.

(** X23: the metadata after undo, redo and reset.  The undo and redo
    actions recompute the metadata's width, height and channels from the
    image they restore (file name and element type stay as they were).
    Resetting does not: after a confirmed reset the metadata are those
    from before the reset, also when a rotation or a resize had changed
    the dimensions and the original's are different. *)
Theorem X23_metadata_after_undo_redo_reset `{OpenCV} (app : App) :
  app_reachable app ->
  (can_undo (history_manager app) = true ->
   exists app' b,
     Window._undo_action app = Ok (tt, app') /\ shown app' = Some b /\
     _metadata (image_processor app')
     = (fun md => mk_ImageMetadata (filename md) (Z.of_nat (snd (fst (shape b))))
                    (Z.of_nat (fst (fst (shape b)))) (snd (shape b)) (dtype md))
       <$> _metadata (image_processor app)) /\
  (can_redo (history_manager app) = true ->
   exists app' b,
     Window._redo_action app = Ok (tt, app') /\ shown app' = Some b /\
     _metadata (image_processor app')
     = (fun md => mk_ImageMetadata (filename md) (Z.of_nat (snd (fst (shape b))))
                    (Z.of_nat (fst (fst (shape b)))) (snd (shape b)) (dtype md))
       <$> _metadata (image_processor app)) /\
  (IP.has_image (image_processor app) = true ->
   exists app',
     Window._reset_image true app = Ok (tt, app') /\
     _metadata (image_processor app') = _metadata (image_processor app)).
Proof.
  intros R. apply app_reachable_ok in R.
  split; [| split].
  - intros U.
    destruct (undo_action_spec app R U) as (app' & a & b & Us & E & _).
    exists app'.
    unfold Window._undo_action in E. rewrite U in E. unfold abind in E.
    destruct (on_history undo app) as [[[r|] app1]|e] eqn:Eh; try discriminate.
    + destruct (set_image_result r app1 app' E) as (x & Sx & Mx).
      rewrite (on_history_processor _ _ _ _ Eh) in Mx.
      exists x. split; [| split; assumption].
      unfold Window._undo_action. rewrite U. unfold abind. rewrite Eh. exact E.
    + exfalso. pose proof (reachable_inv _ _ (ok_history _ R)) as I.
      destruct (undo_observe _ _ I U) as (r & w' & _ & _ & _ & Eu & _).
      unfold on_history in Eh. rewrite Eu in Eh. discriminate.
  - intros U.
    destruct (redo_action_spec app R U) as (app' & a & b & Us & E & _).
    exists app'.
    unfold Window._redo_action in E. rewrite U in E. unfold abind in E.
    destruct (on_history redo app) as [[[r|] app1]|e] eqn:Eh; try discriminate.
    + destruct (set_image_result r app1 app' E) as (x & Sx & Mx).
      rewrite (on_history_processor _ _ _ _ Eh) in Mx.
      exists x. split; [| split; assumption].
      unfold Window._redo_action. rewrite U. unfold abind. rewrite Eh. exact E.
    + exfalso. pose proof (reachable_inv _ _ (ok_history _ R)) as I.
      destruct (redo_observe _ _ I U) as (r & w' & _ & _ & _ & Eu & _).
      unfold on_history in Eh. rewrite Eu in Eh. discriminate.
  - intros Hi.
    assert (exists a, shown app = Some a) as [a S].
    { unfold IP.has_image in Hi.
      destruct (_current_image (image_processor app)) as [c|] eqn:Ec; [| discriminate].
      destruct (app_ok_shown app c R Ec) as (_ & a & _ & S). exists a. exact S. }
    destruct (reset_spec app a R S) as (app' & E & _).
    destruct (save_spec app a R S) as (app1 & E1 & _ & Eip & _).
    exists app'. split; [exact E |].
    unfold Window._reset_image, abind, get_processor in E. cbn beta iota in E.
    rewrite Hi, E1 in E.
    destruct (IP.reset_image app1) as [[b app2]|e] eqn:Er; [| discriminate].
    injection E as <-.
    rewrite (reset_image_metadata _ _ _ Er), Eip. reflexivity.
Qed.

Lemma X23_metadata_after_undo_redo_reset_witness :
  (exists app' b,
     Window._undo_action resized = Ok (tt, app') /\ shown app' = Some b /\
     _metadata (image_processor app')
     = (fun md => mk_ImageMetadata (filename md) (Z.of_nat (snd (fst (shape b))))
                    (Z.of_nat (fst (fst (shape b)))) (snd (shape b)) (dtype md))
       <$> _metadata (image_processor resized)) /\
  exists app',
    Window._reset_image true resized = Ok (tt, app') /\
    _metadata (image_processor app') = _metadata (image_processor resized).
Proof.
  destruct (@X23_metadata_after_undo_redo_reset toy_cv2 resized reachable_resized)
    as (U & _ & T).
  split; [apply U | apply T]; vm_compute; reflexivity.
Defined.
